(** * Copy-on-write drafts of [src/proxy.js], embedded in Rocq

    The module [proxy.js] keeps, for every drafted node of an object graph, a
    _state_ record ([createState]) behind a revocable proxy.  Reads create
    child drafts lazily ([get]), the first write or delete escalates the
    state and all its ancestors ([markChanged]), and [produceProxy] runs a
    producer against the root draft, finalizes and revokes.

    The embedding is a shallow one: the JavaScript heap is an explicit store
    (objects, states and proxy handles are addressed by identifiers, so that
    reference equality and aliasing are what they are in the source), the
    traps are functions in a state-and-exception monad over that store, and
    the producer is a tree of draft operations.

    Of the traps of [objectTraps], [ownKeys] and [getOwnPropertyDescriptor]
    are left out: they read the store and nothing here depends on the order
    of keys or on property descriptors.

    Objects are plain records and arrays as object literals and [JSON.parse]
    make them: own data properties, the prototype [Object.prototype] or
    [Array.prototype] with the members the language gives them, and for
    arrays the [length] bookkeeping.  Where the code leaves this fragment
    (a prototype is replaced through the [__proto__] accessor, a prototype
    object would be drafted, an array length is given as a value whose
    conversion to a number is not worked out here) the outcome is
    [Unmodelled], and a run ends there. *)

From Stdlib Require Import ZArith String DecimalString.
From stdpp Require Import base decidable countable strings gmap list fin_maps fin_sets.

Local Open Scope string_scope.

(** ** Values, objects and states *)

Definition loc := positive.   (* address of a plain object or array *)
Definition sid := positive.   (* address of a draft state; its proxy carries the same id *)

(** Property keys: the [PROXY_STATE] key, or a name (array indices are names
    as well, as in JavaScript).  [PROXY_STATE] is a constant of [./common],
    which is not under [src/]; all that is used of it is that it is a key of
    its own, which no data entry has. *)
Inductive prop :=
| PROXY_STATE
| PKey (k : string).

(** Objects of the heap.  [OOther] stands for everything that is not a plain
    record or an array (class instances, dates, ...). *)
Inductive okind := ORecord | OArray | OOther.

Global Instance okind_eq_dec : EqDecision okind.
Proof. solve_decision. Defined.

(** What an object inherits: the prototype object of its kind, as the
    accessor [__proto__] returns it, and the members of the prototypes (the
    functions [toString], [push], ...).  They are values with an identity
    and nothing else: the heap does not hold them. *)
Inductive builtin :=
| BProto (kd : okind)
| BMember (kd : okind) (name : string).

Global Instance builtin_eq_dec : EqDecision builtin.
Proof. solve_decision. Defined.

Inductive value :=
| VUndefined
| VNull
| VBool (b : bool)
| VNum (z : Z)
| VNaN
| VStr (s : string)
| VObj (l : loc)        (* reference to an object of the heap *)
| VProxy (d : sid)      (* a draft: the proxy in front of state [d] *)
| VState (d : sid)      (* the state object itself, as handed out under PROXY_STATE *)
| VBuiltin (b : builtin).

Global Instance prop_eq_dec : EqDecision prop.
Proof. solve_decision. Defined.
Global Instance value_eq_dec : EqDecision value.
Proof. solve_decision. Defined.

Global Instance prop_countable : Countable prop.
Proof.
  refine (inj_countable'
    (fun p => match p with PROXY_STATE => None | PKey k => Some k end)
    (fun o => match o with None => PROXY_STATE | Some k => PKey k end) _).
  by intros [].
Defined.

(** An object: its kind, which gives its prototype, and its own entries.
    An array has its [length] among them. *)
Record obj := mk_obj { kind : okind; fields : gmap prop value }.

Definition empty_obj : obj := mk_obj ORecord ∅.

(** [createState] builds this record; [proxies] is the per-state cache of
    child drafts, [copy] is [undefined] ([None]) until the state escalates. *)
Record state := mk_state {
  modified : bool;
  finalized : bool;
  parent : option sid;
  base : loc;
  copy : option loc;
  proxies : gmap prop value
}.

(** The store: heap objects, draft states, the revocation flag of every
    proxy handle, and the module-level variable [proxies] (the registry of
    the running [produceProxy] call, [null] outside of any call). *)
Record world := mk_world {
  w_heap : gmap loc obj;
  w_states : gmap sid state;
  w_revoked : gmap sid bool;
  w_proxies : option (list sid)
}.

Definition set_modified (b : bool) (st : state) : state :=
  mk_state b (finalized st) (parent st) (base st) (copy st) (proxies st).
Definition set_copy (c : option loc) (st : state) : state :=
  mk_state (modified st) (finalized st) (parent st) (base st) c (proxies st).
Definition set_proxies (m : gmap prop value) (st : state) : state :=
  mk_state (modified st) (finalized st) (parent st) (base st) (copy st) m.

Definition with_heap (h : gmap loc obj) (w : world) : world :=
  mk_world h (w_states w) (w_revoked w) (w_proxies w).
Definition with_states (m : gmap sid state) (w : world) : world :=
  mk_world (w_heap w) m (w_revoked w) (w_proxies w).
Definition with_revoked (m : gmap sid bool) (w : world) : world :=
  mk_world (w_heap w) (w_states w) m (w_proxies w).
Definition with_proxies (r : option (list sid)) (w : world) : world :=
  mk_world (w_heap w) (w_states w) (w_revoked w) r.

(** ** The monad of the traps: a store and JavaScript exceptions

    An exception leaves the store as it was when it was raised: nothing is
    rolled back.  The message [RETURNED_AND_MODIFIED_ERROR] is a constant of
    [./common], which is not under [src/]: the error made from it has a
    constructor of its own. *)
Inductive exn :=
| JsError (msg : string)      (* [new Error(msg)] raised by a trap *)
| ReturnedAndModified         (* [new Error(RETURNED_AND_MODIFIED_ERROR)] *)
| TypeError (msg : string)    (* raised by the runtime: revoked proxy, property of undefined *)
| RangeError                  (* the call stack is exhausted, or an array length is invalid *)
| UserThrow (v : value)       (* thrown by the producer *)
| Unmodelled (what : string). (* not an exception: the code leaves the fragment modelled *)

Inductive res (A : Type) :=
| Ok (a : A)
| Throw (e : exn).
Arguments Ok {A} a.
Arguments Throw {A} e.

Definition M (A : Type) : Type := world -> res A * world.

Definition ret {A} (a : A) : M A := fun w => (Ok a, w).
Definition throw {A} (e : exn) : M A := fun w => (Throw e, w).
Definition bind {A B} (m : M A) (k : A -> M B) : M B := fun w =>
  match m w with
  | (Ok a, w') => k a w'
  | (Throw e, w') => (Throw e, w')
  end.
Definition gets {A} (f : world -> A) : M A := fun w => (Ok (f w), w).
Definition modify (f : world -> world) : M unit := fun w => (Ok tt, f w).

Notation "x <- m ;; k" := (bind m (fun x => k))
  (at level 100, m at next level, right associativity).
Notation "m ;;; k" := (bind m (fun _ => k))
  (at level 100, right associativity).

(** *** Plain objects *)

(** The object at [l]; a location nothing was ever stored at reads as the
    empty record (JavaScript has no dangling references). *)
Definition obj_at (w : world) (l : loc) : obj := default empty_obj (w_heap w !! l).

(** The string-named members of [Object.prototype] and of [Array.prototype]
    in ECMAScript 2023.  All are data properties holding a function, but
    [__proto__], which is an accessor. *)
Definition object_prototype_names : list string :=
  ["constructor"; "__defineGetter__"; "__defineSetter__"; "hasOwnProperty";
   "__lookupGetter__"; "__lookupSetter__"; "isPrototypeOf"; "propertyIsEnumerable";
   "toString"; "valueOf"; "__proto__"; "toLocaleString"].

Definition array_prototype_names : list string :=
  ["constructor"; "at"; "concat"; "copyWithin"; "fill"; "find"; "findIndex";
   "findLast"; "findLastIndex"; "lastIndexOf"; "pop"; "push"; "reverse"; "shift";
   "unshift"; "slice"; "sort"; "splice"; "includes"; "indexOf"; "join"; "keys";
   "entries"; "values"; "forEach"; "filter"; "flat"; "flatMap"; "map"; "every";
   "some"; "reduce"; "reduceRight"; "toLocaleString"; "toString"; "toReversed";
   "toSorted"; "toSpliced"; "with"].

(** What an object of kind [kd] finds on its prototype chain under [p], when
    it has no entry of its own: an array looks in [Array.prototype] first.
    An [OOther] object inherits from [Object.prototype] like a record; what
    else it inherits is not tracked. *)
Definition inherited (kd : okind) (p : prop) : option value :=
  match p with
  | PROXY_STATE => None
  | PKey k =>
      if bool_decide (kd = OArray) && bool_decide (k ∈ array_prototype_names)
      then Some (VBuiltin (BMember OArray k))
      else if bool_decide (k = "__proto__") then Some (VBuiltin (BProto kd))
      else if bool_decide (k ∈ object_prototype_names)
      then Some (VBuiltin (BMember ORecord k))
      else None
  end.

(** [p in o] and [o[p]] on an object: own entries first, then the
    prototypes. *)
Definition has_property (o : obj) (p : prop) : bool :=
  bool_decide (is_Some (fields o !! p)) || bool_decide (is_Some (inherited (kind o) p)).

Definition get_property (o : obj) (p : prop) : value :=
  match fields o !! p with
  | Some v => v
  | None => default VUndefined (inherited (kind o) p)
  end.

(** [o[p]] *)
Definition read_field (l : loc) (p : prop) : M value :=
  gets (fun w => get_property (obj_at w l) p).

(** [p in o] *)
Definition in_field (l : loc) (p : prop) : M bool :=
  gets (fun w => has_property (obj_at w l) p).

Definition put_obj (l : loc) (o : obj) (w : world) : world :=
  with_heap (<[l := o]> (w_heap w)) w.

(** *** Arrays *)

(** An array index: the canonical decimal name of a number below 2^32 - 1. *)
Definition array_index (p : prop) : option Z :=
  match p with
  | PROXY_STATE => None
  | PKey k =>
      match NilEmpty.uint_of_string k with
      | Some u =>
          let i := N.of_uint u in
          if bool_decide (NilEmpty.string_of_uint (N.to_uint i) = k)
             && bool_decide (Z.of_N i < 2 ^ 32 - 1)%Z
          then Some (Z.of_N i) else None
      | None => None
      end
  end.

(** Whether [p] is not an index at or above [n]. *)
Definition below (n : Z) (p : prop) : bool :=
  match array_index p with
  | Some i => bool_decide (i < n)%Z
  | None => true
  end.

(** The length of an array: its [length] entry, a number below 2^32 that
    every index of the array is below.  An [OArray] object that is not of
    this shape stands for no array of JavaScript, and is read and written
    like a record. *)
Definition array_length (o : obj) : option Z :=
  match kind o, fields o !! PKey "length" with
  | OArray, Some (VNum n) =>
      if bool_decide (0 <= n < 2 ^ 32)%Z
         && bool_decide (map_Forall (fun p _ => below n p) (fields o))
      then Some n else None
  | _, _ => None
  end.

(** The number an assignment to [length] is given: [ToNumber] of the value,
    which must be a whole number below 2^32.  It is worked out for the
    values whose conversion runs no code of the user; of strings, for those
    made of decimal digits only. *)
Inductive length_arg :=
| LenOk (n : Z)
| LenInvalid
| LenUnmodelled.

Definition to_array_length (v : value) : length_arg :=
  match v with
  | VNum z => if bool_decide (0 <= z < 2 ^ 32)%Z then LenOk z else LenInvalid
  | VBool b => LenOk (if b then 1 else 0)%Z
  | VNull => LenOk 0%Z
  | VUndefined | VNaN => LenInvalid
  | VStr s =>
      match NilEmpty.uint_of_string s with
      | Some u =>
          if bool_decide (Z.of_N (N.of_uint u) < 2 ^ 32)%Z
          then LenOk (Z.of_N (N.of_uint u)) else LenInvalid
      | None => LenUnmodelled
      end
  | VObj _ | VProxy _ | VState _ | VBuiltin _ => LenUnmodelled
  end.

(** Whether a value is neither an object nor [null]: the setter of
    [__proto__] ignores such a value. *)
Definition ignored_as_prototype (v : value) : bool :=
  match v with
  | VUndefined | VBool _ | VNum _ | VNaN | VStr _ => true
  | VNull | VObj _ | VProxy _ | VState _ | VBuiltin _ => false
  end.

(** *** Assignment and deletion *)

(** [o[p] = v] on an object with the prototype of its kind.  An entry of the
    object is replaced.  Without one, [__proto__] reaches the setter of
    [Object.prototype], which ignores a primitive and would replace the
    prototype by anything else; every other name becomes an entry (the
    members of the prototypes are writable data properties). *)
Definition assign_ordinary (o : obj) (p : prop) (v : value) : res obj :=
  if bool_decide (p = PKey "__proto__") && negb (bool_decide (is_Some (fields o !! p)))
  then if ignored_as_prototype v then Ok o
       else Throw (Unmodelled "the prototype of an object is replaced")
  else Ok (mk_obj (kind o) (<[p := v]> (fields o))).

(** [o[p] = v]: on an array, an assignment to [length] removes the indices
    at and above the new length, or raises a RangeError; an assignment to
    an index at or above the length moves the length past it. *)
Definition assign (o : obj) (p : prop) (v : value) : res obj :=
  match array_length o with
  | Some n =>
      if bool_decide (p = PKey "length") then
        match to_array_length v with
        | LenOk z =>
            Ok (mk_obj (kind o)
                  (<[p := VNum z]>
                     (if bool_decide (z < n)%Z
                      then filter (fun kx => below z kx.1) (fields o)
                      else fields o)))
        | LenInvalid => Throw RangeError
        | LenUnmodelled => Throw (Unmodelled "an array length is given as an object or a string")
        end
      else
        match array_index p with
        | Some i =>
            Ok (mk_obj (kind o)
                  (if bool_decide (n <= i)%Z
                   then <[PKey "length" := VNum (i + 1)]> (<[p := v]> (fields o))
                   else <[p := v]> (fields o)))
        | None => assign_ordinary o p v
        end
  | None => assign_ordinary o p v
  end.

(** [delete o[p]] in strict mode: the [length] of an array cannot be
    deleted; every other entry can, and deleting what is not an entry
    succeeds. *)
Definition remove (o : obj) (p : prop) : res obj :=
  if bool_decide (p = PKey "length") && bool_decide (is_Some (array_length o))
  then Throw (TypeError "Cannot delete property 'length'")
  else Ok (mk_obj (kind o) (delete p (fields o))).

(** [o[p] = v] *)
Definition write_field (l : loc) (p : prop) (v : value) : M unit := fun w =>
  match assign (obj_at w l) p v with
  | Ok o' => (Ok tt, put_obj l o' w)
  | Throw e => (Throw e, w)
  end.

(** [delete o[p]] *)
Definition delete_field (l : loc) (p : prop) : M unit := fun w =>
  match remove (obj_at w l) p with
  | Ok o' => (Ok tt, put_obj l o' w)
  | Throw e => (Throw e, w)
  end.

(** The entry [p] of the object at [l] is replaced by [v]: what the
    finalizer of the specification does to an entry. *)
Definition put_field (l : loc) (p : prop) (v : value) : M unit :=
  modify (fun w => put_obj l (mk_obj (kind (obj_at w l)) (<[p := v]> (fields (obj_at w l)))) w).

(** A new object, at an address not in use. *)
Definition alloc_obj (o : obj) : M loc := fun w =>
  let l := fresh (dom (w_heap w)) in (Ok l, put_obj l o w).

(** [Object.assign(target, src)]: the entries of [src] overwrite those of
    the target. *)
Definition object_assign (l : loc) (src : gmap prop value) : M unit :=
  modify (fun w => put_obj l (mk_obj (kind (obj_at w l)) (src ∪ fields (obj_at w l))) w).

(** [a === b] of JavaScript on the values of the model. *)
Definition strict_eq (a b : value) : bool :=
  match a, b with
  | VNaN, _ | _, VNaN => false
  | _, _ => bool_decide (a = b)
  end.

(** *** Helpers imported from [./common] *)

(** Modelled from the spec: [is] of [./common], which is not under [src/]
    ([is] is a keyword here, hence the underscore).  Identity of values, with
    a NaN-like value equal to itself. *)
Definition is_ (a b : value) : bool := bool_decide (a = b).

(** Modelled from the spec: [has] of [./common], which is not under [src/].
    Whether the cache holds an entry of its own for the key. *)
Definition has (m : gmap prop value) (p : prop) : bool := bool_decide (is_Some (m !! p)).

(** Modelled from the spec: [isProxy] of [./common], which is not under
    [src/].  Whether the value is a draft. *)
Definition isProxy (v : value) : bool :=
  match v with VProxy _ => true | _ => false end.

(** Modelled from the spec: [isProxyable] of [./common], which is not under
    [src/].  True only for the two draftable shapes, a record or a sequence;
    a value that is already a draft is rejected. *)
Definition isProxyable (w : world) (v : value) : bool :=
  match v with
  | VObj l => match kind (obj_at w l) with ORecord | OArray => true | OOther => false end
  | _ => false
  end.

(** Modelled from the spec: [shallowCopy] of [./common], which is not under
    [src/].  A new container of the same kind with the same entries, one
    level deep. *)
Definition shallowCopy (l : loc) : M loc :=
  o <- gets (fun w => obj_at w l) ;;
  alloc_obj (mk_obj (kind o) (fields o)).

(** Modelled from the spec: [each] of [./common], which is not under [src/].
    Runs the callback on the entries, in order. *)
Fixpoint each {A} (l : list A) (f : A -> M unit) : M unit :=
  match l with
  | [] => ret tt
  | x :: l' => f x ;;; each l' f
  end.

(** *** States *)

Definition createState (parent : option sid) (base : loc) : state :=
  mk_state false false parent base None ∅.

(** Dereferences a state. *)
Definition read_state (s : sid) : M state := fun w =>
  match w_states w !! s with
  | Some st => (Ok st, w)
  | None => (Throw (TypeError "not a state"), w)
  end.

(** Assignment to one field of a state. *)
Definition update_state (s : sid) (f : state -> state) : M unit :=
  modify (fun w => with_states (alter f s (w_states w)) w).

(** [state.copy], which must be an object to read or write an entry of. *)
Definition copy_of (s : sid) : M loc :=
  st <- read_state s ;;
  match copy st with
  | Some c => ret c
  | None => throw (TypeError "cannot access a property of undefined")
  end.

Definition source (s : sid) : M (option loc) :=
  st <- read_state s ;;
  ret (if modified st then copy st else Some (base st)).

(** ** The functions of [proxy.js] *)

(** [createProxy]: a new state behind a new revocable proxy, which is pushed
    on the registry.  The proxy of an array wraps the state in a one-element
    array and its traps unwrap it again ([arrayTraps]), so both kinds of
    proxy behave alike and the model keeps one handle per state. *)
Definition createProxy (parentState : option sid) (base : loc) : M value := fun w =>
  let d := fresh (dom (w_states w)) in
  let w1 := with_revoked (<[d := false]> (w_revoked w))
              (with_states (<[d := createState parentState base]> (w_states w)) w) in
  match w_proxies w1 with
  | Some ps => (Ok (VProxy d), with_proxies (Some ((ps ++ [d])%list)) w1)
  | None => (Throw (TypeError "cannot read property push of null"), w1)
  end.

(** [markChanged].  The recursion climbs the parent chain and each call that
    goes on first flips a state to modified, so it makes at most one call
    per unmodified state, plus the one that stops: [n] bounds that number. *)
Fixpoint markChanged_fuel (n : nat) (s : sid) : M unit :=
  match n with
  | O => throw RangeError
  | S n' =>
      st <- read_state s ;;
      if modified st then ret tt
      else
        update_state s (set_modified true) ;;;
        c <- shallowCopy (base st) ;;
        update_state s (set_copy (Some c)) ;;;
        (* copy the proxies over the base-copy *)
        object_assign c (proxies st) ;;;
        match parent st with
        | Some p => markChanged_fuel n' p
        | None => ret tt
        end
  end.

Definition markChanged (s : sid) : M unit := fun w =>
  markChanged_fuel (S (size (w_states w))) s w.

(** [state.proxies[prop] = draft].  The cache is a record without entries
    when it is made, so the assignment makes an entry, but for [__proto__]:
    there it reaches the setter of [Object.prototype] and the draft becomes
    the prototype of the cache. *)
Definition cache_write (s : sid) (p : prop) (d : value) : M unit :=
  if bool_decide (p = PKey "__proto__")
  then throw (Unmodelled "the prototype of the cache is replaced")
  else update_state s (fun st' => set_proxies (<[p := d]> (proxies st')) st').

(** [get].  A value read from a container is drafted when it is a plain
    container.  Whether a prototype object (read through [__proto__]) is
    one is for [isProxyable] to say, which is not under [src/]; a draft of
    it is not in the model either way. *)
Definition get (s : sid) (p : prop) : M value :=
  if decide (p = PROXY_STATE) then ret (VState s)
  else
    st <- read_state s ;;
    if modified st then
      c <- copy_of s ;;
      v <- read_field c p ;;
      bv <- read_field (base st) p ;;
      pa <- gets (fun w => isProxyable w v) ;;
      match v with
      | VObj l =>
          if strict_eq v bv && pa then
            d <- createProxy (Some s) l ;;
            write_field c p d ;;;
            ret d
          else ret v
      | VBuiltin (BProto _) =>
          if strict_eq v bv then throw (Unmodelled "a prototype object is drafted")
          else ret v
      | _ => ret v              (* only object references are proxyable *)
      end
    else
      if has (proxies st) p then ret (default VUndefined (proxies st !! p))
      else
        v <- read_field (base st) p ;;
        pa <- gets (fun w => isProxyable w v) ;;
        match v with
        | VObj l =>
            if negb (isProxy v) && pa then
              d <- createProxy (Some s) l ;;
              cache_write s p d ;;;
              ret d
            else ret v
        | VBuiltin (BProto _) => throw (Unmodelled "a prototype object is drafted")
        | _ => ret v
        end.

Definition set (s : sid) (p : prop) (v : value) : M bool :=
  let store := (c <- copy_of s ;; write_field c p v ;;; ret true) in
  st <- read_state s ;;
  if modified st then store
  else
    inb <- in_field (base st) p ;;
    bv <- read_field (base st) p ;;
    if (inb && is_ bv v)
       || (has (proxies st) p && strict_eq (default VUndefined (proxies st !! p)) v)
    then ret true
    else markChanged s ;;; store.

Definition deleteProperty (s : sid) (p : prop) : M bool :=
  markChanged s ;;;
  c <- copy_of s ;;
  delete_field c p ;;;
  ret true.

(** The [has] trap of [objectTraps]. *)
Definition has_trap (s : sid) (p : prop) : M bool :=
  src <- source s ;;
  match src with
  | Some l => in_field l p
  | None => throw (TypeError "cannot use in on undefined")
  end.

Definition defineProperty (s : sid) (p : prop) (descriptor : value) : M bool :=
  throw (JsError "Immer does currently not support defining properties on draft objects").

Definition setPrototypeOf (s : sid) (proto : value) : M bool :=
  throw (JsError "Don't even try this...").

(** ** Proxies and producers *)

(** An operation on a proxy runs the trap on its target, unless the proxy
    was revoked. *)
Definition via_proxy {A} (d : sid) (trap : sid -> M A) : M A := fun w =>
  match w_revoked w !! d with
  | Some false => trap d w
  | Some true => (Throw (TypeError "operation on a revoked proxy"), w)
  | None => (Throw (TypeError "not a draft"), w)
  end.

Definition revoke (d : sid) : M unit :=
  modify (fun w => with_revoked (<[d := true]> (w_revoked w)) w).

(** What a producer can do to a draft.  Keys are names: [PROXY_STATE] is
    private to the module. *)
Inductive op :=
| OGet (d : sid) (k : string)
| OSet (d : sid) (k : string) (v : value)
| ODelete (d : sid) (k : string)
| OHas (d : sid) (k : string)
| ODefineProperty (d : sid) (k : string) (descriptor : value)
| OSetPrototypeOf (d : sid) (proto : value).

Definition exec_op (o : op) : M value :=
  match o with
  | OGet d k => via_proxy d (fun s => get s (PKey k))
  | OSet d k v => b <- via_proxy d (fun s => set s (PKey k) v) ;; ret (VBool b)
  | ODelete d k => b <- via_proxy d (fun s => deleteProperty s (PKey k)) ;; ret (VBool b)
  | OHas d k => b <- via_proxy d (fun s => has_trap s (PKey k)) ;; ret (VBool b)
  | ODefineProperty d k descriptor =>
      b <- via_proxy d (fun s => defineProperty s (PKey k) descriptor) ;; ret (VBool b)
  | OSetPrototypeOf d proto =>
      b <- via_proxy d (fun s => setPrototypeOf s proto) ;; ret (VBool b)
  end.

(** A producer, as the tree of its interactions with the drafts: it returns
    a value, throws, or performs an operation and goes on with what the
    operation returned or raised (so a producer may catch an exception of a
    trap).  Whatever else the producer computes is in the continuations.  A
    producer acts on the store through drafts only, and does not call
    [produceProxy] itself.  A run ends where an operation leaves the
    fragment modelled. *)
Inductive prog :=
| PRet (v : value)
| PThrow (v : value)
| PDo (o : op) (k : res value -> prog).

Fixpoint run (p : prog) : M value :=
  match p with
  | PRet v => ret v
  | PThrow v => throw (UserThrow v)
  | PDo o k => fun w =>
      let (r, w') := exec_op o w in
      match r with
      | Throw (Unmodelled what) => (Throw (Unmodelled what), w')
      | _ => run (k r) w'
      end
  end.

(** [try { body } finally { cleanup }] *)
Definition try_finally {A} (body : M A) (cleanup : world -> world) : M A := fun w =>
  let (r, w') := body w in (r, cleanup w').

(** [rootProxy[PROXY_STATE]], read through the proxy. *)
Definition proxy_state (v : value) : M state :=
  match v with
  | VProxy d =>
      x <- via_proxy d (fun s => get s PROXY_STATE) ;;
      match x with
      | VState s => read_state s
      | _ => throw (TypeError "cannot read property modified of undefined")
      end
  | _ => throw (TypeError "cannot read property modified of undefined")
  end.

Section Produce.

(** [finalize] is imported from [./common], which is not under [src/]:
    [produceProxy] takes it as a parameter. *)
Variable finalize : value -> M value.

Definition produceProxy (baseState : loc) (producer : value -> prog) : M value := fun w =>
  let previousProxies := w_proxies w in
  try_finally
    (modify (with_proxies (Some [])) ;;;
     (* create proxy for root *)
     rootProxy <- createProxy None baseState ;;
     (* execute the thunk *)
     returnValue <- run (producer rootProxy) ;;
     result <-
       (if negb (strict_eq returnValue VUndefined) && negb (strict_eq returnValue rootProxy)
        then
          rs <- proxy_state rootProxy ;;
          if modified rs then throw ReturnedAndModified
          else finalize returnValue
        else finalize rootProxy) ;;
     (* revoke all proxies *)
     ps <- gets w_proxies ;;
     match ps with
     | Some l => each l revoke
     | None => throw (TypeError "null is not iterable")
     end ;;;
     ret result)
    (with_proxies previousProxies) w.

End Produce.

(** The entries [l] with [f] run on each value, in order. *)
Fixpoint map_entries (f : value -> M value) (l : list (prop * value))
  : M (list (prop * value)) :=
  match l with
  | [] => ret []
  | kx :: l' =>
      x' <- f (snd kx) ;;
      r <- map_entries f l' ;;
      ret ((fst kx, x') :: r)
  end.

(** Modelled from the spec: [finalize] of [./common], which is not under
    [src/].  A value that is neither a draft nor a plain container is
    returned unchanged; an unmodified draft gives its base; a modified draft
    gives a new container of the kind of its copy, holding for each key of
    the copy the finalized value; a plain container that is not a draft is
    returned as it is, after its entries were walked and the drafts found
    there replaced by their finalized values.  [fuel] is the depth of the
    call stack. *)
Fixpoint finalize (fuel : nat) (v : value) : M value :=
  match fuel with
  | O => throw RangeError
  | S n =>
      match v with
      | VProxy d =>
          st <- read_state d ;;
          if modified st then
            c <- copy_of d ;;
            o <- gets (fun w => obj_at w c) ;;
            fs <- map_entries (finalize n) (map_to_list (fields o)) ;;
            r <- alloc_obj (mk_obj (kind o) (list_to_map fs)) ;;
            ret (VObj r)
          else ret (VObj (base st))
      | VObj l =>
          pa <- gets (fun w => isProxyable w v) ;;
          if pa then
            o <- gets (fun w => obj_at w l) ;;
            each (map_to_list (fields o))
                 (fun kx => x' <- finalize n (snd kx) ;; put_field l (fst kx) x') ;;;
            ret v
          else ret v
      | _ => ret v
      end
  end.

(** ** A worked example: [{a: {b: 1}, c: [1, 2, 3]}] *)

Definition ex_heap : gmap loc obj :=
  <[1%positive := mk_obj ORecord (<[PKey "a" := VObj 2%positive]> (<[PKey "c" := VObj 3%positive]> ∅))]>
  (<[2%positive := mk_obj ORecord (<[PKey "b" := VNum 1]> ∅)]>
  (<[3%positive := mk_obj OArray
       (<[PKey "0" := VNum 1]> (<[PKey "1" := VNum 2]> (<[PKey "2" := VNum 3]>
          (<[PKey "length" := VNum 3]> ∅))))]> ∅)).

Definition ex_world : world := mk_world ex_heap ∅ ∅ None.

(** [draft => { draft.a.b = 2 }] *)
Definition ex_producer (root : value) : prog :=
  match root with
  | VProxy d =>
      PDo (OGet d "a") (fun r =>
        match r with
        | Ok (VProxy a) => PDo (OSet a "b" (VNum 2)) (fun _ => PRet VUndefined)
        | _ => PThrow VUndefined
        end)
  | _ => PThrow VUndefined
  end.


(** ** One escalation, as a store update *)

(** What one call of [markChanged] does to an unmodified state [s] before it
    goes on with the parent: the flag is set, and the copy is a new object
    with the entries of the base overlaid with the cached child drafts. *)
Definition escalate1 (s : sid) (st : state) (w : world) : world :=
  let c := fresh (dom (w_heap w)) in
  let ob := obj_at w (base st) in
  mk_world (<[c := mk_obj (kind ob) (proxies st ∪ fields ob)]> (w_heap w))
           (<[s := mk_state true (finalized st) (parent st) (base st) (Some c) (proxies st)]>
              (w_states w))
           (w_revoked w) (w_proxies w).

(** The stores reached by a chain of escalations. *)
Inductive escalates : world -> world -> Prop :=
| esc_refl w : escalates w w
| esc_step s st w w' :
    w_states w !! s = Some st -> modified st = false ->
    escalates (escalate1 s st w) w' -> escalates w w'.

Lemma alter_lookup_insert {A} (f : A -> A) (m : gmap positive A) i x :
  m !! i = Some x -> alter f i m = <[i := f x]> m.
Proof.
  intros Hi. apply map_eq. intros j.
  destruct (decide (i = j)) as [->|Hne].
  - by rewrite lookup_alter_eq, lookup_insert_eq, Hi.
  - by rewrite lookup_alter_ne, lookup_insert_ne.
Qed.

Lemma fresh_loc_fresh (w : world) : fresh (dom (w_heap w)) ∉ dom (w_heap w).
Proof. apply is_fresh. Qed.

Lemma fresh_sid_fresh (w : world) : w_states w !! fresh (dom (w_states w)) = None.
Proof. apply not_elem_of_dom. apply is_fresh. Qed.

(** The equation of [markChanged_fuel]. *)
Lemma markChanged_fuel_S n s w :
  markChanged_fuel (S n) s w =
  match w_states w !! s with
  | None => (Throw (TypeError "not a state"), w)
  | Some st =>
      if modified st then (Ok tt, w)
      else match parent st with
           | Some p => markChanged_fuel n p (escalate1 s st w)
           | None => (Ok tt, escalate1 s st w)
           end
  end.
Proof.
  simpl. unfold bind at 1. unfold read_state at 1.
  destruct (w_states w !! s) as [st|] eqn:Hs; [|done].
  destruct (modified st) eqn:Hm; [done|].
  unfold bind, update_state, modify, shallowCopy, bind, gets, alloc_obj, object_assign, modify.
  simpl.
  match goal with |- _ ?W = _ => assert (HW : W = escalate1 s st w) end.
  { unfold escalate1, put_obj, with_states, with_heap, obj_at. simpl.
    rewrite lookup_insert_eq. simpl. rewrite insert_insert_eq.
    rewrite (alter_lookup_insert _ _ _ _ Hs).
    rewrite (alter_lookup_insert _ _ s (set_modified true st)) by apply lookup_insert_eq.
    rewrite insert_insert_eq. unfold set_copy, set_modified. simpl. done. }
  rewrite HW. by destruct (parent st).
Qed.

Global Opaque markChanged_fuel.

(** What every chain of escalations leaves as it was. *)
Record evolves (w w' : world) : Prop := {
  ev_heap : forall l, l ∈ dom (w_heap w) -> w_heap w' !! l = w_heap w !! l;
  ev_states : forall s st, w_states w !! s = Some st ->
    exists st', w_states w' !! s = Some st' /\ base st' = base st /\ parent st' = parent st
                /\ proxies st' = proxies st /\ finalized st' = finalized st
                /\ (modified st = true -> st' = st);
  ev_new : forall s, w_states w !! s = None -> w_states w' !! s = None;
  ev_revoked : w_revoked w' = w_revoked w;
  ev_proxies : w_proxies w' = w_proxies w
}.

Lemma evolves_refl w : evolves w w.
Proof. split; try done. intros s st Hs. exists st. by repeat split. Qed.

Lemma evolves_trans w1 w2 w3 : evolves w1 w2 -> evolves w2 w3 -> evolves w1 w3.
Proof.
  intros [h1 s1 n1 r1 p1] [h2 s2 n2 r2 p2]. split.
  - intros l Hl. rewrite <- (h1 l Hl). apply h2.
    apply elem_of_dom. rewrite (h1 l Hl). by apply elem_of_dom.
  - intros s st Hs. destruct (s1 s st Hs) as (st' & Hs' & Hb & Hp & Hx & Hf & Hm).
    destruct (s2 s st' Hs') as (st'' & Hs'' & Hb' & Hp' & Hx' & Hf' & Hm').
    exists st''. repeat split; try congruence.
    intros Ht. rewrite <- (Hm Ht). apply Hm'. by rewrite (Hm Ht).
  - intros s Hs. apply n2, n1, Hs.
  - congruence.
  - congruence.
Qed.

Lemma escalate1_evolves s st w :
  w_states w !! s = Some st -> modified st = false -> evolves w (escalate1 s st w).
Proof.
  intros Hs Hm. split; simpl; try done.
  - intros l Hl. apply lookup_insert_ne. intros <-. by apply (fresh_loc_fresh w).
  - intros s' st' Hs'. destruct (decide (s = s')) as [<-|Hne].
    + rewrite lookup_insert_eq. eexists. split; [done|]. simpl.
      assert (st' = st) as -> by congruence. repeat split. congruence.
    + rewrite lookup_insert_ne by done. exists st'. by repeat split.
  - intros s' Hs'. rewrite lookup_insert_ne; [done|]. congruence.
Qed.

Lemma escalates_evolves w w' : escalates w w' -> evolves w w'.
Proof.
  induction 1 as [w|s st w w' Hs Hm _ IH]; [apply evolves_refl|].
  eapply evolves_trans; [by apply escalate1_evolves|done].
Qed.

Lemma markChanged_fuel_escalates n : forall s w, escalates w (snd (markChanged_fuel n s w)).
Proof.
  induction n as [|n IH]; intros s w; [apply esc_refl|].
  rewrite markChanged_fuel_S.
  destruct (w_states w !! s) as [st|] eqn:Hs; [|apply esc_refl].
  destruct (modified st) eqn:Hm; [apply esc_refl|].
  destruct (parent st) as [p|]; simpl.
  - eapply esc_step; [done..|apply IH].
  - eapply esc_step; [done..|apply esc_refl].
Qed.

Lemma markChanged_escalates s w : escalates w (snd (markChanged s w)).
Proof. apply markChanged_fuel_escalates. Qed.

(** ** Direct properties of the traps *)

Lemma strict_eq_refl v : v ≠ VNaN -> strict_eq v v = true.
Proof. intros Hv. destruct v; try done; unfold strict_eq; by apply bool_decide_eq_true_2. Qed.

Lemma strict_eq_true a b : strict_eq a b = true -> a = b.
Proof.
  unfold strict_eq. intros H.
  destruct a; try done; destruct b; try done; by apply bool_decide_eq_true_1 in H.
Qed.

Lemma strict_eq_false a b : a ≠ VNaN -> strict_eq a b = false -> a ≠ b.
Proof. intros Ha H <-. by rewrite strict_eq_refl in H. Qed.

Lemma has_Some m p x : m !! p = Some x -> has m p = true.
Proof. intros H. unfold has. apply bool_decide_eq_true_2. eauto. Qed.

Lemma has_None m p : m !! p = None -> has m p = false.
Proof. intros H. unfold has. apply bool_decide_eq_false_2. rewrite H. by intros [? ?]. Qed.

(** *** Reading, writing and deleting entries *)

Lemma has_property_own o p x : fields o !! p = Some x -> has_property o p = true.
Proof.
  intros H. unfold has_property. rewrite H.
  by rewrite bool_decide_eq_true_2 by eauto.
Qed.

Lemma get_property_own o p x : fields o !! p = Some x -> get_property o p = x.
Proof. intros H. unfold get_property. by rewrite H. Qed.

(** A key that neither prototype has a member for. *)
Definition not_inherited (p : prop) : Prop := inherited OArray p = None.

Lemma not_inherited_kind kd p : not_inherited p -> inherited kd p = None.
Proof.
  unfold not_inherited, inherited. destruct p as [|k]; [done|].
  destruct (bool_decide (k ∈ array_prototype_names)); simpl; [done|].
  rewrite andb_false_r.
  destruct (bool_decide (k = "__proto__")); [done|].
  by destruct (bool_decide (k ∈ object_prototype_names)).
Qed.

Lemma has_property_not_inherited o p :
  not_inherited p -> has_property o p = bool_decide (is_Some (fields o !! p)).
Proof.
  intros H. unfold has_property. rewrite (not_inherited_kind _ _ H).
  rewrite (bool_decide_eq_false_2 (is_Some None)) by (by intros [? ?]).
  apply orb_false_r.
Qed.

Lemma get_property_not_inherited o p :
  not_inherited p -> get_property o p = default VUndefined (fields o !! p).
Proof.
  intros H. unfold get_property. rewrite (not_inherited_kind _ _ H).
  by destruct (fields o !! p).
Qed.

(** An assignment that succeeds keeps the kind of the object; so does a
    deletion. *)
Lemma assign_kind o p v o' : assign o p v = Ok o' -> kind o' = kind o.
Proof.
  unfold assign, assign_ordinary. intros H.
  repeat (match type of H with
          | context [match ?x with _ => _ end] => destruct x
          end; simpl in H); try done; by simplify_eq.
Qed.

Lemma remove_kind o p o' : remove o p = Ok o' -> kind o' = kind o.
Proof.
  unfold remove. intros H.
  destruct (_ && _); [done|]. by simplify_eq.
Qed.

(** An entry that does not hold a number is not the length of an array. *)
Lemma array_length_entry o n p x :
  array_length o = Some n -> fields o !! p = Some x -> (forall z, x <> VNum z) ->
  p <> PKey "length" /\ below n p = true.
Proof.
  unfold array_length. intros Hn Hp Hx.
  destruct (kind o); try done.
  destruct (fields o !! PKey "length") as [[]|] eqn:Hl; try done.
  destruct (bool_decide (0 <= z < 2 ^ 32)%Z); [|done]. simpl in Hn.
  destruct (bool_decide (map_Forall _ _)) eqn:Hall; [|done].
  apply bool_decide_eq_true_1 in Hall. simplify_eq. split.
  - intros ->. rewrite Hl in Hp. simplify_eq. by eapply Hx.
  - specialize (Hall _ _ Hp). by apply Is_true_true_1.
Qed.

(** Assigning to an entry that holds no number replaces it, on every
    object. *)
Lemma assign_entry o p x v :
  fields o !! p = Some x -> (forall z, x <> VNum z) ->
  assign o p v = Ok (mk_obj (kind o) (<[p := v]> (fields o))).
Proof.
  intros Hp Hx.
  assert (Hord : assign_ordinary o p v = Ok (mk_obj (kind o) (<[p := v]> (fields o)))).
  { unfold assign_ordinary. rewrite Hp.
    rewrite (bool_decide_eq_true_2 (is_Some (Some x))) by eauto.
    by rewrite andb_false_r. }
  unfold assign. destruct (array_length o) as [n|] eqn:Hn; [|done].
  destruct (array_length_entry _ _ _ _ Hn Hp Hx) as [Hne Hb].
  rewrite bool_decide_eq_false_2 by done.
  unfold below in Hb. destruct (array_index p) as [i|]; [|done].
  apply bool_decide_eq_true_1 in Hb.
  by rewrite bool_decide_eq_false_2 by lia.
Qed.

(** What [write_field] and [delete_field] do to the store: nothing, or the
    object at the address is replaced by one of the same kind. *)
Lemma write_field_inv c p v w :
  (exists e, write_field c p v w = (Throw e, w))
  \/ (exists o', write_field c p v w = (Ok tt, put_obj c o' w)
                /\ assign (obj_at w c) p v = Ok o' /\ kind o' = kind (obj_at w c)).
Proof.
  unfold write_field. destruct (assign (obj_at w c) p v) as [o'|e] eqn:Ha.
  - right. exists o'. split; [done|]. split; [done|]. by eapply assign_kind.
  - left. by exists e.
Qed.

Lemma delete_field_inv c p w :
  (exists e, delete_field c p w = (Throw e, w))
  \/ (exists o', delete_field c p w = (Ok tt, put_obj c o' w)
                /\ remove (obj_at w c) p = Ok o' /\ kind o' = kind (obj_at w c)).
Proof.
  unfold delete_field. destruct (remove (obj_at w c) p) as [o'|e] eqn:Ha.
  - right. exists o'. split; [done|]. split; [done|]. by eapply remove_kind.
  - left. by exists e.
Qed.

Lemma write_field_store c p v w :
  snd (write_field c p v w) = w \/ exists o', snd (write_field c p v w) = put_obj c o' w.
Proof.
  destruct (write_field_inv c p v w) as [(e & ->)|(o' & -> & _)]; [by left|right; by exists o'].
Qed.

Lemma delete_field_store c p w :
  snd (delete_field c p w) = w \/ exists o', snd (delete_field c p w) = put_obj c o' w.
Proof.
  destruct (delete_field_inv c p w) as [(e & ->)|(o' & -> & _)]; [by left|right; by exists o'].
Qed.

Lemma write_field_states c p v w : w_states (snd (write_field c p v w)) = w_states w.
Proof. by destruct (write_field_store c p v w) as [->|(o' & ->)]. Qed.

Lemma write_field_revoked c p v w : w_revoked (snd (write_field c p v w)) = w_revoked w.
Proof. by destruct (write_field_store c p v w) as [->|(o' & ->)]. Qed.

Lemma write_field_proxies c p v w : w_proxies (snd (write_field c p v w)) = w_proxies w.
Proof. by destruct (write_field_store c p v w) as [->|(o' & ->)]. Qed.

Lemma write_field_other c p v w l :
  l <> c -> w_heap (snd (write_field c p v w)) !! l = w_heap w !! l.
Proof.
  intros Hne. destruct (write_field_store c p v w) as [->|(o' & ->)]; [done|].
  simpl. by rewrite lookup_insert_ne.
Qed.

Lemma delete_field_states c p w : w_states (snd (delete_field c p w)) = w_states w.
Proof. by destruct (delete_field_store c p w) as [->|(o' & ->)]. Qed.

Lemma delete_field_revoked c p w : w_revoked (snd (delete_field c p w)) = w_revoked w.
Proof. by destruct (delete_field_store c p w) as [->|(o' & ->)]. Qed.

Lemma delete_field_proxies c p w : w_proxies (snd (delete_field c p w)) = w_proxies w.
Proof. by destruct (delete_field_store c p w) as [->|(o' & ->)]. Qed.

Lemma delete_field_other c p w l :
  l <> c -> w_heap (snd (delete_field c p w)) !! l = w_heap w !! l.
Proof.
  intros Hne. destruct (delete_field_store c p w) as [->|(o' & ->)]; [done|].
  simpl. by rewrite lookup_insert_ne.
Qed.

Lemma write_field_entry c p x v w :
  fields (obj_at w c) !! p = Some x -> (forall z, x <> VNum z) ->
  write_field c p v w
  = (Ok tt, put_obj c (mk_obj (kind (obj_at w c)) (<[p := v]> (fields (obj_at w c)))) w).
Proof. intros Hp Hx. unfold write_field. by rewrite (assign_entry _ _ _ _ Hp Hx). Qed.

Lemma write_field_eq c p v w :
  write_field c p v w
  = match assign (obj_at w c) p v with
    | Ok o' => (Ok tt, put_obj c o' w)
    | Throw e => (Throw e, w)
    end.
Proof. done. Qed.

Lemma delete_field_eq c p w :
  delete_field c p w
  = match remove (obj_at w c) p with
    | Ok o' => (Ok tt, put_obj c o' w)
    | Throw e => (Throw e, w)
    end.
Proof. done. Qed.

(** Deleting what is not an entry leaves the object as it is. *)
Lemma remove_absent o p : fields o !! p = None -> remove o p = Ok o.
Proof.
  intros Hp. unfold remove.
  assert (Hlen : bool_decide (p = PKey "length") && bool_decide (is_Some (array_length o))
                 = false).
  { destruct (bool_decide (p = PKey "length")) eqn:E; [|done].
    apply bool_decide_eq_true_1 in E. subst p. simpl.
    apply bool_decide_eq_false_2. intros [n Hn]. unfold array_length in Hn.
    rewrite Hp in Hn. by destruct (kind o). }
  rewrite Hlen. destruct o as [kd fs]. simpl in *. by rewrite delete_id.
Qed.

Global Opaque write_field delete_field.


(** C9. Changing the prototype of a draft and defining a property on a draft
    raise an error at once, for every draft and every argument, at the trap
    and through a live proxy, and the store (the modified flag, base, copy
    and child cache of every state) is left as it was. *)
Theorem C9_unsupported_operations (w : world) (d : sid) (k : prop) (name : string) (v : value) :
  setPrototypeOf d v w = (Throw (JsError "Don't even try this..."), w)
  /\ defineProperty d k v w =
       (Throw (JsError "Immer does currently not support defining properties on draft objects"), w)
  /\ (w_revoked w !! d = Some false ->
      exec_op (OSetPrototypeOf d v) w = (Throw (JsError "Don't even try this..."), w)
      /\ exec_op (ODefineProperty d name v) w =
           (Throw (JsError "Immer does currently not support defining properties on draft objects"), w)).
Proof.
  repeat split; intros; unfold exec_op, bind, via_proxy; by rewrite ?H.
Qed.

Lemma C9_unsupported_operations_witness :
  exec_op (OSetPrototypeOf 1%positive VNull)
          (mk_world ex_heap {[1%positive := createState None 1%positive]}
                    {[1%positive := false]} (Some [1%positive]))
  = (Throw (JsError "Don't even try this..."),
     mk_world ex_heap {[1%positive := createState None 1%positive]}
              {[1%positive := false]} (Some [1%positive])).
Proof.
  apply (C9_unsupported_operations
           (mk_world ex_heap {[1%positive := createState None 1%positive]}
                     {[1%positive := false]} (Some [1%positive]))
           1%positive (PKey "a") "a" VNull).
  reflexivity.
Defined.

(** C3. On a state that is not modified, writing to a key the value the base
    holds there (identity, a NaN-like value being equal to itself), or the
    child draft already cached for the key, succeeds and changes nothing:
    the store is the same, so the state is still unmodified and no copy was
    allocated. *)
Theorem C3_noop_write (w : world) (s : sid) (st : state) (p : prop) (v : value) :
  w_states w !! s = Some st ->
  modified st = false ->
  (exists bv, fields (obj_at w (base st)) !! p = Some bv /\ is_ bv v = true)
  \/ (exists d, proxies st !! p = Some (VProxy d) /\ v = VProxy d) ->
  set s p v w = (Ok true, w).
Proof.
  intros Hs Hm Hcase.
  unfold set, bind at 1, read_state at 1. rewrite Hs, Hm.
  unfold bind, in_field, read_field, gets.
  destruct Hcase as [(bv & Hb & His)|(d & Hd & ->)].
  - by rewrite (has_property_own _ _ _ Hb), (get_property_own _ _ _ Hb), His.
  - rewrite (has_Some _ _ _ Hd), Hd. simpl default.
    rewrite strict_eq_refl by done. simpl. by rewrite orb_true_r.
Qed.

(** The example store while a producer runs: only the root draft exists. *)
Definition ex_root_world : world :=
  mk_world ex_heap {[1%positive := createState None 1%positive]}
           {[1%positive := false]} (Some [1%positive]).

Lemma C3_noop_write_witness :
  set 1%positive (PKey "c") (VObj 3%positive) ex_root_world = (Ok true, ex_root_world).
Proof.
  apply (C3_noop_write ex_root_world 1%positive (createState None 1%positive)).
  - reflexivity.
  - reflexivity.
  - left. exists (VObj 3%positive). split; vm_compute; reflexivity.
Defined.



(** C7. [markChanged] on a state that is already modified changes nothing.
    On a state that is not, the state gets a copy at a new address, of the
    kind of the base; every child draft cached for a key is the entry of the
    copy at that key, and the other entries are those of the base.  This
    holds once [markChanged] is over, whatever it did to the ancestors. *)
Theorem C7_escalation_overlays_children (w : world) (s : sid) (st : state) :
  w_states w !! s = Some st ->
  (modified st = true -> markChanged s w = (Ok tt, w))
  /\ (modified st = false ->
      exists c st',
        w_heap w !! c = None
        /\ w_states (snd (markChanged s w)) !! s = Some st'
        /\ modified st' = true /\ copy st' = Some c
        /\ proxies st' = proxies st /\ base st' = base st
        /\ kind (obj_at (snd (markChanged s w)) c) = kind (obj_at w (base st))
        /\ (forall k d, proxies st !! k = Some d ->
              fields (obj_at (snd (markChanged s w)) c) !! k = Some d)
        /\ (forall k, proxies st !! k = None ->
              fields (obj_at (snd (markChanged s w)) c) !! k
              = fields (obj_at w (base st)) !! k)).
Proof.
  intros Hs. split; intros Hm.
  - unfold markChanged. by rewrite markChanged_fuel_S, Hs, Hm.
  - pose (c := fresh (dom (w_heap w))).
    pose (w1 := escalate1 s st w).
    assert (Hesc : escalates w1 (snd (markChanged s w))).
    { unfold markChanged. rewrite markChanged_fuel_S, Hs, Hm.
      destruct (parent st); [apply markChanged_fuel_escalates|apply esc_refl]. }
    apply escalates_evolves in Hesc. destruct Hesc as [Hheap Hstates _ _ _].
    assert (Hs1 : w_states w1 !! s
                  = Some (mk_state true (finalized st) (parent st) (base st) (Some c) (proxies st)))
      by apply lookup_insert_eq.
    destruct (Hstates _ _ Hs1) as (st' & Hs' & _ & _ & _ & _ & Hsame).
    rewrite (Hsame eq_refl) in Hs'.
    assert (Hc : obj_at (snd (markChanged s w)) c
                 = mk_obj (kind (obj_at w (base st))) (proxies st ∪ fields (obj_at w (base st)))).
    { unfold obj_at at 1. rewrite Hheap.
      - unfold w1, escalate1. simpl. by rewrite lookup_insert_eq.
      - unfold w1, escalate1. simpl. apply elem_of_dom. rewrite lookup_insert_eq. eauto. }
    eexists c, _. split; [|split; [exact Hs'|]].
    { apply not_elem_of_dom, fresh_loc_fresh. }
    rewrite Hc. simpl. repeat split.
    + intros k d Hk. by apply lookup_union_Some_l.
    + intros k Hk. by apply lookup_union_r.
Qed.

(** The example store after the producer read [draft.a]: the child draft is
    cached in the root state. *)
Definition ex_child_world : world :=
  mk_world ex_heap
    (<[1%positive := mk_state false false None 1%positive None {[PKey "a" := VProxy 2%positive]}]>
       {[2%positive := createState (Some 1%positive) 2%positive]})
    (<[1%positive := false]> {[2%positive := false]})
    (Some [1%positive; 2%positive]).

Lemma C7_escalation_overlays_children_witness :
  exists c st',
    w_heap ex_child_world !! c = None
    /\ w_states (snd (markChanged 1%positive ex_child_world)) !! 1%positive = Some st'
    /\ modified st' = true /\ copy st' = Some c
    /\ proxies st' = {[PKey "a" := VProxy 2%positive]} /\ base st' = 1%positive
    /\ kind (obj_at (snd (markChanged 1%positive ex_child_world)) c) = ORecord
    /\ (forall k d, ({[PKey "a" := VProxy 2%positive]} : gmap prop value) !! k = Some d ->
          fields (obj_at (snd (markChanged 1%positive ex_child_world)) c) !! k = Some d)
    /\ (forall k, ({[PKey "a" := VProxy 2%positive]} : gmap prop value) !! k = None ->
          fields (obj_at (snd (markChanged 1%positive ex_child_world)) c) !! k
          = fields (obj_at ex_child_world 1%positive) !! k).
Proof.
  destruct (C7_escalation_overlays_children ex_child_world 1%positive
              (mk_state false false None 1%positive None {[PKey "a" := VProxy 2%positive]}))
    as [_ H]; [reflexivity|].
  apply H. reflexivity.
Defined.

(** ** Upward closure *)

(** The states that are not modified. *)
Definition unmodified (w : world) : gmap sid state :=
  filter (fun kv => modified kv.2 = false) (w_states w).

(** Every parent pointer leads to a state, and the parent of a modified
    state is modified. *)
Definition tree_ok (w : world) : Prop :=
  forall s st p, w_states w !! s = Some st -> parent st = Some p ->
    exists pst, w_states w !! p = Some pst /\ (modified st = true -> modified pst = true).

(** [ancestor w a s]: [a] is reached from [s] by following parent pointers,
    at least one. *)
Inductive ancestor (w : world) : sid -> sid -> Prop :=
| anc_parent s st p :
    w_states w !! s = Some st -> parent st = Some p -> ancestor w p s
| anc_up s st p a :
    w_states w !! s = Some st -> parent st = Some p -> ancestor w a p -> ancestor w a s.

Definition is_modified (w : world) (s : sid) : Prop :=
  exists st, w_states w !! s = Some st /\ modified st = true.

(** The invariant of the specification: modified states have modified
    ancestors, all the way up. *)
Definition upward_closed (w : world) : Prop :=
  forall s a, is_modified w s -> ancestor w a s -> is_modified w a.

Lemma tree_ok_upward_closed w : tree_ok w -> upward_closed w.
Proof.
  intros Hok s a Hmod Hanc. induction Hanc as [s st p Hs Hp|s st p a Hs Hp _ IH].
  - destruct Hmod as (st0 & Hs0 & Hm0). assert (st0 = st) as -> by congruence.
    destruct (Hok _ _ _ Hs Hp) as (pst & Hps & Hpm). exists pst. eauto.
  - apply IH. destruct Hmod as (st0 & Hs0 & Hm0). assert (st0 = st) as -> by congruence.
    destruct (Hok _ _ _ Hs Hp) as (pst & Hps & Hpm). exists pst. eauto.
Qed.

Lemma unmodified_escalate1 s st w :
  w_states w !! s = Some st -> modified st = false ->
  size (unmodified (escalate1 s st w)) < size (unmodified w).
Proof.
  intros Hs Hm. unfold unmodified, escalate1. simpl.
  rewrite map_filter_insert_False by (simpl; congruence).
  rewrite map_filter_delete.
  assert (Hin : filter (fun kv : sid * state => modified kv.2 = false) (w_states w) !! s = Some st)
    by (by apply map_lookup_filter_Some).
  assert (Hsz := map_size_delete_Some s _ (mk_is_Some _ _ Hin)).
  assert (Hnz : size (filter (fun kv : sid * state => modified kv.2 = false) (w_states w)) ≠ 0).
  { apply map_size_non_empty_iff. intros E. rewrite E in Hin. by rewrite lookup_empty in Hin. }
  lia.
Qed.

Lemma unmodified_size w : size (unmodified w) <= size (w_states w).
Proof. apply map_subseteq_size, map_filter_subseteq. Qed.

(** The invariant with one exception: parents equal to [x] need not be
    modified yet. *)
Definition tree_ok_but (w : world) (x : sid) : Prop :=
  forall s st p, w_states w !! s = Some st -> parent st = Some p ->
    exists pst, w_states w !! p = Some pst
                /\ (modified st = true -> modified pst = true \/ p = x).

Lemma tree_ok_but_weaken w x : tree_ok w -> tree_ok_but w x.
Proof.
  intros Hok s st p Hs Hp. destruct (Hok _ _ _ Hs Hp) as (pst & ? & ?).
  exists pst. eauto.
Qed.

Lemma markChanged_fuel_closes n : forall s w,
  size (unmodified w) < n -> tree_ok_but w s -> is_Some (w_states w !! s) ->
  fst (markChanged_fuel n s w) = Ok tt
  /\ tree_ok (snd (markChanged_fuel n s w))
  /\ is_modified (snd (markChanged_fuel n s w)) s.
Proof.
  induction n as [|n IH]; intros s w Hn Hok [st Hs]; [lia|].
  rewrite markChanged_fuel_S, Hs.
  destruct (modified st) eqn:Hm.
  { simpl. repeat split; [|by exists st].
    intros s' st' p Hs' Hp. destruct (Hok _ _ _ Hs' Hp) as (pst & Hps & Himp).
    exists pst. split; [done|]. intros Hm'. destruct (Himp Hm') as [?| ->]; congruence. }
  assert (Hs1 : w_states (escalate1 s st w) !! s
     = Some (mk_state true (finalized st) (parent st) (base st)
               (Some (fresh (dom (w_heap w)))) (proxies st))) by apply lookup_insert_eq.
  assert (Hother : forall q, q ≠ s -> w_states (escalate1 s st w) !! q = w_states w !! q).
  { intros q Hq. simpl. by rewrite lookup_insert_ne. }
  assert (Hex : forall q qst, w_states w !! q = Some qst ->
             exists qst', w_states (escalate1 s st w) !! q = Some qst'
                          /\ (modified qst = true \/ q = s -> modified qst' = true)).
  { intros q qst Hq. destruct (decide (q = s)) as [->|Hne].
    - eexists. split; [exact Hs1|done].
    - exists qst. rewrite Hother by done. split; [done|]. intros [?|?]; done. }
  destruct (parent st) as [p|] eqn:Hp.
  - destruct (Hok _ _ _ Hs Hp) as (pst & Hps & _).
    destruct (Hex _ _ Hps) as (pst' & Hps' & _).
    destruct (IH p (escalate1 s st w)) as (Hr & Htree & Hpm).
    + pose proof (unmodified_escalate1 s st w Hs Hm). lia.
    + intros s' st' q Hs' Hq. destruct (decide (s' = s)) as [->|Hne].
      * rewrite Hs1 in Hs'. injection Hs' as <-. simpl in Hq.
        assert (q = p) as -> by congruence.
        exists pst'. split; [done|]. by right.
      * rewrite Hother in Hs' by done.
        destruct (Hok _ _ _ Hs' Hq) as (qst & Hqs & Himp).
        destruct (Hex _ _ Hqs) as (qst' & Hqs' & Hqm).
        exists qst'. split; [done|]. intros Hm'. left. apply Hqm.
        destruct (Himp Hm'); eauto.
    + eauto.
    + repeat split; [done..|].
      pose proof (escalates_evolves _ _ (markChanged_fuel_escalates n p (escalate1 s st w))) as Hev.
      destruct (ev_states _ _ Hev _ _ Hs1) as (st' & Hs' & _ & _ & _ & _ & Hsame).
      exists st'. split; [done|]. by rewrite (Hsame eq_refl).
  - simpl. repeat split; [|eexists; split; [exact Hs1|done]].
    intros s' st' q Hs' Hq. destruct (decide (s' = s)) as [->|Hne].
    + rewrite Hs1 in Hs'. injection Hs' as <-. simpl in Hq. congruence.
    + rewrite Hother in Hs' by done.
      destruct (Hok _ _ _ Hs' Hq) as (qst & Hqs & Himp).
      destruct (Hex _ _ Hqs) as (qst' & Hqs' & Hqm).
      exists qst'. split; [done|]. intros Hm'. apply Hqm.
      destruct (Himp Hm'); eauto.
Qed.

(** [markChanged] returns, on every store whose parent pointers lead to
    states: the fuel it is given is never used up. *)
Lemma markChanged_closes s w :
  tree_ok w -> is_Some (w_states w !! s) ->
  fst (markChanged s w) = Ok tt
  /\ tree_ok (snd (markChanged s w))
  /\ is_modified (snd (markChanged s w)) s.
Proof.
  intros Hok Hs. apply markChanged_fuel_closes; [|by apply tree_ok_but_weaken|done].
  pose proof (unmodified_size w). lia.
Qed.

(** ** What the traps do to the store, step by step *)

(** The store updates a trap is made of.  [esc] tells whether escalations
    may occur: in the fragment modelled the read traps never escalate. *)
Inductive step (esc : bool) (w : world) : world -> Prop :=
| step_mark s :
    esc = true -> step esc w (snd (markChanged s w))
| step_child s st p l :
    w_states w !! s = Some st ->
    fields (obj_at w (base st)) !! p = Some (VObj l) ->
    step esc w (snd (createProxy (Some s) l w))
| step_cache s p d :
    step esc w
      (snd (update_state s (fun st' => set_proxies (<[p := d]> (proxies st')) st') w))
| step_write s st c p v :
    w_states w !! s = Some st -> copy st = Some c ->
    step esc w (snd (write_field c p v w))
| step_delete s st c p :
    w_states w !! s = Some st -> copy st = Some c ->
    step esc w (snd (delete_field c p w)).

Definition steps (esc : bool) : world -> world -> Prop := rtc (step esc).

Lemma step_mono esc w w' : step false w w' -> step esc w w'.
Proof.
  destruct 1; [done|..].
  - by eapply step_child.
  - apply step_cache.
  - by eapply step_write.
  - by eapply step_delete.
Qed.

Lemma steps_mono esc w w' : steps false w w' -> steps esc w w'.
Proof. induction 1; [apply rtc_refl|]. eapply rtc_l; [by apply step_mono|done]. Qed.

Lemma read_state_inv s w r w' :
  read_state s w = (r, w') ->
  w' = w /\ match r with
            | Ok st => w_states w !! s = Some st
            | Throw _ => w_states w !! s = None
            end.
Proof. unfold read_state. destruct (w_states w !! s); intros H; by simplify_eq. Qed.

Lemma copy_of_inv s w r w' :
  copy_of s w = (r, w') ->
  w' = w /\ match r with
            | Ok c => exists st, w_states w !! s = Some st /\ copy st = Some c
            | Throw _ => True
            end.
Proof.
  unfold copy_of, bind, read_state. destruct (w_states w !! s) as [st|] eqn:Hs.
  - destruct (copy st) eqn:Hc; unfold ret, throw; intros H; simplify_eq; eauto.
  - intros H; by simplify_eq.
Qed.

Lemma createProxy_states ps l w :
  w_states (snd (createProxy ps l w))
  = <[fresh (dom (w_states w)) := createState ps l]> (w_states w).
Proof. unfold createProxy. simpl. by destruct (w_proxies w). Qed.

Lemma createProxy_heap ps l w : w_heap (snd (createProxy ps l w)) = w_heap w.
Proof. unfold createProxy. simpl. by destruct (w_proxies w). Qed.

Lemma createProxy_revoked ps l w :
  w_revoked (snd (createProxy ps l w)) = <[fresh (dom (w_states w)) := false]> (w_revoked w).
Proof. unfold createProxy. simpl. by destruct (w_proxies w). Qed.

Lemma createProxy_proxies ps l w :
  w_proxies (snd (createProxy ps l w))
  = (fun reg => (reg ++ [fresh (dom (w_states w))])%list) <$> w_proxies w.
Proof. unfold createProxy. simpl. destruct (w_proxies w) eqn:H; simpl; by rewrite ?H. Qed.

Lemma createProxy_keeps ps l w s st :
  w_states w !! s = Some st -> w_states (snd (createProxy ps l w)) !! s = Some st.
Proof.
  intros Hs. rewrite createProxy_states, lookup_insert_ne; [done|].
  intros <-. by rewrite fresh_sid_fresh in Hs.
Qed.

(** A reference to an object of the heap is read from an entry: what the
    prototypes give is built in. *)
Lemma get_property_obj o p l : get_property o p = VObj l -> fields o !! p = Some (VObj l).
Proof.
  unfold get_property. destruct (fields o !! p) as [x|]; [congruence|].
  unfold inherited. destruct p as [|k]; [done|].
  repeat (match goal with |- context [if ?b then _ else _] => destruct b end; simpl; try done).
Qed.

Lemma get_steps s p w : steps false w (snd (get s p w)).
Proof.
  unfold get. destruct (decide (p = PROXY_STATE)); [apply rtc_refl|].
  unfold bind at 1. destruct (read_state s w) as [[st|e] w0] eqn:Hr;
    apply read_state_inv in Hr as [-> Hs]; [|apply rtc_refl].
  destruct (modified st) eqn:Hm.
  - unfold bind at 1. destruct (copy_of s w) as [[c|e] w0] eqn:Hc;
      apply copy_of_inv in Hc as [-> Hc]; [|apply rtc_refl].
    destruct Hc as (st0 & Hs0 & Hc). assert (st0 = st) as -> by congruence.
    unfold bind at 1, read_field at 1, gets. unfold bind at 1, read_field at 1, gets.
    unfold bind at 1.
    destruct (get_property (obj_at w c) p) as [| | | | | |l| | |[kd|kd nm]] eqn:Hv;
      try apply rtc_refl; [|destruct (strict_eq _ _); apply rtc_refl].
    destruct (strict_eq (VObj l) (get_property (obj_at w (base st)) p)
              && isProxyable w (VObj l)) eqn:Hcond; [|apply rtc_refl].
    apply andb_prop in Hcond as [Heq _]. apply strict_eq_true in Heq.
    symmetry in Heq. apply get_property_obj in Heq.
    assert (Hchild : step false w (snd (createProxy (Some s) l w)))
      by (by eapply step_child).
    unfold bind at 1. destruct (createProxy (Some s) l w) as [[d|e] w1] eqn:Hcp; simpl in Hchild.
    + eapply rtc_l; [exact Hchild|].
      assert (Hw : step false w1 (snd (write_field c p d w1))).
      { apply (step_write false w1 s st c p d); [|done].
        replace w1 with (snd (createProxy (Some s) l w)) by (by rewrite Hcp).
        by apply createProxy_keeps. }
      unfold bind, ret. destruct (write_field c p d w1) as [[[]|e] w2]; by apply rtc_once.
    + simpl. by apply rtc_once.
  - destruct (has (proxies st) p); [apply rtc_refl|].
    unfold bind at 1, read_field at 1, gets. unfold bind at 1.
    destruct (get_property (obj_at w (base st)) p) as [| | | | | |l| | |[kd|kd nm]] eqn:Hv;
      try apply rtc_refl.
    destruct (negb (isProxy (VObj l)) && isProxyable w (VObj l)); [|apply rtc_refl].
    apply get_property_obj in Hv.
    assert (Hchild : step false w (snd (createProxy (Some s) l w)))
      by (by eapply step_child).
    unfold bind at 1. destruct (createProxy (Some s) l w) as [[d|e] w1] eqn:Hcp; simpl in Hchild.
    + unfold cache_write. destruct (bool_decide (p = PKey "__proto__")).
      * simpl. by apply rtc_once.
      * unfold bind, ret. simpl.
        eapply rtc_l; [exact Hchild|]. apply rtc_once.
        apply (step_cache false w1 s p d).
    + simpl. by apply rtc_once.
Qed.

Lemma store_steps esc s p v w :
  steps esc w (snd ((c <- copy_of s ;; write_field c p v ;;; ret true) w)).
Proof.
  unfold bind at 1. destruct (copy_of s w) as [[c|e] w0] eqn:Hc;
    apply copy_of_inv in Hc as [-> Hc]; [|apply rtc_refl].
  destruct Hc as (st & Hs & Hc).
  assert (Hw : step esc w (snd (write_field c p v w))) by (by eapply step_write).
  unfold bind, ret. destruct (write_field c p v w) as [[[]|e] w2]; by apply rtc_once.
Qed.

Lemma set_steps s p v w : steps true w (snd (set s p v w)).
Proof.
  unfold set. unfold bind at 1.
  destruct (read_state s w) as [[st|e] w0] eqn:Hr;
    apply read_state_inv in Hr as [-> Hs]; [|apply rtc_refl].
  destruct (modified st); [apply store_steps|].
  unfold bind at 1, in_field at 1, gets. unfold bind at 1, read_field at 1, gets.
  match goal with |- context [if ?b then _ else _] => destruct b end; [apply rtc_refl|].
  unfold bind at 1.
  assert (Hmark : step true w (snd (markChanged s w))) by (by apply step_mark).
  destruct (markChanged s w) as [[[]|e] w1]; simpl in Hmark.
  - eapply rtc_l; [exact Hmark|]. apply store_steps.
  - by apply rtc_once.
Qed.

Lemma deleteProperty_steps s p w : steps true w (snd (deleteProperty s p w)).
Proof.
  unfold deleteProperty. unfold bind at 1.
  assert (Hmark : step true w (snd (markChanged s w))) by (by apply step_mark).
  destruct (markChanged s w) as [[[]|e] w1]; simpl in Hmark; [|by apply rtc_once].
  eapply rtc_l; [exact Hmark|].
  unfold bind at 1. destruct (copy_of s w1) as [[c|e] w0] eqn:Hc;
    apply copy_of_inv in Hc as [-> Hc]; [|apply rtc_refl].
  destruct Hc as (st & Hs & Hc).
  assert (Hw : step true w1 (snd (delete_field c p w1))) by (by eapply step_delete).
  unfold bind, ret. destruct (delete_field c p w1) as [[[]|e] w2]; by apply rtc_once.
Qed.

Lemma has_trap_same s p w : snd (has_trap s p w) = w.
Proof.
  unfold has_trap, source, bind, read_state.
  destruct (w_states w !! s) as [st|]; [|done]. simpl.
  by destruct (if modified st then copy st else Some (base st)).
Qed.

(** Operations that only read. *)
Definition is_read (o : op) : bool :=
  match o with
  | OSet _ _ _ | ODelete _ _ => false
  | _ => true
  end.

Lemma via_proxy_steps {A} esc d (trap : sid -> M A) w :
  steps esc w (snd (trap d w)) -> steps esc w (snd (via_proxy d trap w)).
Proof. intros H. unfold via_proxy. destruct (w_revoked w !! d) as [[]|]; [apply rtc_refl|done|apply rtc_refl]. Qed.

Lemma bind_ret_snd {A B} (m : M A) (f : A -> B) w :
  snd ((x <- m ;; ret (f x)) w) = snd (m w).
Proof. unfold bind, ret. by destruct (m w) as [[a|e] w']. Qed.

Lemma exec_op_steps o w : steps true w (snd (exec_op o w)).
Proof.
  destruct o; simpl; rewrite ?bind_ret_snd; apply via_proxy_steps.
  - apply steps_mono, get_steps.
  - apply set_steps.
  - apply deleteProperty_steps.
  - rewrite has_trap_same. apply rtc_refl.
  - apply rtc_refl.
  - apply rtc_refl.
Qed.

Lemma exec_op_read_steps o w : is_read o = true -> steps false w (snd (exec_op o w)).
Proof.
  destruct o; simpl; try done; intros _; rewrite ?bind_ret_snd; apply via_proxy_steps.
  - apply get_steps.
  - rewrite has_trap_same. apply rtc_refl.
  - apply rtc_refl.
  - apply rtc_refl.
Qed.

Lemma run_steps p : forall w, steps true w (snd (run p w)).
Proof.
  induction p as [v|v|o k IH]; intros w; simpl; try apply rtc_refl.
  pose proof (exec_op_steps o w) as Ho.
  destruct (exec_op o w) as [r w1]. simpl in Ho.
  destruct r as [v|[]]; try (etrans; [exact Ho|apply IH]). exact Ho.
Qed.

(** A producer that only reads and returns nothing. *)
Fixpoint read_only (p : prog) : Prop :=
  match p with
  | PRet v => v = VUndefined
  | PThrow _ => False
  | PDo o k => is_read o = true /\ forall r, read_only (k r)
  end.

(** Whether an outcome is one of the fragment modelled. *)
Definition is_modelled {A} (r : res A) : bool :=
  match r with
  | Throw (Unmodelled _) => false
  | _ => true
  end.

Lemma run_read_only p : forall w,
  read_only p ->
  steps false w (snd (run p w))
  /\ (is_modelled (fst (run p w)) = true -> fst (run p w) = Ok VUndefined).
Proof.
  induction p as [v|v|o k IH]; intros w Hp; simpl in *.
  - subst. split; [apply rtc_refl|done].
  - done.
  - destruct Hp as [Ho Hk]. pose proof (exec_op_read_steps o w Ho) as Hs.
    destruct (exec_op o w) as [r w1]. simpl in Hs.
    assert (Hgo : steps false w (snd (run (k r) w1))
                  /\ (is_modelled (fst (run (k r) w1)) = true
                      -> fst (run (k r) w1) = Ok VUndefined)).
    { destruct (IH r w1 (Hk r)) as [Hs' Hr]. split; [|done]. etrans; [exact Hs|exact Hs']. }
    destruct r as [v|[]]; try exact Hgo.
    split; [exact Hs|done].
Qed.

(** *** What no step undoes *)

Record grows (w w' : world) : Prop := {
  gr_states : forall s st, w_states w !! s = Some st ->
    exists st', w_states w' !! s = Some st' /\ base st' = base st /\ parent st' = parent st
                /\ (modified st = true -> modified st' = true);
  gr_revoked : forall s, is_Some (w_states w !! s) -> w_revoked w' !! s = w_revoked w !! s
}.

Lemma grows_refl w : grows w w.
Proof. split; [|done]. intros s st Hs. exists st. by repeat split. Qed.

Lemma grows_same w w' :
  w_states w' = w_states w -> w_revoked w' = w_revoked w -> grows w w'.
Proof.
  intros Hs Hr. split; [|by rewrite Hr]. intros s st Hst. exists st. rewrite Hs. by repeat split.
Qed.

Lemma grows_trans w1 w2 w3 : grows w1 w2 -> grows w2 w3 -> grows w1 w3.
Proof.
  intros [s1 r1] [s2 r2]. split.
  - intros s st Hs. destruct (s1 s st Hs) as (st' & Hs' & Hb & Hp & Hm).
    destruct (s2 s st' Hs') as (st'' & Hs'' & Hb' & Hp' & Hm').
    exists st''. repeat split; try congruence. eauto.
  - intros s [st Hs]. destruct (s1 s st Hs) as (st' & Hs' & _).
    rewrite r2 by eauto. apply r1. eauto.
Qed.

Lemma evolves_grows w w' : evolves w w' -> grows w w'.
Proof.
  intros [_ Hs _ Hr _]. split.
  - intros s st Hst. destruct (Hs s st Hst) as (st' & ? & ? & ? & _ & _ & Hm).
    exists st'. repeat split; try done. intros Ht. by rewrite (Hm Ht).
  - intros s _. by rewrite Hr.
Qed.

Lemma update_proxies_lookup s f w q qst :
  w_states w !! q = Some qst ->
  (forall st, base (f st) = base st /\ parent (f st) = parent st
              /\ modified (f st) = modified st /\ copy (f st) = copy st) ->
  exists qst', w_states (snd (update_state s f w)) !! q = Some qst'
    /\ base qst' = base qst /\ parent qst' = parent qst
    /\ modified qst' = modified qst /\ copy qst' = copy qst.
Proof.
  intros Hq Hf. simpl. destruct (decide (s = q)) as [->|Hne].
  - rewrite lookup_alter_eq, Hq. simpl. exists (f qst). split; [done|]. apply Hf.
  - rewrite lookup_alter_ne by done. exists qst. by repeat split.
Qed.

Lemma cache_fields p d st :
  base (set_proxies (<[p := d]> (proxies st)) st) = base st
  /\ parent (set_proxies (<[p := d]> (proxies st)) st) = parent st
  /\ modified (set_proxies (<[p := d]> (proxies st)) st) = modified st
  /\ copy (set_proxies (<[p := d]> (proxies st)) st) = copy st.
Proof. done. Qed.

Lemma step_grows esc w w' : step esc w w' -> grows w w'.
Proof.
  destruct 1 as [s _|s st p l Hs Hl|s p d|s st c p v Hs Hc|s st c p Hs Hc].
  - apply evolves_grows, escalates_evolves, markChanged_escalates.
  - split.
    + intros q qst Hq. exists qst. split; [by apply createProxy_keeps|done].
    + intros q [qst Hq]. rewrite createProxy_revoked, lookup_insert_ne; [done|].
      intros <-. by rewrite fresh_sid_fresh in Hq.
  - split; [|done]. intros q qst Hq.
    destruct (update_proxies_lookup s _ w q qst Hq (cache_fields p d))
      as (qst' & ? & ? & ? & Hm & _).
    exists qst'. repeat split; try done. congruence.
  - apply grows_same; [apply write_field_states|apply write_field_revoked].
  - apply grows_same; [apply delete_field_states|apply delete_field_revoked].
Qed.

Lemma steps_grows esc w w' : steps esc w w' -> grows w w'.
Proof.
  induction 1 as [|w1 w2 w3 H1 _ IH]; [apply grows_refl|].
  eapply grows_trans; [by eapply step_grows|done].
Qed.

(** Reads leave the modified flag of every state as it is. *)
Lemma step_false_modified w w' s st :
  step false w w' -> w_states w !! s = Some st ->
  exists st', w_states w' !! s = Some st' /\ modified st' = modified st /\ base st' = base st.
Proof.
  intros Hstep Hs.
  destruct Hstep as [s0 Hf|s0 st0 p l Hs0 Hl|s0 p d|s0 st0 c p v Hs0 Hc|s0 st0 c p Hs0 Hc].
  - done.
  - exists st. split; [by apply createProxy_keeps|done].
  - destruct (update_proxies_lookup s0 _ w s st Hs (cache_fields p d))
      as (st' & ? & ? & ? & ? & _). eauto.
  - rewrite write_field_states. eauto.
  - rewrite delete_field_states. eauto.
Qed.

Lemma steps_false_modified w w' : steps false w w' ->
  forall s st, w_states w !! s = Some st ->
  exists st', w_states w' !! s = Some st' /\ modified st' = modified st /\ base st' = base st.
Proof.
  induction 1 as [|w1 w2 w3 H1 _ IH]; intros s st Hs; [eauto|].
  destruct (step_false_modified _ _ _ _ H1 Hs) as (st' & Hs' & Hm & Hb).
  destruct (IH _ _ Hs') as (st'' & ? & ? & ?). exists st''. repeat split; congruence.
Qed.

(** *** Upward closure is kept by every step *)

Lemma markChanged_absent s w : w_states w !! s = None -> snd (markChanged s w) = w.
Proof. intros Hs. unfold markChanged. by rewrite markChanged_fuel_S, Hs. Qed.

Lemma step_tree_ok esc w w' : tree_ok w -> step esc w w' -> tree_ok w'.
Proof.
  intros Hok Hstep.
  destruct Hstep as [s _|s st p l Hs Hl|s p d|s st c p v Hs Hc|s st c p Hs Hc];
    try (unfold tree_ok; by rewrite ?write_field_states, ?delete_field_states).
  - destruct (w_states w !! s) as [st|] eqn:Hs.
    + apply markChanged_closes; eauto.
    + by rewrite markChanged_absent.
  - intros q qst r Hq Hr. rewrite createProxy_states in Hq.
    apply lookup_insert_Some in Hq as [[<- <-]|[Hne Hq]].
    + simpl in Hr. injection Hr as <-. exists st. split; [by apply createProxy_keeps|done].
    + destruct (Hok _ _ _ Hq Hr) as (rst & Hrs & Hm). exists rst.
      split; [by apply createProxy_keeps|done].
  - intros q qst' r Hq Hr. simpl in Hq.
    assert (exists qst, w_states w !! q = Some qst /\ parent qst = parent qst'
                        /\ modified qst = modified qst') as (qst & Hq0 & Hp & Hm).
    { destruct (decide (s = q)) as [->|Hne].
      - rewrite lookup_alter_eq in Hq. destruct (w_states w !! q) as [x|]; [|done].
        injection Hq as <-. by exists x.
      - rewrite lookup_alter_ne in Hq by done. by exists qst'. }
    rewrite <- Hp in Hr. destruct (Hok _ _ _ Hq0 Hr) as (rst & Hrs & Hrm).
    destruct (update_proxies_lookup s _ w r rst Hrs (cache_fields p d))
      as (rst' & ? & _ & _ & Hm' & _).
    exists rst'. split; [done|]. rewrite Hm', <- Hm. done.
Qed.

Lemma steps_tree_ok esc w w' : tree_ok w -> steps esc w w' -> tree_ok w'.
Proof. intros Hok Hs. induction Hs; [done|]. eauto using step_tree_ok. Qed.

(** A sequence of operations on drafts, results dropped.  Like a run, it
    ends where an operation leaves the fragment modelled. *)
Fixpoint run_ops (ops : list op) (w : world) : world :=
  match ops with
  | [] => w
  | o :: ops' =>
      match exec_op o w with
      | (Throw (Unmodelled _), w') => w'
      | (_, w') => run_ops ops' w'
      end
  end.

Lemma run_ops_steps ops : forall w, steps true w (run_ops ops w).
Proof.
  induction ops as [|o ops IH]; intros w; [apply rtc_refl|].
  simpl. pose proof (exec_op_steps o w) as Ho.
  destruct (exec_op o w) as [r w1]. simpl in Ho.
  destruct r as [v|[]]; try (etrans; [exact Ho|apply IH]). exact Ho.
Qed.

(** The root draft of a call made in store [w], and the store in which the
    producer starts: the registry is new and holds the root only. *)
Definition root_of (w : world) : sid := fresh (dom (w_states w)).

Definition entry_world (b : loc) (w : world) : world :=
  snd (createProxy None b (with_proxies (Some []) w)).

Lemma entry_states b w :
  w_states (entry_world b w) = <[root_of w := createState None b]> (w_states w).
Proof. unfold entry_world. by rewrite createProxy_states. Qed.

Lemma entry_tree_ok b w : tree_ok w -> tree_ok (entry_world b w).
Proof.
  intros Hok s st p. rewrite entry_states. intros Hs Hp.
  apply lookup_insert_Some in Hs as [[_ <-]|[_ Hs]]; [done|].
  destruct (Hok _ _ _ Hs Hp) as (pst & Hps & Hm). exists pst. split; [|done].
  rewrite lookup_insert_ne; [done|]. intros Heq. unfold root_of in Heq.
  rewrite <- Heq in Hps. by rewrite fresh_sid_fresh in Hps.
Qed.

(** C4. Upward closure.  From a store in which every modified state has a
    modified parent, any sequence of draft operations (reads, writes,
    deletes and the others) leads to a store in which every modified state
    has all its ancestors modified, up to the root; and a state that was
    modified is still modified.  So it is when a producer, whatever it does,
    has run on the root draft of a call. *)
Theorem C4_upward_closure (w : world) (ops : list op) :
  tree_ok w ->
  upward_closed (run_ops ops w)
  /\ (forall s, is_modified w s -> is_modified (run_ops ops w) s)
  /\ (forall b p, upward_closed (snd (run p (entry_world b w)))).
Proof.
  intros Hok. pose proof (run_ops_steps ops w) as Hsteps. split; [|split].
  - apply tree_ok_upward_closed. by eapply steps_tree_ok.
  - intros s (st & Hs & Hm).
    destruct (gr_states _ _ (steps_grows _ _ _ Hsteps) _ _ Hs) as (st' & Hs' & _ & _ & Hm').
    exists st'. eauto.
  - intros b p. apply tree_ok_upward_closed.
    eapply steps_tree_ok; [by apply entry_tree_ok|apply run_steps].
Qed.

Lemma ex_root_world_tree_ok : tree_ok ex_root_world.
Proof.
  intros s st p Hs Hp. unfold ex_root_world in Hs. simpl in Hs.
  apply lookup_singleton_Some in Hs as [_ <-]. done.
Qed.

(** [draft.a.b = 2] on the example: the child and then the root escalate. *)
Definition ex_ops : list op := [OGet 1%positive "a"; OSet 2%positive "b" (VNum 2)].

Example ex_ops_modified :
  modified <$> (w_states (run_ops ex_ops ex_root_world) !! 1%positive) = Some true
  /\ modified <$> (w_states (run_ops ex_ops ex_root_world) !! 2%positive) = Some true
  /\ w_heap (run_ops ex_ops ex_root_world) !! 2%positive = w_heap ex_root_world !! 2%positive.
Proof. vm_compute. done. Qed.

Lemma C4_upward_closure_witness :
  upward_closed (run_ops ex_ops ex_root_world)
  /\ (forall s, is_modified ex_root_world s -> is_modified (run_ops ex_ops ex_root_world) s)
  /\ (forall b p, upward_closed (snd (run p (entry_world b ex_root_world)))).
Proof. apply (C4_upward_closure ex_root_world ex_ops). exact ex_root_world_tree_ok. Defined.

(** ** The base is never written *)

(** [P] is a set of addresses the drafts leave alone: the objects at these
    addresses are there, they refer only to each other and hold no draft;
    the base of every state is among them and the copy of no state is. *)
Definition protected (P : gset loc) (w : world) : Prop :=
  (forall l, l ∈ P ->
     exists o, w_heap w !! l = Some o
       /\ forall k x, fields o !! k = Some x ->
            match x with VObj l' => l' ∈ P | VProxy _ => False | _ => True end)
  /\ (forall s st, w_states w !! s = Some st ->
        base st ∈ P /\ forall c, copy st = Some c -> c ∉ P).

Definition same_on (P : gset loc) (w w' : world) : Prop :=
  forall l, l ∈ P -> w_heap w' !! l = w_heap w !! l.

(** The base object of every state of [w'] has in [w'] the entries it had
    in [w]. *)
Definition keeps_bases (w w' : world) : Prop :=
  forall s st, w_states w' !! s = Some st -> w_heap w' !! base st = w_heap w !! base st.

Lemma protected_same_on P w w' :
  protected P w -> same_on P w w' ->
  (forall s st, w_states w' !! s = Some st ->
     base st ∈ P /\ forall c, copy st = Some c -> c ∉ P) ->
  protected P w'.
Proof.
  intros [Hobj _] Hsame Hst. split; [|done].
  intros l Hl. rewrite (Hsame l Hl). by apply Hobj.
Qed.

Lemma protected_keeps_bases P w w' :
  protected P w' -> same_on P w w' -> keeps_bases w w'.
Proof. intros [_ Hst] Hsame s st Hs. apply Hsame. by apply (Hst s st). Qed.

Lemma same_on_trans P w1 w2 w3 : same_on P w1 w2 -> same_on P w2 w3 -> same_on P w1 w3.
Proof. intros H1 H2 l Hl. rewrite (H2 l Hl). by apply H1. Qed.

Lemma protected_in_dom P w l : protected P w -> l ∈ P -> l ∈ dom (w_heap w).
Proof. intros [Hobj _] Hl. destruct (Hobj l Hl) as (o & Ho & _). apply elem_of_dom. eauto. Qed.

Lemma escalate1_protected P s st w :
  w_states w !! s = Some st -> modified st = false ->
  protected P w -> protected P (escalate1 s st w) /\ same_on P w (escalate1 s st w).
Proof.
  intros Hs Hm Hprot.
  assert (Hfresh : fresh (dom (w_heap w)) ∉ P).
  { intros Hin. apply (fresh_loc_fresh w). by eapply protected_in_dom. }
  assert (Hsame : same_on P w (escalate1 s st w)).
  { intros l Hl. simpl. apply lookup_insert_ne. by intros <-. }
  split; [|done]. apply (protected_same_on P w); [done..|].
  intros q qst Hq. simpl in Hq. apply lookup_insert_Some in Hq as [[<- <-]|[Hne Hq]].
  - simpl. split; [by apply (proj2 Hprot s st)|]. by intros c [= <-].
  - by apply (proj2 Hprot q qst).
Qed.

Lemma escalates_protected P w w' :
  escalates w w' -> protected P w -> protected P w' /\ same_on P w w'.
Proof.
  induction 1 as [w|s st w w' Hs Hm _ IH]; intros Hprot; [by split|].
  destruct (escalate1_protected P s st w Hs Hm Hprot) as [Hp1 Hs1].
  destruct (IH Hp1) as [Hp2 Hs2]. split; [done|]. by eapply same_on_trans.
Qed.

Lemma put_obj_protected P w c o :
  c ∉ P -> protected P w -> protected P (put_obj c o w) /\ same_on P w (put_obj c o w).
Proof.
  intros Hc Hprot.
  assert (Hsame : same_on P w (put_obj c o w)).
  { intros l Hl. simpl. apply lookup_insert_ne. by intros <-. }
  split; [|done]. apply (protected_same_on P w); [done..|]. apply Hprot.
Qed.

Lemma step_protected esc P w w' :
  protected P w -> step esc w w' -> protected P w' /\ same_on P w w'.
Proof.
  intros Hprot Hstep.
  destruct Hstep as [s _|s st p l Hs Hl|s p d|s st c p v Hs Hc|s st c p Hs Hc].
  - apply escalates_protected; [apply markChanged_escalates|done].
  - assert (Hsame : same_on P w (snd (createProxy (Some s) l w)))
      by (intros x _; by rewrite createProxy_heap).
    split; [|done]. apply (protected_same_on P w); [done..|].
    intros q qst Hq. rewrite createProxy_states in Hq.
    apply lookup_insert_Some in Hq as [[_ <-]|[_ Hq]]; [|by apply (proj2 Hprot q qst)].
    simpl. split; [|done].
    destruct (proj2 Hprot s st Hs) as [Hb _].
    destruct (proj1 Hprot _ Hb) as (o & Ho & Hfields).
    unfold obj_at in Hl. rewrite Ho in Hl. simpl in Hl.
    apply (Hfields p (VObj l) Hl).
  - assert (Hsame : same_on P w
       (snd (update_state s (fun st' => set_proxies (<[p := d]> (proxies st')) st') w)))
      by (intros x _; done).
    split; [|done]. apply (protected_same_on P w); [done..|].
    intros q qst' Hq. simpl in Hq.
    destruct (decide (s = q)) as [->|Hne].
    + rewrite lookup_alter_eq in Hq. destruct (w_states w !! q) as [x|] eqn:Hx; [|done].
      injection Hq as <-. simpl. by apply (proj2 Hprot q x).
    + rewrite lookup_alter_ne in Hq by done. by apply (proj2 Hprot q qst').
  - destruct (write_field_store c p v w) as [->|(o' & ->)]; [by split|].
    apply put_obj_protected; [|done]. by apply (proj2 Hprot s st).
  - destruct (delete_field_store c p w) as [->|(o' & ->)]; [by split|].
    apply put_obj_protected; [|done]. by apply (proj2 Hprot s st).
Qed.

Lemma steps_protected esc P w w' :
  protected P w -> steps esc w w' -> protected P w' /\ same_on P w w'.
Proof.
  intros Hprot Hsteps. induction Hsteps as [|w1 w2 w3 H1 _ IH]; [by split|].
  destruct (step_protected _ _ _ _ Hprot H1) as [Hp Hs].
  destruct (IH Hp) as [Hp' Hs']. split; [done|]. by eapply same_on_trans.
Qed.

(** ** [produceProxy], unfolded *)

(** What [each(proxies, (_, p) => p.revoke())] leaves. *)
Definition revoke_all (l : list sid) (w : world) : world :=
  fold_left (fun w' d => with_revoked (<[d := true]> (w_revoked w')) w') l w.

Lemma each_revoke l : forall w, each l revoke w = (Ok tt, revoke_all l w).
Proof. induction l as [|d l IH]; intros w; [done|]. simpl. unfold bind. simpl. apply IH. Qed.

(** The part of [produceProxy] that follows the producer. *)
Definition settle (fin : value -> M value) (root v : value) : M value :=
  if negb (strict_eq v VUndefined) && negb (strict_eq v root)
  then rs <- proxy_state root ;;
       if modified rs then throw ReturnedAndModified else fin v
  else fin root.

Lemma produceProxy_eq fin b producer w :
  produceProxy fin b producer w =
  match run (producer (VProxy (root_of w))) (entry_world b w) with
  | (Throw e, w2) => (Throw e, with_proxies (w_proxies w) w2)
  | (Ok v, w2) =>
      match settle fin (VProxy (root_of w)) v w2 with
      | (Throw e, w3) => (Throw e, with_proxies (w_proxies w) w3)
      | (Ok r, w3) =>
          match w_proxies w3 with
          | Some l => (Ok r, with_proxies (w_proxies w) (revoke_all l w3))
          | None => (Throw (TypeError "null is not iterable"), with_proxies (w_proxies w) w3)
          end
      end
  end.
Proof.
  unfold produceProxy, try_finally, entry_world, root_of.
  unfold bind at 1. unfold modify at 1.
  unfold bind at 1. unfold createProxy at 1. simpl w_proxies. cbv iota.
  unfold createProxy at 1. simpl w_proxies. cbv iota. simpl snd. simpl w_states.
  unfold bind at 1.
  destruct (run _ _) as [[v|e] w2]; [|done].
  fold (settle fin (VProxy (fresh (dom (w_states w)))) v).
  unfold bind at 1.
  destruct (settle fin (VProxy (fresh (dom (w_states w)))) v w2) as [[r|e] w3]; [|done].
  unfold bind at 1, gets at 1. unfold bind at 1.
  destruct (w_proxies w3) as [l|]; [|done].
  by rewrite each_revoke.
Qed.

Lemma entry_heap b w : w_heap (entry_world b w) = w_heap w.
Proof. unfold entry_world. by rewrite createProxy_heap. Qed.

Lemma entry_revoked b w :
  w_revoked (entry_world b w) = <[root_of w := false]> (w_revoked w).
Proof. unfold entry_world. by rewrite createProxy_revoked. Qed.

Lemma entry_proxies b w : w_proxies (entry_world b w) = Some [root_of w].
Proof. unfold entry_world. by rewrite createProxy_proxies. Qed.

(** The root draft stays live, and its state stays in place, while the
    producer runs. *)
Lemma root_live b w w2 :
  grows (entry_world b w) w2 ->
  exists st2, w_states w2 !! root_of w = Some st2
    /\ base st2 = b /\ parent st2 = None
    /\ proxy_state (VProxy (root_of w)) w2 = (Ok st2, w2).
Proof.
  intros [Hst Hrev].
  assert (Hroot : w_states (entry_world b w) !! root_of w = Some (createState None b))
    by (rewrite entry_states; apply lookup_insert_eq).
  destruct (Hst _ _ Hroot) as (st2 & Hs2 & Hb & Hp & _).
  exists st2. repeat split; try done.
  unfold proxy_state, bind, via_proxy.
  rewrite Hrev by eauto. rewrite entry_revoked, lookup_insert_eq.
  unfold get. simpl. unfold ret, read_state. by rewrite Hs2.
Qed.

(** *** The registry holds the drafts made during the call *)

Definition tracked (D0 : gset sid) (w : world) : Prop :=
  exists reg, w_proxies w = Some reg /\ dom (w_states w) = D0 ∪ list_to_set reg.

Lemma evolves_dom w w' : evolves w w' -> dom (w_states w') = dom (w_states w).
Proof.
  intros Hev. apply set_eq. intros s. rewrite !elem_of_dom. split.
  - intros [st' Hs']. destruct (w_states w !! s) as [st|] eqn:Hs; [eauto|].
    rewrite (ev_new _ _ Hev s Hs) in Hs'. done.
  - intros [st Hs]. destruct (ev_states _ _ Hev s st Hs) as (st' & ? & _). eauto.
Qed.

Lemma step_tracked esc D0 w w' : tracked D0 w -> step esc w w' -> tracked D0 w'.
Proof.
  intros (reg & Hreg & Hdom) Hstep.
  destruct Hstep as [s _|s st p l Hs Hl|s p d|s st c p v Hs Hc|s st c p Hs Hc].
  - pose proof (escalates_evolves _ _ (markChanged_escalates s w)) as Hev.
    exists reg. split; [by rewrite (ev_proxies _ _ Hev)|by rewrite (evolves_dom _ _ Hev)].
  - exists (reg ++ [fresh (dom (w_states w))])%list. split.
    + by rewrite createProxy_proxies, Hreg.
    + rewrite createProxy_states, dom_insert_L, Hdom, list_to_set_app_L. simpl.
      set_solver.
  - exists reg. split; [done|]. simpl. by rewrite dom_alter_L.
  - exists reg. by rewrite write_field_proxies, write_field_states.
  - exists reg. by rewrite delete_field_proxies, delete_field_states.
Qed.

Lemma steps_tracked esc D0 w w' : tracked D0 w -> steps esc w w' -> tracked D0 w'.
Proof. intros Ht Hs. induction Hs; [done|]. eauto using step_tracked. Qed.

Lemma entry_tracked b w : tracked (dom (w_states w)) (entry_world b w).
Proof.
  exists [root_of w]. split; [apply entry_proxies|].
  rewrite entry_states, dom_insert_L. simpl. set_solver.
Qed.

Lemma revoke_all_states l : forall w, w_states (revoke_all l w) = w_states w.
Proof. induction l as [|d l IH]; intros w; [done|]. simpl. by rewrite IH. Qed.

Lemma revoke_all_heap l : forall w, w_heap (revoke_all l w) = w_heap w.
Proof. induction l as [|d l IH]; intros w; [done|]. simpl. by rewrite IH. Qed.

Lemma revoke_all_keeps l : forall w d,
  w_revoked w !! d = Some true -> w_revoked (revoke_all l w) !! d = Some true.
Proof.
  induction l as [|x l IH]; intros w d Hd; [done|]. simpl. apply IH. simpl.
  destruct (decide (x = d)) as [->|Hne]; [apply lookup_insert_eq|by rewrite lookup_insert_ne].
Qed.

Lemma revoke_all_revoked l : forall w d,
  d ∈ l -> w_revoked (revoke_all l w) !! d = Some true.
Proof.
  induction l as [|x l IH]; intros w d Hd; [by apply elem_of_nil in Hd|].
  simpl. apply elem_of_cons in Hd as [->|Hd]; [|by apply IH].
  apply revoke_all_keeps. simpl. apply lookup_insert_eq.
Qed.

(** The draft an operation goes through. *)
Definition target (o : op) : sid :=
  match o with
  | OGet d _ | OSet d _ _ | ODelete d _ | OHas d _
  | ODefineProperty d _ _ | OSetPrototypeOf d _ => d
  end.

Lemma exec_op_revoked o w :
  w_revoked w !! target o = Some true ->
  exec_op o w = (Throw (TypeError "operation on a revoked proxy"), w).
Proof. intros H. destruct o; simpl in *; unfold bind, via_proxy; by rewrite H. Qed.

(** What the theorems on [produceProxy] ask of the [finalize] they are given:
    it leaves the registry and the set of states as they are. *)
Definition keeps_drafts (fin : value -> M value) : Prop :=
  forall v w, w_proxies (snd (fin v w)) = w_proxies w
              /\ dom (w_states (snd (fin v w))) = dom (w_states w).

Lemma proxy_state_same root w : snd (proxy_state root w) = w.
Proof.
  unfold proxy_state. destruct root; try done.
  unfold bind, via_proxy. destruct (w_revoked w !! d) as [[]|]; try done.
  unfold get. simpl. unfold ret, read_state. by destruct (w_states w !! d).
Qed.

Lemma settle_keeps_drafts fin root v w :
  keeps_drafts fin ->
  w_proxies (snd (settle fin root v w)) = w_proxies w
  /\ dom (w_states (snd (settle fin root v w))) = dom (w_states w).
Proof.
  intros Hfin. unfold settle.
  destruct (negb (strict_eq v VUndefined) && negb (strict_eq v root)); [|apply Hfin].
  unfold bind. pose proof (proxy_state_same root w) as Hps.
  destruct (proxy_state root w) as [[rs|e] w']; simpl in Hps; subst w'; [|done].
  destruct (modified rs); [done|apply Hfin].
Qed.

Lemma run_throws_user p : forall w e,
  fst (run p w) = Throw e -> (exists v, e = UserThrow v) \/ (exists what, e = Unmodelled what).
Proof.
  induction p as [v|v|o k IH]; intros w e; simpl.
  - done.
  - intros [= <-]. eauto.
  - destruct (exec_op o w) as [r w1]. destruct r as [v|[]]; try apply IH.
    simpl. intros [= <-]. eauto.
Qed.

Lemma returned_other v d :
  negb (strict_eq v VUndefined) && negb (strict_eq v (VProxy d)) = true
  <-> v ≠ VUndefined /\ v ≠ VProxy d.
Proof.
  destruct (decide (v = VNaN)) as [->|Hnan]; [done|].
  split.
  - intros H. apply andb_prop in H as [H1 H2].
    apply negb_true_iff in H1, H2. split; by apply strict_eq_false.
  - intros [H1 H2]. apply andb_true_intro. split; apply negb_true_iff.
    + destruct (strict_eq v VUndefined) eqn:E; [by apply strict_eq_true in E|done].
    + destruct (strict_eq v (VProxy d)) eqn:E; [by apply strict_eq_true in E|done].
Qed.

(** C1, as the code has it.  [produceProxy] restores the registry on every
    exit.  When it returns a result, every draft made during the call is
    revoked, and every later operation through such a draft raises a
    TypeError.  (The revocation is the last statement of the [try] block,
    not a part of [finally].) *)
Theorem C1_revoked_on_return (fin : value -> M value) (b : loc) (producer : value -> prog)
    (w : world) :
  keeps_drafts fin ->
  w_proxies (snd (produceProxy fin b producer w)) = w_proxies w
  /\ (forall r, fst (produceProxy fin b producer w) = Ok r ->
      forall d, d ∈ dom (w_states (snd (produceProxy fin b producer w))) ->
                d ∉ dom (w_states w) ->
        w_revoked (snd (produceProxy fin b producer w)) !! d = Some true
        /\ forall o, target o = d ->
             exec_op o (snd (produceProxy fin b producer w))
             = (Throw (TypeError "operation on a revoked proxy"),
                snd (produceProxy fin b producer w))).
Proof.
  intros Hfin. rewrite produceProxy_eq.
  pose proof (run_steps (producer (VProxy (root_of w))) (entry_world b w)) as Hsteps.
  destruct (run _ _) as [[v|e] w2]; simpl in Hsteps; [|by split].
  pose proof (steps_tracked _ _ _ _ (entry_tracked b w) Hsteps) as (reg & Hreg & Hdom).
  destruct (settle_keeps_drafts fin (VProxy (root_of w)) v w2 Hfin) as [Hp3 Hd3].
  destruct (settle fin (VProxy (root_of w)) v w2) as [[r|e] w3]; simpl in Hp3, Hd3; [|by split].
  rewrite Hp3, Hreg. simpl. split; [done|].
  intros _ _ d Hd Hnew. rewrite revoke_all_states, Hd3, Hdom in Hd.
  apply elem_of_union in Hd as [Hd|Hd]; [done|]. apply elem_of_list_to_set in Hd.
  assert (Hrev : w_revoked (revoke_all reg w3) !! d = Some true) by (by apply revoke_all_revoked).
  split; [done|]. intros o <-. by apply exec_op_revoked.
Qed.

(** C2.  [produceProxy] raises ReturnedAndModified exactly when the producer
    returned a value that is neither undefined nor the root draft and the
    state of the root is modified: then no result is returned.  When such a
    value is returned and the root is not modified, the outcome is that of
    finalizing the returned value; when undefined or the root is returned,
    it is that of finalizing the root.  ([fin] is the finalizer: it keeps the
    registry and does not raise that error itself.) *)
Theorem C2_returned_and_modified (fin : value -> M value) (b : loc) (producer : value -> prog)
    (w : world) :
  keeps_drafts fin ->
  (forall v w0, fst (fin v w0) ≠ Throw ReturnedAndModified) ->
  let root := VProxy (root_of w) in
  let rv := fst (run (producer root) (entry_world b w)) in
  let w2 := snd (run (producer root) (entry_world b w)) in
  (fst (produceProxy fin b producer w) = Throw ReturnedAndModified
   <-> exists v, rv = Ok v /\ v ≠ VUndefined /\ v ≠ root /\ is_modified w2 (root_of w))
  /\ (forall v, rv = Ok v -> v ≠ VUndefined -> v ≠ root -> ~ is_modified w2 (root_of w) ->
      fst (produceProxy fin b producer w) = fst (fin v w2))
  /\ (forall v, rv = Ok v -> v = VUndefined \/ v = root ->
      fst (produceProxy fin b producer w) = fst (fin root w2)).
Proof.
  intros Hfin Hram root rv w2. subst root rv w2. rewrite produceProxy_eq.
  pose proof (run_steps (producer (VProxy (root_of w))) (entry_world b w)) as Hsteps.
  pose proof (run_throws_user (producer (VProxy (root_of w))) (entry_world b w)) as Huser.
  destruct (run _ _) as [[v|e] w2]; simpl in *.
  2:{ repeat split; try done.
      - intros [= ->]. by destruct (Huser _ eq_refl) as [[? ?]|[? ?]].
      - by intros (v & ? & _). }
  clear Huser.
  pose proof (steps_tracked _ _ _ _ (entry_tracked b w) Hsteps) as (reg & Hreg & _).
  destruct (root_live b w w2 (steps_grows _ _ _ Hsteps)) as (st2 & Hs2 & _ & _ & Hps).
  assert (Hout : forall x, fst (match fin x w2 with
            | (Ok r, w3) => match w_proxies w3 with
                            | Some l => (Ok r, with_proxies (w_proxies w) (revoke_all l w3))
                            | None => (Throw (TypeError "null is not iterable"),
                                       with_proxies (w_proxies w) w3)
                            end
            | (Throw e, w3) => (Throw e, with_proxies (w_proxies w) w3)
            end) = fst (fin x w2)).
  { intros x. destruct (Hfin x w2) as [Hp _]. destruct (fin x w2) as [[r|e] w3]; [|done].
    simpl in Hp. by rewrite Hp, Hreg. }
  unfold settle.
  destruct (negb (strict_eq v VUndefined) && negb (strict_eq v (VProxy (root_of w)))) eqn:Hc.
  - apply returned_other in Hc as [Hu Hr].
    unfold bind. rewrite Hps.
    destruct (modified st2) eqn:Hm.
    + simpl. repeat split.
      * intros _. exists v. repeat split; try done. by exists st2.
      * intros v' [= <-] _ _ Hnot. destruct Hnot. by exists st2.
      * intros v' [= <-] [?|?]; done.
    + rewrite Hout. repeat split.
      * intros H. by apply Hram in H.
      * intros (v' & _ & _ & _ & (st' & Hs' & Hm')). congruence.
      * by intros v' [= <-] _ _ _.
      * intros v' [= <-] [?|?]; done.
  - assert (Hor : v = VUndefined \/ v = VProxy (root_of w)).
    { destruct (decide (v = VUndefined)) as [|Hu]; [by left|].
      destruct (decide (v = VProxy (root_of w))) as [|Hr]; [by right|].
      assert (negb (strict_eq v VUndefined) && negb (strict_eq v (VProxy (root_of w))) = true)
        by (by apply returned_other). congruence. }
    rewrite Hout. split; [split|split].
    + intros H. by apply Hram in H.
    + intros (v' & [= <-] & Hu & Hr & _). by destruct Hor.
    + intros v' [= <-] Hu Hr _. by destruct Hor.
    + by intros v' [= <-] _.
Qed.

(** ** The finalizer of the specification *)

Lemma each_inv {A} (I : world -> Prop) (l : list A) (f : A -> M unit) :
  (forall x w, x ∈ l -> I w -> I (snd (f x w))) ->
  forall w, I w -> I (snd (each l f w)).
Proof.
  induction l as [|x l IH]; intros Hf w Hw; [done|].
  simpl. unfold bind.
  assert (Hx : I (snd (f x w))) by (apply Hf; [apply list_elem_of_here|done]).
  destruct (f x w) as [[[]|e] w1]; [|done].
  apply IH; [|done]. intros y w' Hy. apply Hf. by apply list_elem_of_further.
Qed.

Lemma map_entries_inv (I : world -> Prop) (f : value -> M value) (l : list (prop * value)) :
  (forall x w, I w -> I (snd (f x w))) ->
  forall w, I w -> I (snd (map_entries f l w)).
Proof.
  intros Hf. induction l as [|kx l IH]; intros w Hw; [done|].
  simpl. unfold bind at 1. pose proof (Hf (snd kx) w Hw) as Hx.
  destruct (f kx.2 w) as [[x'|e] w1]; [|done].
  unfold bind, ret. pose proof (IH w1 Hx) as Hl.
  by destruct (map_entries f l w1) as [[r|e] w2].
Qed.

Lemma each_err {A} (E : exn -> Prop) (l : list A) (f : A -> M unit) :
  (forall x w e, fst (f x w) = Throw e -> E e) ->
  forall w e, fst (each l f w) = Throw e -> E e.
Proof.
  intros Hf. induction l as [|x l IH]; intros w e; [done|].
  simpl. unfold bind. pose proof (Hf x w) as Hx.
  destruct (f x w) as [[[]|e'] w1]; [apply IH|]. simpl. intros [= <-]. by apply Hx.
Qed.

Lemma map_entries_err (E : exn -> Prop) (f : value -> M value) (l : list (prop * value)) :
  (forall x w e, fst (f x w) = Throw e -> E e) ->
  forall w e, fst (map_entries f l w) = Throw e -> E e.
Proof.
  intros Hf. induction l as [|kx l IH]; intros w e; [done|].
  simpl. unfold bind at 1. pose proof (Hf (snd kx) w) as Hx.
  destruct (f kx.2 w) as [[x'|e'] w1]; [|simpl; intros [= <-]; by apply Hx].
  unfold bind, ret. pose proof (IH w1) as Hl.
  destruct (map_entries f l w1) as [[r|e'] w2]; [done|]. simpl. intros [= <-]. by apply Hl.
Qed.

(** The equations of [finalize]. *)
Definition walk (n : nat) (l : loc) (kx : prop * value) : M unit :=
  x' <- finalize n (snd kx) ;; put_field l (fst kx) x'.

Lemma finalize_obj n l w :
  finalize (S n) (VObj l) w =
  if isProxyable w (VObj l) then
    match each (map_to_list (fields (obj_at w l))) (walk n l) w with
    | (Ok _, w1) => (Ok (VObj l), w1)
    | (Throw e, w1) => (Throw e, w1)
    end
  else (Ok (VObj l), w).
Proof.
  change (finalize (S n) (VObj l) w) with
    ((pa <- gets (fun w => isProxyable w (VObj l)) ;;
      if pa then
        o <- gets (fun w => obj_at w l) ;;
        each (map_to_list (fields o)) (walk n l) ;;;
        ret (VObj l)
      else ret (VObj l)) w).
  unfold bind at 1, gets at 1.
  destruct (isProxyable w (VObj l)); [|done].
  unfold bind at 1, gets at 1. unfold bind, ret.
  by destruct (each _ _ w) as [[[]|e] w1].
Qed.

Lemma finalize_proxy n d w :
  finalize (S n) (VProxy d) w =
  match w_states w !! d with
  | None => (Throw (TypeError "not a state"), w)
  | Some st =>
      if modified st then
        match copy st with
        | None => (Throw (TypeError "cannot access a property of undefined"), w)
        | Some c =>
            match map_entries (finalize n) (map_to_list (fields (obj_at w c))) w with
            | (Ok fs, w1) =>
                (Ok (VObj (fresh (dom (w_heap w1)))),
                 put_obj (fresh (dom (w_heap w1)))
                         (mk_obj (kind (obj_at w c)) (list_to_map fs)) w1)
            | (Throw e, w1) => (Throw e, w1)
            end
        end
      else (Ok (VObj (base st)), w)
  end.
Proof.
  change (finalize (S n) (VProxy d) w) with
    ((st <- read_state d ;;
      if modified st then
        c <- copy_of d ;;
        o <- gets (fun w => obj_at w c) ;;
        fs <- map_entries (finalize n) (map_to_list (fields o)) ;;
        r <- alloc_obj (mk_obj (kind o) (list_to_map fs)) ;;
        ret (VObj r)
      else ret (VObj (base st))) w).
  unfold bind at 1, read_state at 1.
  destruct (w_states w !! d) as [st|] eqn:Hs; [|done].
  destruct (modified st); [|done].
  unfold bind at 1, copy_of at 1, bind at 1, read_state at 1. rewrite Hs.
  destruct (copy st) as [c|]; [|done].
  unfold ret at 1. unfold bind at 1, gets at 1. unfold bind at 1.
  destruct (map_entries _ _ w) as [[fs|e] w1]; [|done].
  done.
Qed.

Lemma finalize_other n v w :
  match v with VObj _ | VProxy _ => False | _ => True end ->
  finalize (S n) v w = (Ok v, w).
Proof. by destruct v. Qed.

Lemma finalize_O v w : finalize 0 v w = (Throw RangeError, w).
Proof. done. Qed.

Global Opaque finalize.

(** [finalize] touches the heap only. *)
Definition same_drafts (w w' : world) : Prop :=
  w_states w' = w_states w /\ w_revoked w' = w_revoked w /\ w_proxies w' = w_proxies w.

Lemma walk_inv (I : world -> Prop) n l :
  (forall v w, I w -> I (snd (finalize n v w))) ->
  (forall k x w, I w -> I (snd (put_field l k x w))) ->
  forall kx w, I w -> I (snd (walk n l kx w)).
Proof.
  intros Hfin Hwr kx w Hw. unfold walk, bind. pose proof (Hfin (snd kx) w Hw) as Hx.
  destruct (finalize n kx.2 w) as [[x'|e] w1]; [|done]. by apply Hwr.
Qed.

Lemma finalize_same_drafts n : forall w0 v w,
  same_drafts w0 w -> same_drafts w0 (snd (finalize n v w)).
Proof.
  induction n as [|n IH]; intros w0 v w Hw; [done|].
  destruct v; try (by rewrite finalize_other).
  - rewrite finalize_obj. destruct (isProxyable w (VObj l)); [|done].
    assert (Hl : same_drafts w0 (snd (each (map_to_list (fields (obj_at w l))) (walk n l) w))).
    { apply each_inv; [|done]. intros kx w' _. apply walk_inv; [apply IH|done]. }
    by destruct (each _ _ w) as [[[]|e] w1].
  - rewrite finalize_proxy. destruct (w_states w !! d) as [st|]; [|done].
    destruct (modified st); [|done]. destruct (copy st) as [c|]; [|done].
    pose proof (map_entries_inv (same_drafts w0) (finalize n)
                  (map_to_list (fields (obj_at w c))) (fun x w' => IH w0 x w') w Hw) as Hm.
    by destruct (map_entries _ _ w) as [[fs|e] w1].
Qed.

Lemma finalize_keeps_drafts n : keeps_drafts (finalize n).
Proof.
  intros v w. destruct (finalize_same_drafts n w v w) as (Hs & _ & Hp); [done|].
  split; [done|]. by rewrite Hs.
Qed.

(** The errors [finalize] can raise. *)
Definition runtime_error (e : exn) : Prop :=
  match e with TypeError _ | RangeError => True | _ => False end.

Lemma finalize_errors n : forall v w e, fst (finalize n v w) = Throw e -> runtime_error e.
Proof.
  induction n as [|n IH]; intros v w e; [rewrite finalize_O; by intros [= <-]|].
  destruct v; try (by rewrite finalize_other).
  - rewrite finalize_obj. destruct (isProxyable w (VObj l)); [|done].
    assert (Hwalk : forall kx w' e', fst (walk n l kx w') = Throw e' -> runtime_error e').
    { intros kx w' e'. unfold walk, bind. pose proof (IH (snd kx) w' e') as Hx.
      destruct (finalize n kx.2 w') as [[x'|e''] w1]; [done|].
      simpl in *. intros [= <-]. by apply Hx. }
    pose proof (each_err runtime_error (map_to_list (fields (obj_at w l))) (walk n l) Hwalk w)
      as Hl.
    destruct (each _ _ w) as [[[]|e'] w1]; [done|]. simpl. intros [= <-]. by apply Hl.
  - rewrite finalize_proxy. destruct (w_states w !! d) as [st|]; [|by intros [= <-]].
    destruct (modified st); [|done]. destruct (copy st) as [c|]; [|by intros [= <-]].
    pose proof (map_entries_err runtime_error (finalize n)
                  (map_to_list (fields (obj_at w c))) IH w) as Hm.
    destruct (map_entries _ _ w) as [[fs|e'] w3]; [done|]. simpl. intros [= <-]. by apply Hm.
Qed.

Lemma finalize_no_ram n v w : fst (finalize n v w) ≠ Throw ReturnedAndModified.
Proof. intros H. by apply finalize_errors in H. Qed.

(** What is not a draft is returned as it is. *)
Lemma finalize_value n v w r :
  fst (finalize n v w) = Ok r -> isProxy v = false -> r = v.
Proof.
  destruct n as [|n]; [by rewrite finalize_O|].
  destruct v; try (rewrite finalize_other by done; by intros [= <-]); [|done].
  rewrite finalize_obj. destruct (isProxyable w (VObj l)); [|by intros [= <-]].
  destruct (each _ _ w) as [[[]|e] w1]; [by intros [= <-]|done].
Qed.

(** [finalize] leaves the protected objects alone. *)
Definition framed (P : gset loc) (w0 w : world) : Prop :=
  protected P w /\ same_on P w0 w.

Lemma framed_alloc P w0 w o :
  framed P w0 w -> framed P w0 (put_obj (fresh (dom (w_heap w))) o w).
Proof.
  intros [Hp Hs].
  assert (Hfresh : fresh (dom (w_heap w)) ∉ P).
  { intros Hin. apply (fresh_loc_fresh w). by eapply protected_in_dom. }
  destruct (put_obj_protected P w _ o Hfresh Hp) as [Hp' Hs'].
  split; [done|]. by eapply same_on_trans.
Qed.

Lemma write_back_same w l o k x :
  w_heap w !! l = Some o -> fields o !! k = Some x ->
  w_heap (snd (put_field l k x w)) = w_heap w.
Proof.
  intros Hl Hk. simpl. unfold obj_at. rewrite Hl. simpl.
  rewrite (insert_id (fields o)) by done. destruct o. by apply insert_id.
Qed.

Lemma finalize_framed P n : forall w0 v w,
  framed P w0 w -> framed P w0 (snd (finalize n v w)).
Proof.
  induction n as [|n IH]; intros w0 v w Hw; [done|].
  destruct v; try (by rewrite finalize_other).
  - rewrite finalize_obj. destruct (isProxyable w (VObj l)); [|done].
    assert (Hl : framed P w0 (snd (each (map_to_list (fields (obj_at w l))) (walk n l) w))).
    { destruct (decide (l ∈ P)) as [Hin|Hout].
      - destruct (proj1 (proj1 Hw) l Hin) as (o & Ho & Hfields).
        assert (Hobj : obj_at w l = o) by (unfold obj_at; by rewrite Ho).
        rewrite Hobj.
        apply (each_inv (fun w' => framed P w0 w' /\ w_heap w' !! l = Some o)); [|done].
        intros [k x] w' Hkx [Hw' Hl']. apply elem_of_map_to_list in Hkx.
        unfold walk, bind. simpl fst. simpl snd.
        pose proof (IH w0 x w' Hw') as [Hp1 Hs1].
        pose proof (finalize_value n x w') as Hval.
        destruct (finalize n x w') as [[x'|e] w1]; simpl in Hp1, Hs1;
          assert (Hl1 : w_heap w1 !! l = Some o)
            by (by rewrite (Hs1 l Hin), <- (proj2 Hw' l Hin)).
        + assert (x' = x) as ->.
          { apply Hval; [done|]. specialize (Hfields k x Hkx). by destruct x. }
          pose proof (write_back_same w1 l o k x Hl1 Hkx) as Hheap.
          split; [|by rewrite Hheap].
          split.
          * split; [|apply Hp1]. intros l0 Hl0. rewrite Hheap. by apply (proj1 Hp1).
          * intros l0 Hl0. rewrite Hheap. by apply Hs1.
        + done.
      - apply each_inv; [|done]. intros kx w' _. apply walk_inv; [apply IH|].
        intros k x w1 [Hp1 Hs1].
        destruct (put_obj_protected P w1 l
                    (mk_obj (kind (obj_at w1 l)) (<[k := x]> (fields (obj_at w1 l)))) Hout Hp1)
          as [Hp2 Hs2].
        split; [done|]. by eapply same_on_trans. }
    destruct (each _ _ w) as [[[]|e] w1]; [|done]. simpl in *. tauto.
  - rewrite finalize_proxy. destruct (w_states w !! d) as [st|]; [|done].
    destruct (modified st); [|done]. destruct (copy st) as [c|]; [|done].
    pose proof (map_entries_inv (framed P w0) (finalize n)
                  (map_to_list (fields (obj_at w c))) (fun x w' => IH w0 x w') w Hw) as Hm.
    destruct (map_entries _ _ w) as [[fs|e] w1]; [|done].
    by apply framed_alloc.
Qed.

(** What the theorem on the base asks of the [finalize] it is given. *)
Definition keeps_protected (fin : value -> M value) : Prop :=
  forall P v w, protected P w ->
    protected P (snd (fin v w)) /\ same_on P w (snd (fin v w)).

Lemma finalize_keeps_protected n : keeps_protected (finalize n).
Proof. intros P v w Hp. by apply (finalize_framed P n w v w). Qed.

Lemma framed_ext P w0 w w' :
  w_heap w' = w_heap w -> w_states w' = w_states w -> framed P w0 w -> framed P w0 w'.
Proof.
  intros Hh Hs [[Hobj Hst] Hsame]. split; [split|].
  - intros l Hl. rewrite Hh. by apply Hobj.
  - intros s st. rewrite Hs. apply Hst.
  - intros l Hl. rewrite Hh. by apply Hsame.
Qed.

Lemma framed_refl P w : protected P w -> framed P w w.
Proof. by split. Qed.

Lemma framed_steps esc P w0 w w' : framed P w0 w -> steps esc w w' -> framed P w0 w'.
Proof.
  intros [Hp Hs] Hsteps. destruct (steps_protected _ _ _ _ Hp Hsteps) as [Hp' Hs'].
  split; [done|]. by eapply same_on_trans.
Qed.

Lemma framed_entry P w0 w b : b ∈ P -> framed P w0 w -> framed P w0 (entry_world b w).
Proof.
  intros Hb [[Hobj Hst] Hsame]. split; [split|].
  - intros l Hl. rewrite entry_heap. by apply Hobj.
  - intros s st. rewrite entry_states. intros Hs.
    apply lookup_insert_Some in Hs as [[_ <-]|[_ Hs]]; [by split|by apply (Hst s)].
  - intros l Hl. rewrite entry_heap. by apply Hsame.
Qed.

Lemma framed_settle P fin root v w0 w :
  keeps_protected fin -> framed P w0 w -> framed P w0 (snd (settle fin root v w)).
Proof.
  intros Hfin Hw.
  assert (Hf : forall x, framed P w0 (snd (fin x w))).
  { intros x. destruct (Hfin P x w (proj1 Hw)) as [Hp Hs]. split; [done|].
    eapply same_on_trans; [apply Hw|done]. }
  unfold settle.
  destruct (negb (strict_eq v VUndefined) && negb (strict_eq v root)); [|apply Hf].
  unfold bind. pose proof (proxy_state_same root w) as Hps.
  destruct (proxy_state root w) as [[rs|e] w']; simpl in Hps; subst w'; [|done].
  destruct (modified rs); [done|apply Hf].
Qed.

Lemma framed_produce P fin b producer w :
  keeps_protected fin -> b ∈ P -> protected P w ->
  framed P w (snd (produceProxy fin b producer w)).
Proof.
  intros Hfin Hb Hp. rewrite produceProxy_eq.
  pose proof (framed_steps _ P w _ _ (framed_entry P w w b Hb (framed_refl P w Hp))
                (run_steps (producer (VProxy (root_of w))) (entry_world b w))) as H2.
  destruct (run _ _) as [[v|e] w2]; simpl in H2; [|by eapply framed_ext].
  pose proof (framed_settle P fin (VProxy (root_of w)) v w w2 Hfin H2) as H3.
  destruct (settle _ _ _ w2) as [[r|e] w3]; simpl in H3; [|by eapply framed_ext].
  destruct (w_proxies w3) as [l|]; [|by eapply framed_ext].
  simpl. eapply framed_ext; [| |exact H3]; simpl.
  - apply revoke_all_heap.
  - apply revoke_all_states.
Qed.

Lemma framed_keeps_bases P w w' : framed P w w' -> keeps_bases w w'.
Proof. intros [Hp Hs]. by eapply protected_keeps_bases. Qed.

(** C5.  Given a set of addresses that holds the base of every state and the
    objects they refer to, and no copy, no trap writes into the base of any
    state: after a read, a write, a delete or an escalation, and after a
    whole call of [produceProxy], the base object of every state, those of
    the child states made on the way included, has exactly the entries it
    had before, and the set is still as described.  ([fin] is the finalizer;
    it is asked to leave such a set alone.) *)
Theorem C5_base_never_written (P : gset loc) (w : world) :
  protected P w ->
  (forall s p, protected P (snd (get s p w)) /\ keeps_bases w (snd (get s p w)))
  /\ (forall s p v, protected P (snd (set s p v w)) /\ keeps_bases w (snd (set s p v w)))
  /\ (forall s p, protected P (snd (deleteProperty s p w))
                  /\ keeps_bases w (snd (deleteProperty s p w)))
  /\ (forall s, protected P (snd (markChanged s w)) /\ keeps_bases w (snd (markChanged s w)))
  /\ (forall fin b producer, keeps_protected fin -> b ∈ P ->
        protected P (snd (produceProxy fin b producer w))
        /\ keeps_bases w (snd (produceProxy fin b producer w))).
Proof.
  intros Hp.
  assert (Hsteps : forall esc w', steps esc w w' -> protected P w' /\ keeps_bases w w').
  { intros esc w' Hs. pose proof (framed_steps esc P w w w' (framed_refl P w Hp) Hs) as Hf.
    split; [apply Hf|by eapply framed_keeps_bases]. }
  split; [|split; [|split; [|split]]].
  - intros s p. eapply Hsteps, get_steps.
  - intros s p v. eapply Hsteps, set_steps.
  - intros s p. eapply Hsteps, deleteProperty_steps.
  - intros s. eapply (Hsteps true), rtc_once. by apply step_mark.
  - intros fin b producer Hfin Hb.
    pose proof (framed_produce P fin b producer w Hfin Hb Hp) as Hf.
    split; [apply Hf|by eapply framed_keeps_bases].
Qed.

(** X16.  When the producer only reads (no write, no delete) and returns
    undefined, and its run stays in the fragment modelled (it drafts no
    prototype object and reads no container under [__proto__]),
    [produceProxy], with the finalizer of the specification at any stack
    depth of at least one, returns the very base it was given. *)
Theorem X16_reads_return_base (n : nat) (b : loc) (producer : value -> prog) (w : world) :
  (forall root, read_only (producer root)) ->
  is_modelled (fst (run (producer (VProxy (root_of w))) (entry_world b w))) = true ->
  fst (produceProxy (finalize (S n)) b producer w) = Ok (VObj b).
Proof.
  intros Hro Hmod. rewrite produceProxy_eq.
  destruct (run_read_only (producer (VProxy (root_of w))) (entry_world b w) (Hro _))
    as [Hsteps Hret].
  specialize (Hret Hmod). clear Hmod.
  destruct (run _ _) as [rv w2]. simpl in Hsteps, Hret. subst rv.
  pose proof (steps_tracked _ _ _ _ (entry_tracked b w) Hsteps) as (reg & Hreg & _).
  assert (Hroot : w_states (entry_world b w) !! root_of w = Some (createState None b))
    by (rewrite entry_states; apply lookup_insert_eq).
  destruct (steps_false_modified _ _ Hsteps _ _ Hroot) as (st2 & Hs2 & Hm2 & Hb2).
  assert (Hset : settle (finalize (S n)) (VProxy (root_of w)) VUndefined w2
                 = finalize (S n) (VProxy (root_of w)) w2) by done.
  simpl in Hm2, Hb2.
  rewrite Hset, finalize_proxy, Hs2, Hm2, Hreg. simpl. by rewrite Hb2.
Qed.

(** A producer that only reads: [draft => { draft.a; draft.c }]. *)
Definition ex_reader (root : value) : prog :=
  match root with
  | VProxy d => PDo (OGet d "a") (fun _ => PDo (OGet d "c") (fun _ => PRet VUndefined))
  | _ => PRet VUndefined
  end.

Lemma ex_reader_read_only root : read_only (ex_reader root).
Proof. by destruct root. Qed.

Lemma X16_reads_return_base_witness :
  fst (produceProxy (finalize 1) 1%positive ex_reader ex_world) = Ok (VObj 1%positive).
Proof.
  apply (X16_reads_return_base 0 1%positive ex_reader ex_world).
  - exact ex_reader_read_only.
  - vm_compute. reflexivity.
Defined.

(** ** Deleting a key the base does not have *)

Lemma markChanged_first s st w :
  w_states w !! s = Some st -> modified st = false ->
  escalates (escalate1 s st w) (snd (markChanged s w)).
Proof.
  intros Hs Hm. unfold markChanged. rewrite markChanged_fuel_S, Hs, Hm.
  destruct (parent st); [apply markChanged_fuel_escalates|apply esc_refl].
Qed.

(** The copy [markChanged] makes of the base of a state: same kind, the
    entries of the base overlaid with the cached child drafts. *)
Definition shallow_copy_of (w : world) (st : state) : obj :=
  mk_obj (kind (obj_at w (base st))) (proxies st ∪ fields (obj_at w (base st))).

(** Every state a chain of escalations has turned to modified got a copy at
    a new address, which is the shallow copy of its base. *)
Lemma escalates_copies w w' :
  escalates w w' ->
  forall a ast ast', w_states w !! a = Some ast -> modified ast = false ->
    w_states w' !! a = Some ast' -> modified ast' = true ->
    exists c, copy ast' = Some c /\ w_heap w !! c = None
      /\ (base ast ∈ dom (w_heap w) -> w_heap w' !! c = Some (shallow_copy_of w ast)).
Proof.
  induction 1 as [w|s st w w' Hs Hm Hesc IH]; intros a ast ast' Ha Hma Ha' Hma'.
  - congruence.
  - pose proof (escalates_evolves _ _ Hesc) as Hev.
    destruct (decide (a = s)) as [->|Hne].
    + assert (ast = st) as -> by congruence.
      assert (Hs1 : w_states (escalate1 s st w) !! s
                = Some (mk_state true (finalized st) (parent st) (base st)
                          (Some (fresh (dom (w_heap w)))) (proxies st)))
        by apply lookup_insert_eq.
      destruct (ev_states _ _ Hev _ _ Hs1) as (st1 & Hst1 & _ & _ & _ & _ & Hsame).
      rewrite (Hsame eq_refl) in Hst1. rewrite Hst1 in Ha'. injection Ha' as <-.
      exists (fresh (dom (w_heap w))). split; [done|]. split.
      * apply not_elem_of_dom, fresh_loc_fresh.
      * intros _. rewrite (ev_heap _ _ Hev).
        -- simpl. by rewrite lookup_insert_eq.
        -- simpl. apply elem_of_dom. rewrite lookup_insert_eq. eauto.
    + assert (Ha1 : w_states (escalate1 s st w) !! a = Some ast)
        by (simpl; by rewrite lookup_insert_ne).
      destruct (IH a ast ast' Ha1 Hma Ha' Hma') as (c & Hc & Hnew & Hcontent).
      simpl in Hnew. apply lookup_insert_None in Hnew as [Hnew Hcne].
      exists c. split; [done|]. split; [done|]. intros Hb.
      assert (Hbne : fresh (dom (w_heap w)) ≠ base ast).
      { intros Heq. apply (fresh_loc_fresh w). by rewrite Heq. }
      rewrite Hcontent.
      * unfold shallow_copy_of, obj_at. simpl. by rewrite lookup_insert_ne.
      * simpl. rewrite dom_insert_L. set_solver.
Qed.

Lemma ancestor_grows w w' a s : grows w w' -> ancestor w a s -> ancestor w' a s.
Proof.
  intros Hg Hanc. induction Hanc as [s st p Hs Hp|s st p a Hs Hp _ IH];
    destruct (gr_states _ _ Hg _ _ Hs) as (st' & Hs' & _ & Hp' & _).
  - eapply anc_parent; [exact Hs'|by rewrite Hp'].
  - eapply anc_up; [exact Hs'|by rewrite Hp'|done].
Qed.

(** [draft => { delete draft[k] }] *)
Definition delete_producer (k : string) (root : value) : prog :=
  match root with
  | VProxy d => PDo (ODelete d k) (fun _ => PRet VUndefined)
  | _ => PRet VUndefined
  end.

(** [v] holds no draft, refers to objects that are there, and nests them
    less than [n] deep: what a call of [finalize] with [n] stack frames
    walks to the end without finding a draft. *)
Fixpoint plain_tree (w : world) (n : nat) (v : value) : bool :=
  match n with
  | O => false
  | S n' =>
      match v with
      | VProxy _ => false
      | VObj l =>
          match w_heap w !! l with
          | Some o => forallb (fun kx => plain_tree w n' (snd kx)) (map_to_list (fields o))
          | None => false
          end
      | _ => true
      end
  end.

Lemma each_id {A} (l : list A) (f : A -> M unit) w :
  (forall x, x ∈ l -> f x w = (Ok tt, w)) -> each l f w = (Ok tt, w).
Proof.
  induction l as [|x l IH]; intros Hf; [done|].
  simpl. unfold bind. rewrite (Hf x) by apply list_elem_of_here.
  apply IH. intros y Hy. apply Hf. by apply list_elem_of_further.
Qed.

Lemma map_entries_id (f : value -> M value) (l : list (prop * value)) w :
  (forall kx, kx ∈ l -> f (snd kx) w = (Ok (snd kx), w)) -> map_entries f l w = (Ok l, w).
Proof.
  induction l as [|[k x] l IH]; intros Hf; [done|].
  pose proof (Hf (k, x) (list_elem_of_here _ _)) as Hx. simpl in Hx.
  simpl. unfold bind at 1. rewrite Hx.
  unfold bind, ret. rewrite IH; [done|]. intros y Hy. apply Hf. by apply list_elem_of_further.
Qed.

Lemma forallb_elem {A} (f : A -> bool) (l : list A) x :
  forallb f l = true -> x ∈ l -> f x = true.
Proof. intros Hall Hx. rewrite forallb_forall in Hall. apply Hall. by apply list_elem_of_In. Qed.

Lemma with_heap_same w : with_heap (w_heap w) w = w.
Proof. by destruct w. Qed.

Lemma plain_tree_finalize n : forall v w,
  plain_tree w n v = true -> finalize n v w = (Ok v, w).
Proof.
  induction n as [|n IH]; intros v w Hv; [done|].
  destruct v; try (by rewrite finalize_other).
  simpl in Hv. destruct (w_heap w !! l) as [o|] eqn:Hl; [|done].
  assert (Hobj : obj_at w l = o) by (unfold obj_at; by rewrite Hl).
  rewrite finalize_obj, Hobj. destruct (isProxyable w (VObj l)); [|done].
  rewrite each_id; [done|]. intros [k x] Hkx. unfold walk, bind. simpl.
  rewrite (IH x w) by apply (forallb_elem _ _ _ Hv Hkx).
  unfold put_field, modify. f_equal.
  apply elem_of_map_to_list in Hkx. rewrite Hobj.
  unfold put_obj. rewrite (insert_id (fields o)) by done.
  destruct o. simpl. rewrite insert_id by done. apply with_heap_same.
Qed.

Lemma plain_tree_mono w w' n : forall v,
  (forall l o, w_heap w !! l = Some o -> w_heap w' !! l = Some o) ->
  plain_tree w n v = true -> plain_tree w' n v = true.
Proof.
  induction n as [|n IH]; intros v Hsub Hv; [done|].
  destruct v; try done. simpl in *.
  destruct (w_heap w !! l) as [o|] eqn:Hl; [|done]. rewrite (Hsub l o Hl).
  apply forallb_forall. intros kx Hkx. apply IH; [done|].
  rewrite forallb_forall in Hv. by apply Hv.
Qed.

Lemma deleteProperty_unmodified w s st p :
  w_states w !! s = Some st -> modified st = false ->
  fst (markChanged s w) = Ok tt ->
  deleteProperty s p w
  = match remove (shallow_copy_of w st) p with
    | Ok o' => (Ok true, put_obj (fresh (dom (w_heap w))) o' (snd (markChanged s w)))
    | Throw e => (Throw e, snd (markChanged s w))
    end
  /\ w_states (snd (markChanged s w)) !! s
     = Some (mk_state true (finalized st) (parent st) (base st)
               (Some (fresh (dom (w_heap w)))) (proxies st)).
Proof.
  intros Hs Hm Hok.
  pose proof (escalates_evolves _ _ (markChanged_first s st w Hs Hm)) as Hev.
  assert (Hs1 : w_states (escalate1 s st w) !! s
     = Some (mk_state true (finalized st) (parent st) (base st)
               (Some (fresh (dom (w_heap w)))) (proxies st))) by apply lookup_insert_eq.
  destruct (ev_states _ _ Hev _ _ Hs1) as (st' & Hs' & _ & _ & _ & _ & Hsame).
  rewrite (Hsame eq_refl) in Hs'. split; [|done].
  assert (Hc : w_heap (snd (markChanged s w)) !! fresh (dom (w_heap w))
               = Some (shallow_copy_of w st)).
  { rewrite (ev_heap _ _ Hev); simpl; [by rewrite lookup_insert_eq|].
    apply elem_of_dom. rewrite lookup_insert_eq. eauto. }
  unfold deleteProperty. unfold bind at 1.
  destruct (markChanged s w) as [[[]|e] wm]; simpl in *; [|done].
  unfold bind at 1, copy_of, bind, read_state. rewrite Hs'. simpl.
  rewrite delete_field_eq. unfold obj_at. rewrite Hc. simpl.
  by destruct (remove (shallow_copy_of w st) p).
Qed.

Lemma markChanged_root s st w :
  w_states w !! s = Some st -> modified st = false -> parent st = None ->
  markChanged s w = (Ok tt, escalate1 s st w).
Proof. intros Hs Hm Hp. unfold markChanged. by rewrite markChanged_fuel_S, Hs, Hm, Hp. Qed.

(** C10, at the trap.  On a state that is not modified, in a store where
    parent pointers lead to states, deleting a key that neither the base nor
    the cache has succeeds and leaves the state and all its ancestors
    modified; the state has a copy at a new address with exactly the entries
    of the shallow copy of its base (none was removed), and every ancestor
    that was not modified has, at a new address too, the shallow copy of its
    base. *)
Lemma deleteProperty_absent_key w s st k :
  tree_ok w -> w_states w !! s = Some st -> modified st = false ->
  fields (obj_at w (base st)) !! PKey k = None -> proxies st !! PKey k = None ->
  fst (deleteProperty s (PKey k) w) = Ok true
  /\ (forall a, a = s \/ ancestor w a s -> is_modified (snd (deleteProperty s (PKey k) w)) a)
  /\ (exists c st', w_states (snd (deleteProperty s (PKey k) w)) !! s = Some st'
        /\ copy st' = Some c /\ w_heap w !! c = None
        /\ w_heap (snd (deleteProperty s (PKey k) w)) !! c = Some (shallow_copy_of w st))
  /\ (forall a ast, ancestor w a s -> a ≠ s -> w_states w !! a = Some ast ->
        modified ast = false -> base ast ∈ dom (w_heap w) ->
        exists c ast', w_states (snd (deleteProperty s (PKey k) w)) !! a = Some ast'
          /\ copy ast' = Some c /\ w_heap w !! c = None
          /\ w_heap (snd (deleteProperty s (PKey k) w)) !! c = Some (shallow_copy_of w ast)).
Proof.
  intros Hok Hs Hm Hbase Hcache.
  destruct (markChanged_closes s w Hok (mk_is_Some _ _ Hs)) as (Hfst & Hok' & Hmod).
  destruct (deleteProperty_unmodified w s st (PKey k) Hs Hm Hfst) as [Hdel Hs'].
  rewrite remove_absent in Hdel by (apply lookup_union_None; by split).
  rewrite Hdel. simpl fst. simpl snd.
  pose proof (markChanged_first s st w Hs Hm) as Hesc1.
  pose proof (escalates_evolves _ _ (markChanged_escalates s w)) as Hev.
  assert (Hfresh : w_heap w !! fresh (dom (w_heap w)) = None)
    by apply not_elem_of_dom, fresh_loc_fresh.
  split; [done|]. split; [|split].
  - intros a Ha. assert (is_modified (snd (markChanged s w)) a) as Hma; [|exact Hma].
    destruct Ha as [->|Hanc]; [done|].
    apply (tree_ok_upward_closed _ Hok' s a Hmod).
    eapply ancestor_grows; [|done]. by apply evolves_grows.
  - eexists _, _. split; [exact Hs'|]. split; [done|]. split; [done|].
    simpl. by rewrite lookup_insert_eq.
  - intros a ast Hanc Hne Ha Hma Hb.
    assert (Ha1 : w_states (escalate1 s st w) !! a = Some ast)
      by (simpl; by rewrite lookup_insert_ne).
    assert (is_modified (snd (markChanged s w)) a) as (ast' & Ha' & Hma').
    { apply (tree_ok_upward_closed _ Hok' s a Hmod).
      eapply ancestor_grows; [|done]. by apply evolves_grows. }
    destruct (escalates_copies _ _ Hesc1 a ast ast' Ha1 Hma Ha' Hma')
      as (c & Hc & Hnew & Hcontent).
    simpl in Hnew. apply lookup_insert_None in Hnew as [Hnew Hcne].
    exists c, ast'. split; [exact Ha'|]. split; [done|]. split; [done|].
    simpl. rewrite lookup_insert_ne by done. rewrite Hcontent.
    + assert (Hbne : fresh (dom (w_heap w)) ≠ base ast).
      { intros Heq. apply (fresh_loc_fresh w). by rewrite Heq. }
      unfold shallow_copy_of, obj_at. simpl. by rewrite lookup_insert_ne.
    + simpl. rewrite dom_insert_L. set_solver.
Qed.

Lemma deleteProperty_states s p w :
  w_states (snd (deleteProperty s p w)) = w_states (snd (markChanged s w)).
Proof.
  unfold deleteProperty. unfold bind at 1.
  destruct (markChanged s w) as [[[]|e] wm]; [|done].
  unfold bind at 1. destruct (copy_of s wm) as [[c|e] w0] eqn:Hc;
    apply copy_of_inv in Hc as [-> _]; [|done].
  unfold bind, ret. pose proof (delete_field_states c p wm) as Hd.
  by destruct (delete_field c p wm) as [[[]|e] w2].
Qed.

(** Whatever the key, and whether the state was modified or not, a delete
    leaves the state and all its ancestors modified. *)
Lemma deleteProperty_marks w s p :
  tree_ok w -> is_Some (w_states w !! s) ->
  forall a, a = s \/ ancestor w a s -> is_modified (snd (deleteProperty s p w)) a.
Proof.
  intros Hok Hs a Ha.
  destruct (markChanged_closes s w Hok Hs) as (_ & Hok' & Hmod).
  unfold is_modified. rewrite deleteProperty_states.
  destruct Ha as [->|Hanc]; [done|].
  apply (tree_ok_upward_closed _ Hok' s a Hmod).
  eapply ancestor_grows; [|done].
  apply evolves_grows, escalates_evolves, markChanged_escalates.
Qed.

(** The fuel of [markChanged] is never used up, in any store. *)
Lemma markChanged_fuel_enough n : forall s w,
  size (unmodified w) < n -> fst (markChanged_fuel n s w) <> Throw RangeError.
Proof.
  induction n as [|n IH]; intros s w Hn; [lia|].
  rewrite markChanged_fuel_S. destruct (w_states w !! s) as [st|] eqn:Hs; [|done].
  destruct (modified st) eqn:Hm; [done|].
  destruct (parent st); [|done]. apply IH.
  pose proof (unmodified_escalate1 s st w Hs Hm). lia.
Qed.

Lemma markChanged_never_exhausts s w : fst (markChanged s w) <> Throw RangeError.
Proof. apply markChanged_fuel_enough. pose proof (unmodified_size w). lia. Qed.

Lemma delete_then_finalize n b k w1 root o :
  w_states w1 !! root = Some (createState None b) ->
  w_revoked w1 !! root = Some false ->
  w_heap w1 !! b = Some o ->
  fields o !! PKey k = None ->
  forallb (fun kx => plain_tree w1 n (snd kx)) (map_to_list (fields o)) = true ->
  exists w2,
    run (delete_producer k (VProxy root)) w1 = (Ok VUndefined, w2)
    /\ w_proxies w2 = w_proxies w1
    /\ w_heap w2 = <[fresh (dom (w_heap w1)) := o]> (w_heap w1)
    /\ finalize (S n) (VProxy root) w2
       = (Ok (VObj (fresh (dom (w_heap w2)))), put_obj (fresh (dom (w_heap w2))) o w2).
Proof.
  intros Hroot Hrev Hb Habs Hplain.
  assert (Hob : obj_at w1 b = o) by (unfold obj_at; by rewrite Hb).
  destruct (deleteProperty_unmodified w1 root (createState None b) (PKey k) Hroot eq_refl)
    as [Hdel _]; [by rewrite (markChanged_root _ _ _ Hroot)|].
  rewrite (markChanged_root _ _ _ Hroot eq_refl eq_refl) in Hdel.
  assert (Hsc : shallow_copy_of w1 (createState None b) = o).
  { unfold shallow_copy_of. simpl. rewrite Hob, (left_id ∅ (∪)). by destruct o. }
  rewrite Hsc, (remove_absent o) in Hdel by done.
  simpl snd in Hdel.
  eexists. split; [|split; [|split]].
  - simpl. unfold bind, via_proxy. rewrite Hrev, Hdel. done.
  - done.
  - simpl. apply insert_insert_eq.
  - match goal with |- finalize _ _ ?W = _ => set (w2 := W) end.
    assert (Hc : w_heap w1 !! fresh (dom (w_heap w1)) = None)
      by apply not_elem_of_dom, fresh_loc_fresh.
    assert (Hheap2 : w_heap w2 = <[fresh (dom (w_heap w1)) := o]> (w_heap w1))
      by (unfold w2; simpl; apply insert_insert_eq).
    assert (Hs2 : w_states w2 !! root
                  = Some (mk_state true false None b (Some (fresh (dom (w_heap w1)))) ∅))
      by (unfold w2; simpl; apply lookup_insert_eq).
    assert (Hoc : obj_at w2 (fresh (dom (w_heap w1))) = o)
      by (unfold obj_at; by rewrite Hheap2, lookup_insert_eq).
    rewrite finalize_proxy, Hs2. simpl. rewrite Hoc.
    rewrite map_entries_id.
    + rewrite list_to_map_to_list. by destruct o.
    + intros kx Hkx. apply plain_tree_finalize. apply (plain_tree_mono w1).
      * intros l o' Hl. rewrite Hheap2, lookup_insert_ne; [done|]. intros <-. congruence.
      * apply (forallb_elem _ _ _ Hplain Hkx).
Qed.

(** C10, for the whole call.  The base is a plain tree that [finalize] can
    walk with the stack it has; the producer only deletes a key the base does
    not have.  Then [produceProxy] returns a container at a new address, so
    not the base, with exactly the kind and the entries of the base; the base
    itself is as it was. *)
Lemma produce_delete_absent_key n b k w :
  plain_tree w n (VObj b) = true ->
  fields (obj_at w b) !! PKey k = None ->
  exists r, fst (produceProxy (finalize n) b (delete_producer k) w) = Ok (VObj r)
    /\ w_heap w !! r = None /\ r ≠ b
    /\ w_heap (snd (produceProxy (finalize n) b (delete_producer k) w)) !! r = w_heap w !! b
    /\ w_heap (snd (produceProxy (finalize n) b (delete_producer k) w)) !! b = w_heap w !! b.
Proof.
  intros Hplain Habs. destruct n as [|n]; [done|].
  simpl in Hplain. destruct (w_heap w !! b) as [o|] eqn:Hb; [|done].
  assert (Hob : obj_at w b = o) by (unfold obj_at; by rewrite Hb).
  rewrite Hob in Habs.
  destruct (delete_then_finalize n b k (entry_world b w) (root_of w) o)
    as (w2 & Hrun & Hreg & Hheap2 & Hfin).
  { rewrite entry_states. apply lookup_insert_eq. }
  { rewrite entry_revoked. apply lookup_insert_eq. }
  { by rewrite entry_heap. }
  { done. }
  { apply forallb_forall. intros kx Hkx. apply (plain_tree_mono w).
    - intros l o'. by rewrite entry_heap.
    - rewrite forallb_forall in Hplain. by apply Hplain. }
  rewrite entry_heap in Hheap2. rewrite entry_proxies in Hreg.
  assert (Hc : w_heap w !! fresh (dom (w_heap w)) = None)
    by apply not_elem_of_dom, fresh_loc_fresh.
  assert (Hsub : forall l o', w_heap w !! l = Some o' -> w_heap w2 !! l = Some o').
  { intros l o' Hl. rewrite Hheap2, lookup_insert_ne; [done|]. intros <-. congruence. }
  assert (Hr2 : w_heap w2 !! fresh (dom (w_heap w2)) = None)
    by apply not_elem_of_dom, fresh_loc_fresh.
  assert (Hr : w_heap w !! fresh (dom (w_heap w2)) = None).
  { destruct (w_heap w !! fresh (dom (w_heap w2))) as [o'|] eqn:Hx; [|done].
    apply Hsub in Hx. congruence. }
  assert (Hrb : fresh (dom (w_heap w2)) ≠ b) by (intros Heq; rewrite Heq in Hr; congruence).
  exists (fresh (dom (w_heap w2))). rewrite produceProxy_eq, Hrun.
  assert (Hset : settle (finalize (S n)) (VProxy (root_of w)) VUndefined w2
                 = finalize (S n) (VProxy (root_of w)) w2) by done.
  rewrite Hset, Hfin. simpl w_proxies. rewrite Hreg. simpl.
  rewrite lookup_insert_eq, lookup_insert_ne by done.
  repeat split; try done. by apply Hsub.
Qed.

(** C10.  A delete leaves the state and every ancestor modified, whatever
    the key.  On a state that was not modified, deleting a key that the draft
    does not have succeeds, the state gets at a new address a shallow copy
    of its base from which no entry was removed, and so does every ancestor
    that was not modified.  A call of [produceProxy] whose producer only
    deletes a key the base does not have returns a container at a new
    address, with the kind and the entries of the base: not the base.  (The
    finalizer is the one of the specification, on a base it can walk.) *)
Theorem C10_delete_absent_key_escalates (w : world) (k : string) :
  (forall s st,
     tree_ok w -> w_states w !! s = Some st ->
     (forall a, a = s \/ ancestor w a s -> is_modified (snd (deleteProperty s (PKey k) w)) a)
     /\ (modified st = false ->
         fields (obj_at w (base st)) !! PKey k = None -> proxies st !! PKey k = None ->
         fst (deleteProperty s (PKey k) w) = Ok true
         /\ (exists c st', w_states (snd (deleteProperty s (PKey k) w)) !! s = Some st'
               /\ copy st' = Some c /\ w_heap w !! c = None
               /\ w_heap (snd (deleteProperty s (PKey k) w)) !! c
                  = Some (shallow_copy_of w st))
         /\ (forall a ast, ancestor w a s -> a ≠ s -> w_states w !! a = Some ast ->
               modified ast = false -> base ast ∈ dom (w_heap w) ->
               exists c ast', w_states (snd (deleteProperty s (PKey k) w)) !! a = Some ast'
                 /\ copy ast' = Some c /\ w_heap w !! c = None
                 /\ w_heap (snd (deleteProperty s (PKey k) w)) !! c
                    = Some (shallow_copy_of w ast))))
  /\ (forall n b,
        plain_tree w n (VObj b) = true ->
        fields (obj_at w b) !! PKey k = None ->
        exists r, fst (produceProxy (finalize n) b (delete_producer k) w) = Ok (VObj r)
          /\ w_heap w !! r = None /\ r ≠ b
          /\ w_heap (snd (produceProxy (finalize n) b (delete_producer k) w)) !! r
             = w_heap w !! b
          /\ w_heap (snd (produceProxy (finalize n) b (delete_producer k) w)) !! b
             = w_heap w !! b).
Proof.
  split.
  - intros s st Hok Hs. split.
    + apply deleteProperty_marks; eauto.
    + intros Hm Hbase Hcache.
      destruct (deleteProperty_absent_key w s st k Hok Hs Hm Hbase Hcache)
        as (H1 & _ & H3 & H4).
      by repeat split.
  - intros n b. apply produce_delete_absent_key.
Qed.

(** ** The claims on the example *)

Lemma ex_child_world_tree_ok : tree_ok ex_child_world.
Proof.
  intros s st p Hs Hp. unfold ex_child_world in *. simpl in *.
  apply lookup_insert_Some in Hs as [[<- <-]|[_ Hs]]; [done|].
  apply lookup_singleton_Some in Hs as [<- <-]. simpl in Hp. injection Hp as <-.
  eexists. split; [apply lookup_insert_eq|done].
Qed.

Lemma ex_world_protected : protected {[1%positive; 2%positive; 3%positive]} ex_world.
Proof.
  split; [|done]. intros l Hl.
  assert (l = 1%positive \/ l = 2%positive \/ l = 3%positive) as [->|[->| ->]]
    by set_solver.
  - eexists. split; [reflexivity|]. intros k x Hk. simpl in Hk.
    apply lookup_insert_Some in Hk as [[_ <-]|[_ Hk]]; [set_solver|].
    apply lookup_insert_Some in Hk as [[_ <-]|[_ Hk]]; [set_solver|done].
  - eexists. split; [reflexivity|]. intros k x Hk. simpl in Hk.
    apply lookup_insert_Some in Hk as [[_ <-]|[_ Hk]]; done.
  - eexists. split; [reflexivity|]. intros k x Hk. simpl in Hk.
    apply lookup_insert_Some in Hk as [[_ <-]|[_ Hk]]; [done|].
    apply lookup_insert_Some in Hk as [[_ <-]|[_ Hk]]; [done|].
    apply lookup_insert_Some in Hk as [[_ <-]|[_ Hk]]; [done|].
    apply lookup_insert_Some in Hk as [[_ <-]|[_ Hk]]; done.
Qed.

Lemma C5_base_never_written_witness :
  keeps_bases ex_world (snd (produceProxy (finalize 10) 1%positive ex_producer ex_world))
  /\ keeps_bases ex_world (snd (set 1%positive (PKey "a") VNull ex_world)).
Proof.
  destruct (C5_base_never_written {[1%positive; 2%positive; 3%positive]} ex_world
              ex_world_protected) as (_ & Hset & _ & _ & Hprod).
  split.
  - apply Hprod; [apply finalize_keeps_protected|set_solver].
  - apply Hset.
Defined.

(** After [draft.a.b = 2] the bases are what they were: [{b: 1}] is still at
    address 2, and the result shares the array at address 3. *)
Example ex_produce_result :
  fst (produceProxy (finalize 10) 1%positive ex_producer ex_world) = Ok (VObj 7%positive)
  /\ w_heap (snd (produceProxy (finalize 10) 1%positive ex_producer ex_world)) !! 2%positive
     = ex_heap !! 2%positive
  /\ fields (obj_at (snd (produceProxy (finalize 10) 1%positive ex_producer ex_world))
                    7%positive) !! PKey "c" = Some (VObj 3%positive)
  /\ fields (obj_at (snd (produceProxy (finalize 10) 1%positive ex_producer ex_world))
                    7%positive) !! PKey "a" = Some (VObj 6%positive)
  /\ fields (obj_at (snd (produceProxy (finalize 10) 1%positive ex_producer ex_world))
                    6%positive) !! PKey "b" = Some (VNum 2).
Proof. vm_compute. done. Qed.

Lemma C1_revoked_on_return_witness :
  w_revoked (snd (produceProxy (finalize 10) 1%positive ex_producer ex_world)) !! 2%positive
  = Some true
  /\ exec_op (OSet 2%positive "b" (VNum 3))
       (snd (produceProxy (finalize 10) 1%positive ex_producer ex_world))
     = (Throw (TypeError "operation on a revoked proxy"),
        snd (produceProxy (finalize 10) 1%positive ex_producer ex_world)).
Proof.
  destruct (C1_revoked_on_return (finalize 10) 1%positive ex_producer ex_world
              (finalize_keeps_drafts 10)) as [_ H].
  destruct (H (VObj 7%positive) ltac:(vm_compute; reflexivity) 2%positive) as [Hrev Hops].
  - apply elem_of_dom. vm_compute. eauto.
  - apply not_elem_of_dom. reflexivity.
  - split; [exact Hrev|]. by apply Hops.
Defined.

(** A producer that throws: [draft => { throw "boom" }]. *)
Definition ex_thrower (root : value) : prog := PThrow (VStr "boom").

(** C1 fails as stated.  When the producer throws, [produceProxy] exits with
    the root draft, made during the call, not revoked: a later read through
    it succeeds. *)
Lemma C1_counterexample :
  fst (produceProxy (finalize 10) 2%positive ex_thrower ex_world)
  = Throw (UserThrow (VStr "boom"))
  /\ is_Some (w_states (snd (produceProxy (finalize 10) 2%positive ex_thrower ex_world))
              !! 1%positive)
  /\ w_states ex_world !! 1%positive = None
  /\ w_revoked (snd (produceProxy (finalize 10) 2%positive ex_thrower ex_world)) !! 1%positive
     = Some false
  /\ fst (exec_op (OGet 1%positive "b")
            (snd (produceProxy (finalize 10) 2%positive ex_thrower ex_world)))
     = Ok (VNum 1)
  /\ ~ (forall d,
          d ∈ dom (w_states (snd (produceProxy (finalize 10) 2%positive ex_thrower ex_world))) ->
          d ∉ dom (w_states ex_world) ->
          w_revoked (snd (produceProxy (finalize 10) 2%positive ex_thrower ex_world)) !! d
          = Some true).
Proof.
  assert (Hrev : w_revoked (snd (produceProxy (finalize 10) 2%positive ex_thrower ex_world))
                   !! 1%positive = Some false) by (vm_compute; reflexivity).
  assert (Hin : is_Some (w_states (snd (produceProxy (finalize 10) 2%positive ex_thrower
                   ex_world)) !! 1%positive)) by (vm_compute; eauto).
  split; [vm_compute; reflexivity|]. split; [exact Hin|]. split; [reflexivity|].
  split; [exact Hrev|]. split; [vm_compute; reflexivity|].
  intros H.
  assert (Hd : 1%positive ∈ dom (w_states (snd (produceProxy (finalize 10) 2%positive
                 ex_thrower ex_world)))) by (by apply elem_of_dom).
  assert (Hn : 1%positive ∉ dom (w_states ex_world)) by (apply not_elem_of_dom; reflexivity).
  pose proof (H _ Hd Hn) as Heq.
  assert (Hcontra : Some true = Some false) by (etrans; [symmetry; exact Heq|exact Hrev]).
  discriminate Hcontra.
Qed.

(** A producer that writes to the draft and returns something else:
    [draft => { draft.x = 1; return 5 }]. *)
Definition ex_write_and_return (root : value) : prog :=
  match root with
  | VProxy d => PDo (OSet d "x" (VNum 1)) (fun _ => PRet (VNum 5))
  | _ => PRet (VNum 5)
  end.

Lemma C2_returned_and_modified_witness :
  fst (produceProxy (finalize 10) 1%positive ex_write_and_return ex_world)
  = Throw ReturnedAndModified.
Proof.
  destruct (C2_returned_and_modified (finalize 10) 1%positive ex_write_and_return ex_world
              (finalize_keeps_drafts 10) (finalize_no_ram 10)) as [[_ H] _].
  apply H. exists (VNum 5). split; [vm_compute; reflexivity|].
  split; [done|]. split; [done|].
  eexists. split; [vm_compute; reflexivity|reflexivity].
Defined.

Lemma C10_delete_absent_key_escalates_witness :
  (exists r, fst (produceProxy (finalize 3) 1%positive (delete_producer "zzz") ex_world)
             = Ok (VObj r)
     /\ w_heap ex_world !! r = None /\ r ≠ 1%positive
     /\ w_heap (snd (produceProxy (finalize 3) 1%positive (delete_producer "zzz") ex_world)) !! r
        = w_heap ex_world !! 1%positive
     /\ w_heap (snd (produceProxy (finalize 3) 1%positive (delete_producer "zzz") ex_world))
          !! 1%positive
        = w_heap ex_world !! 1%positive)
  /\ (forall a, a = 2%positive \/ ancestor ex_child_world a 2%positive ->
        is_modified (snd (deleteProperty 2%positive (PKey "zzz") ex_child_world)) a).
Proof.
  split.
  - destruct (C10_delete_absent_key_escalates ex_world "zzz") as [_ H].
    apply H; reflexivity.
  - destruct (C10_delete_absent_key_escalates ex_child_world "zzz") as [H _].
    destruct (H 2%positive (createState (Some 1%positive) 2%positive)
                ex_child_world_tree_ok) as [Hmod _]; [reflexivity|].
    exact Hmod.
Defined.

(** On the example, deleting an absent key of the child draft escalates the
    child and the root. *)
Example ex_delete_absent_modified :
  fst (deleteProperty 2%positive (PKey "zzz") ex_child_world) = Ok true
  /\ modified <$> (w_states (snd (deleteProperty 2%positive (PKey "zzz") ex_child_world))
                   !! 1%positive) = Some true
  /\ modified <$> (w_states (snd (deleteProperty 2%positive (PKey "zzz") ex_child_world))
                   !! 2%positive) = Some true.
Proof. vm_compute. done. Qed.

(** ** More on [markChanged]: termination, and the path it touches *)

Lemma markChanged_fuel_outcome n : forall s w,
  size (unmodified w) < n ->
  fst (markChanged_fuel n s w) = Ok tt
  \/ fst (markChanged_fuel n s w) = Throw (TypeError "not a state").
Proof.
  induction n as [|n IH]; intros s w Hn; [lia|].
  rewrite markChanged_fuel_S. destruct (w_states w !! s) as [st|] eqn:Hs; [|by right].
  destruct (modified st) eqn:Hm; [by left|].
  destruct (parent st); [|by left]. apply IH.
  pose proof (unmodified_escalate1 s st w Hs Hm). lia.
Qed.

(** X1.  [markChanged] returns on every store, also on one whose parent
    pointers form a cycle or lead nowhere: the flag it sets before it climbs
    stops the recursion, so the bound on the calls is never reached.  Its
    outcome is a normal return, or the TypeError of a state that is not
    there. *)
Theorem X1_markChanged_terminates (s : sid) (w : world) :
  fst (markChanged s w) = Ok tt
  \/ fst (markChanged s w) = Throw (TypeError "not a state").
Proof. apply markChanged_fuel_outcome. pose proof (unmodified_size w). lia. Qed.

(** Two states that are each other's parent: the escalation of one goes
    round once and stops, with both modified. *)
Definition ex_cyclic_world : world :=
  mk_world ex_heap
    (<[1%positive := createState (Some 2%positive) 1%positive]>
       {[2%positive := createState (Some 1%positive) 2%positive]})
    (<[1%positive := false]> {[2%positive := false]})
    (Some [1%positive; 2%positive]).

Example ex_cyclic_markChanged :
  fst (markChanged 1%positive ex_cyclic_world) = Ok tt
  /\ modified <$> (w_states (snd (markChanged 1%positive ex_cyclic_world)) !! 1%positive)
     = Some true
  /\ modified <$> (w_states (snd (markChanged 1%positive ex_cyclic_world)) !! 2%positive)
     = Some true.
Proof. vm_compute. done. Qed.

Lemma ancestor_back w w' a s :
  (forall q qst', w_states w' !! q = Some qst' ->
     exists qst, w_states w !! q = Some qst /\ parent qst = parent qst') ->
  ancestor w' a s -> ancestor w a s.
Proof.
  intros Hback Hanc. induction Hanc as [s st p Hs Hp|s st p a Hs Hp _ IH];
    destruct (Hback _ _ Hs) as (st0 & Hs0 & Hp0).
  - eapply anc_parent; [exact Hs0|by rewrite Hp0].
  - eapply anc_up; [exact Hs0|by rewrite Hp0|done].
Qed.

Lemma escalate1_parents s st w :
  w_states w !! s = Some st ->
  forall q qst', w_states (escalate1 s st w) !! q = Some qst' ->
    exists qst, w_states w !! q = Some qst /\ parent qst = parent qst'.
Proof.
  intros Hs q qst' Hq. simpl in Hq.
  apply lookup_insert_Some in Hq as [[<- <-]|[_ Hq]]; [by exists st|by exists qst'].
Qed.

Lemma markChanged_fuel_off_path n : forall s w x,
  x ≠ s -> ~ ancestor w x s ->
  w_states (snd (markChanged_fuel n s w)) !! x = w_states w !! x.
Proof.
  induction n as [|n IH]; intros s w x Hne Hanc; [done|].
  rewrite markChanged_fuel_S. destruct (w_states w !! s) as [st|] eqn:Hs; [|done].
  destruct (modified st) eqn:Hm; [done|].
  assert (Hx : w_states (escalate1 s st w) !! x = w_states w !! x)
    by (simpl; by rewrite lookup_insert_ne).
  destruct (parent st) as [p|] eqn:Hp; [|done].
  rewrite IH; [done| |].
  - intros ->. apply Hanc. by eapply anc_parent.
  - intros Hanc1. apply Hanc. eapply anc_up; [exact Hs|exact Hp|].
    eapply ancestor_back; [|exact Hanc1]. by apply escalate1_parents.
Qed.

Lemma store_states s p v w :
  w_states (snd ((c <- copy_of s ;; write_field c p v ;;; ret true) w)) = w_states w.
Proof.
  unfold bind at 1. destruct (copy_of s w) as [[c|e] w0] eqn:Hc;
    apply copy_of_inv in Hc as [-> _]; [|done].
  unfold bind, ret. pose proof (write_field_states c p v w) as Hw.
  by destruct (write_field c p v w) as [[[]|e] w2].
Qed.

Lemma set_states (Q : gmap sid state -> Prop) s p v w :
  Q (w_states w) -> Q (w_states (snd (markChanged s w))) ->
  Q (w_states (snd (set s p v w))).
Proof.
  intros Hsame Hmark. unfold set. unfold bind at 1.
  destruct (read_state s w) as [[st|e] w0] eqn:Hr;
    apply read_state_inv in Hr as [-> Hs]; [|done].
  destruct (modified st); [by rewrite store_states|].
  unfold bind at 1, in_field at 1, gets. unfold bind at 1, read_field at 1, gets.
  match goal with |- context [if ?b then _ else _] => destruct b end; [done|].
  unfold bind at 1.
  destruct (markChanged s w) as [[[]|e] w1]; [|done]. by rewrite store_states.
Qed.

(** X2.  An escalation touches the path to the root and nothing else: after
    [markChanged], a write or a delete on a state, every state that is
    neither that state nor one of its ancestors is the record it was. *)
Theorem X2_write_path_only (w : world) (s x : sid) :
  x ≠ s -> ~ ancestor w x s ->
  w_states (snd (markChanged s w)) !! x = w_states w !! x
  /\ (forall p v, w_states (snd (set s p v w)) !! x = w_states w !! x)
  /\ (forall p, w_states (snd (deleteProperty s p w)) !! x = w_states w !! x).
Proof.
  intros Hne Hanc.
  assert (Hmark : w_states (snd (markChanged s w)) !! x = w_states w !! x)
    by (by apply markChanged_fuel_off_path).
  split; [done|]. split.
  - intros p v. by apply (set_states (fun m => m !! x = w_states w !! x)).
  - intros p. by rewrite deleteProperty_states.
Qed.

(** The example store after the producer read [draft.a] and [draft.c]: two
    child drafts, siblings. *)
Definition ex_sibling_world : world :=
  mk_world ex_heap
    (<[1%positive := mk_state false false None 1%positive None
                       (<[PKey "a" := VProxy 2%positive]> {[PKey "c" := VProxy 3%positive]})]>
       (<[2%positive := createState (Some 1%positive) 2%positive]>
          {[3%positive := createState (Some 1%positive) 3%positive]}))
    (<[1%positive := false]> (<[2%positive := false]> {[3%positive := false]}))
    (Some [1%positive; 2%positive; 3%positive]).

Lemma ex_sibling_off_path : ~ ancestor ex_sibling_world 3%positive 2%positive.
Proof.
  assert (Hroot : forall st p, w_states ex_sibling_world !! 1%positive = Some st ->
                    parent st = Some p -> False).
  { intros st p Hs Hp. unfold ex_sibling_world in Hs. simpl in Hs.
    rewrite lookup_insert_eq in Hs. injection Hs as <-. done. }
  assert (Hchild : forall st p, w_states ex_sibling_world !! 2%positive = Some st ->
                     parent st = Some p -> p = 1%positive).
  { intros st p Hs Hp. unfold ex_sibling_world in Hs. simpl in Hs.
    rewrite lookup_insert_ne, lookup_insert_eq in Hs by done. injection Hs as <-.
    simpl in Hp. congruence. }
  intros Hanc. inversion Hanc as [s st p Hs Hp|s st p a Hs Hp Hup]; subst.
  - by pose proof (Hchild _ _ Hs Hp).
  - rewrite (Hchild _ _ Hs Hp) in Hup.
    inversion Hup as [s' st' p' Hs' Hp'|s' st' p' a' Hs' Hp' _]; subst; by eapply Hroot.
Qed.

Lemma X2_write_path_only_witness :
  w_states (snd (set 2%positive (PKey "b") (VNum 2) ex_sibling_world)) !! 3%positive
  = w_states ex_sibling_world !! 3%positive.
Proof.
  destruct (X2_write_path_only ex_sibling_world 2%positive 3%positive) as (_ & H & _);
    [done|exact ex_sibling_off_path|].
  apply H.
Defined.

(** ** More on reads and writes: what they leave alone *)

(** The stores a read can end in. *)
Lemma get_world (Q : world -> Prop) s p w :
  Q w ->
  (forall st l, w_states w !! s = Some st -> Q (snd (createProxy (Some s) l w))) ->
  (forall st c l d, w_states w !! s = Some st -> modified st = true -> copy st = Some c ->
     Q (snd (write_field c p d (snd (createProxy (Some s) l w))))) ->
  (forall st l d, w_states w !! s = Some st -> modified st = false ->
     Q (snd (update_state s (fun st' => set_proxies (<[p := d]> (proxies st')) st')
               (snd (createProxy (Some s) l w))))) ->
  Q (snd (get s p w)).
Proof.
  intros Hsame Hchild Hwrite Hcache.
  unfold get. destruct (decide (p = PROXY_STATE)); [done|].
  unfold bind at 1. destruct (read_state s w) as [[st|e] w0] eqn:Hr;
    apply read_state_inv in Hr as [-> Hs]; [|done].
  destruct (modified st) eqn:Hm.
  - unfold bind at 1. destruct (copy_of s w) as [[c|e] w0] eqn:Hc;
      apply copy_of_inv in Hc as [-> Hc]; [|done].
    destruct Hc as (st0 & Hs0 & Hc). assert (st0 = st) as -> by congruence.
    unfold bind at 1, read_field at 1, gets. unfold bind at 1, read_field at 1, gets.
    unfold bind at 1.
    destruct (get_property (obj_at w c) p) as [| | | | | |l| | |[kd|kd nm]]; try done;
      [|by destruct (strict_eq _ _)].
    destruct (strict_eq (VObj l) (get_property (obj_at w (base st)) p)
              && isProxyable w (VObj l)); [|done].
    pose proof (Hchild st l Hs) as H1. pose proof (fun d => Hwrite st c l d Hs Hm Hc) as H2.
    unfold bind at 1. destruct (createProxy (Some s) l w) as [[d|e] w1]; [|done].
    specialize (H2 d). simpl in H2.
    unfold bind, ret. by destruct (write_field c p d w1) as [[[]|e] w2].
  - destruct (has (proxies st) p); [done|].
    unfold bind at 1, read_field at 1, gets. unfold bind at 1.
    destruct (get_property (obj_at w (base st)) p) as [| | | | | |l| | |[kd|kd nm]];
      try done.
    destruct (negb (isProxy (VObj l)) && isProxyable w (VObj l)); [|done].
    pose proof (Hchild st l Hs) as H1. pose proof (fun d => Hcache st l d Hs Hm) as H2.
    unfold bind at 1. destruct (createProxy (Some s) l w) as [[d|e] w1]; [|done].
    unfold cache_write. destruct (bool_decide (p = PKey "__proto__")); [done|].
    unfold bind, ret. simpl. apply H2.
Qed.







Lemma store_heap s p v w l :
  (forall st, w_states w !! s = Some st -> copy st ≠ Some l) ->
  w_heap (snd ((c <- copy_of s ;; write_field c p v ;;; ret true) w)) !! l = w_heap w !! l.
Proof.
  intros Hl. unfold bind at 1. destruct (copy_of s w) as [[c|e] w0] eqn:Hc;
    apply copy_of_inv in Hc as [-> Hc]; [|done].
  destruct Hc as (st & Hs & Hc).
  assert (Hw : w_heap (snd (write_field c p v w)) !! l = w_heap w !! l).
  { apply write_field_other. intros ->. by apply (Hl st). }
  unfold bind, ret. by destruct (write_field c p v w) as [[[]|e] w2].
Qed.

(** After [markChanged] on a state, an object that was in the heap and is
    not the copy of the state is as it was, and is still not the copy of the
    state. *)
Lemma markChanged_other_objects s st w l :
  w_states w !! s = Some st -> is_Some (w_heap w !! l) -> copy st ≠ Some l ->
  w_heap (snd (markChanged s w)) !! l = w_heap w !! l
  /\ forall st', w_states (snd (markChanged s w)) !! s = Some st' -> copy st' ≠ Some l.
Proof.
  intros Hs Hl Hc.
  assert (Hdom : l ∈ dom (w_heap w)) by (by apply elem_of_dom).
  split.
  - apply (ev_heap _ _ (escalates_evolves _ _ (markChanged_escalates s w))), Hdom.
  - destruct (modified st) eqn:Hm.
    + unfold markChanged. rewrite markChanged_fuel_S, Hs, Hm. simpl. congruence.
    + pose proof (escalates_evolves _ _ (markChanged_first s st w Hs Hm)) as Hev.
      assert (Hs1 : w_states (escalate1 s st w) !! s
         = Some (mk_state true (finalized st) (parent st) (base st)
                   (Some (fresh (dom (w_heap w)))) (proxies st))) by apply lookup_insert_eq.
      destruct (ev_states _ _ Hev _ _ Hs1) as (st1 & Hst1 & _ & _ & _ & _ & Hsame).
      rewrite (Hsame eq_refl) in Hst1. intros st' Hs'. rewrite Hst1 in Hs'.
      injection Hs' as <-. simpl. intros [= Heq]. apply (fresh_loc_fresh w). by rewrite Heq.
Qed.

Lemma set_other_objects s st p v w l :
  w_states w !! s = Some st -> is_Some (w_heap w !! l) -> copy st ≠ Some l ->
  w_heap (snd (set s p v w)) !! l = w_heap w !! l.
Proof.
  intros Hs Hl Hc. unfold set. unfold bind at 1, read_state at 1. rewrite Hs.
  destruct (modified st).
  { apply store_heap. intros st0 Hs0. congruence. }
  unfold bind at 1, in_field at 1, gets. unfold bind at 1, read_field at 1, gets.
  match goal with |- context [if ?b then _ else _] => destruct b end; [done|].
  destruct (markChanged_other_objects s st w l Hs Hl Hc) as [Hheap Hcopy].
  unfold bind at 1. destruct (markChanged s w) as [[[]|e] w1]; simpl in *; [|done].
  by rewrite store_heap.
Qed.

Lemma deleteProperty_other_objects s st p w l :
  w_states w !! s = Some st -> is_Some (w_heap w !! l) -> copy st ≠ Some l ->
  w_heap (snd (deleteProperty s p w)) !! l = w_heap w !! l.
Proof.
  intros Hs Hl Hc. unfold deleteProperty.
  destruct (markChanged_other_objects s st w l Hs Hl Hc) as [Hheap Hcopy].
  unfold bind at 1. destruct (markChanged s w) as [[[]|e] w1]; simpl in *; [|done].
  unfold bind at 1. destruct (copy_of s w1) as [[c|e] w0] eqn:Hcp;
    apply copy_of_inv in Hcp as [-> Hcp]; [|done].
  destruct Hcp as (st' & Hs' & Hc').
  assert (Hd : w_heap (snd (delete_field c p w1)) !! l = w_heap w1 !! l).
  { apply delete_field_other. intros ->. by apply (Hcopy st'). }
  unfold bind, ret. destruct (delete_field c p w1) as [[[]|e] w2]; simpl in *; congruence.
Qed.

Lemma get_other_objects s st p w l :
  w_states w !! s = Some st -> is_Some (w_heap w !! l) -> copy st ≠ Some l ->
  w_heap (snd (get s p w)) !! l = w_heap w !! l.
Proof.
  intros Hs Hl Hc. apply get_world.
  - done.
  - intros _ l0 _. by rewrite createProxy_heap.
  - intros st0 c l0 d Hs0 _ Hc0. rewrite write_field_other, createProxy_heap; [done|].
    intros ->. congruence.
  - intros _ l0 d _ _. simpl. by rewrite createProxy_heap.
Qed.

(** X3.  Of the objects that are in the heap, a trap writes to one at most:
    the copy of the state it is called on.  After a read, a write or a
    delete on a state, every other object that was there has the entries it
    had (what else they change is at new addresses). *)
Theorem X3_only_own_copy_written (w : world) (s : sid) (st : state) (l : loc) :
  w_states w !! s = Some st -> is_Some (w_heap w !! l) -> copy st ≠ Some l ->
  (forall p, w_heap (snd (get s p w)) !! l = w_heap w !! l)
  /\ (forall p v, w_heap (snd (set s p v w)) !! l = w_heap w !! l)
  /\ (forall p, w_heap (snd (deleteProperty s p w)) !! l = w_heap w !! l).
Proof.
  intros Hs Hl Hc. split; [|split]; intros p.
  - by eapply get_other_objects.
  - intros v. by eapply set_other_objects.
  - by eapply deleteProperty_other_objects.
Qed.

Lemma X3_only_own_copy_written_witness :
  w_heap (snd (set 2%positive (PKey "b") (VNum 2) ex_sibling_world)) !! 2%positive
  = w_heap ex_sibling_world !! 2%positive.
Proof.
  destruct (X3_only_own_copy_written ex_sibling_world 2%positive
              (createState (Some 1%positive) 2%positive) 2%positive) as (_ & H & _);
    [reflexivity|vm_compute; eauto|done|].
  apply H.
Defined.

(** ** How the traps compose *)

(** On a store whose parent pointers lead to states, and for a state that has
    a copy if it is modified, [markChanged] returns and the state is then
    modified with a copy: the copy it had, or a new shallow copy. *)
Lemma markChanged_ready w s st :
  tree_ok w -> w_states w !! s = Some st ->
  (modified st = true -> is_Some (copy st)) ->
  exists wm st' c,
    markChanged s w = (Ok tt, wm)
    /\ w_states wm !! s = Some st' /\ modified st' = true /\ copy st' = Some c
    /\ proxies st' = proxies st /\ base st' = base st
    /\ w_proxies wm = w_proxies w
    /\ (modified st = true -> wm = w /\ st' = st)
    /\ (modified st = false -> w_heap w !! c = None
                               /\ w_heap wm !! c = Some (shallow_copy_of w st)).
Proof.
  intros Hok Hs Hcopy.
  destruct (markChanged_closes s w Hok (mk_is_Some _ _ Hs)) as (Hfst & _ & _).
  destruct (modified st) eqn:Hm.
  - destruct (Hcopy eq_refl) as [c Hc]. exists w, st, c.
    unfold markChanged in *. rewrite markChanged_fuel_S, Hs, Hm. by repeat split.
  - pose proof (escalates_evolves _ _ (markChanged_first s st w Hs Hm)) as Hev.
    assert (Hs1 : w_states (escalate1 s st w) !! s
       = Some (mk_state true (finalized st) (parent st) (base st)
                 (Some (fresh (dom (w_heap w)))) (proxies st))) by apply lookup_insert_eq.
    destruct (ev_states _ _ Hev _ _ Hs1) as (st1 & Hst1 & _ & _ & _ & _ & Hsame).
    rewrite (Hsame eq_refl) in Hst1.
    assert (Hc : w_heap (snd (markChanged s w)) !! fresh (dom (w_heap w))
                 = Some (shallow_copy_of w st)).
    { rewrite (ev_heap _ _ Hev); simpl; [by rewrite lookup_insert_eq|].
      apply elem_of_dom. rewrite lookup_insert_eq. eauto. }
    pose proof (ev_proxies _ _ Hev) as Hreg.
    destruct (markChanged s w) as [r wm]. simpl in *. subst r.
    eexists wm, _, _. split; [done|]. split; [exact Hst1|].
    repeat split; try done.
    apply not_elem_of_dom, fresh_loc_fresh.
Qed.

Lemma has_trap_eval s st q w :
  w_states w !! s = Some st ->
  has_trap s q w =
  match (if modified st then copy st else Some (base st)) with
  | Some l => (Ok (has_property (obj_at w l) q), w)
  | None => (Throw (TypeError "cannot use in on undefined"), w)
  end.
Proof.
  intros Hs. unfold has_trap, source, bind, read_state. rewrite Hs. simpl.
  by destruct (if modified st then copy st else Some (base st)).
Qed.

(** *** Keys that are data *)

(** A key that is no member of the prototypes (so not [__proto__]) and not
    [length]: on every object of the model it names an entry and nothing
    else. *)
Definition data_key (k : string) : Prop := not_inherited (PKey k) /\ k <> "length".

Lemma data_key_proto k : data_key k -> k <> "__proto__".
Proof. intros [Hn _] ->. vm_compute in Hn. discriminate Hn. Qed.

Lemma array_length_inv o n :
  array_length o = Some n ->
  fields o !! PKey "length" = Some (VNum n)
  /\ map_Forall (fun p _ => below n p) (fields o).
Proof.
  unfold array_length. intros Hn.
  destruct (kind o); try done.
  destruct (fields o !! PKey "length") as [[]|] eqn:Hl; try done.
  destruct (bool_decide (0 <= z < 2 ^ 32)%Z); [|done]. simpl in Hn.
  destruct (bool_decide (map_Forall _ _)) eqn:Hall; [|done].
  apply bool_decide_eq_true_1 in Hall. by simplify_eq.
Qed.

Lemma array_length_valid o n : array_length o = Some n -> to_array_length (VNum n) = LenOk n.
Proof.
  unfold array_length. intros Hn.
  destruct (kind o); try done.
  destruct (fields o !! PKey "length") as [[]|] eqn:Hl; try done.
  destruct (bool_decide (0 <= z < 2 ^ 32)%Z) eqn:Hz; [|done]. simpl in Hn.
  destruct (bool_decide (map_Forall _ _)); [|done]. simplify_eq.
  unfold to_array_length. by rewrite Hz.
Qed.

(** Assigning to an entry other than [length] replaces it. *)
Lemma assign_present o p x v :
  fields o !! p = Some x -> p <> PKey "length" ->
  assign o p v = Ok (mk_obj (kind o) (<[p := v]> (fields o))).
Proof.
  intros Hp Hne.
  assert (Hord : assign_ordinary o p v = Ok (mk_obj (kind o) (<[p := v]> (fields o)))).
  { unfold assign_ordinary. rewrite Hp.
    rewrite (bool_decide_eq_true_2 (is_Some (Some x))) by eauto.
    by rewrite andb_false_r. }
  unfold assign. destruct (array_length o) as [n|] eqn:Hn; [|done].
  destruct (array_length_inv _ _ Hn) as [_ Hall].
  rewrite bool_decide_eq_false_2 by done.
  pose proof (Hall _ _ Hp) as Hb. apply Is_true_true_1 in Hb.
  unfold below in Hb. destruct (array_index p) as [i|]; [|done].
  apply bool_decide_eq_true_1 in Hb.
  by rewrite bool_decide_eq_false_2 by lia.
Qed.

(** What an assignment at a data key makes of an object: the key holds the
    value, the other entries are kept, but for the [length] of an array,
    which may have moved. *)
Definition written (k : string) (v : value) (o o' : obj) : Prop :=
  kind o' = kind o
  /\ fields o' !! PKey k = Some v
  /\ (forall q, q <> PKey k -> q <> PKey "length" -> fields o' !! q = fields o !! q)
  /\ (forall q, q <> PKey k -> is_Some (fields o' !! q) <-> is_Some (fields o !! q)).

Lemma written_insert k v o : written k v o (mk_obj (kind o) (<[PKey k := v]> (fields o))).
Proof.
  split; [done|]. simpl. split; [apply lookup_insert_eq|]. split.
  - intros q Hq _. by rewrite lookup_insert_ne.
  - intros q Hq. by rewrite lookup_insert_ne.
Qed.

Lemma assign_data o k v :
  data_key k -> exists o', assign o (PKey k) v = Ok o' /\ written k v o o'.
Proof.
  intros Hdk. pose proof (data_key_proto k Hdk) as Hproto. destruct Hdk as [_ Hlen].
  assert (Hord : assign_ordinary o (PKey k) v
                 = Ok (mk_obj (kind o) (<[PKey k := v]> (fields o)))).
  { unfold assign_ordinary. by rewrite bool_decide_eq_false_2 by congruence. }
  unfold assign. destruct (array_length o) as [n|] eqn:Hn.
  2:{ eexists. split; [exact Hord|apply written_insert]. }
  rewrite bool_decide_eq_false_2 by congruence.
  destruct (array_index (PKey k)) as [i|].
  2:{ eexists. split; [exact Hord|apply written_insert]. }
  destruct (bool_decide (n <= i)%Z).
  2:{ eexists. split; [reflexivity|apply written_insert]. }
  eexists. split; [reflexivity|]. split; [done|]. simpl. split; [|split].
  - rewrite lookup_insert_ne by congruence. apply lookup_insert_eq.
  - intros q Hq Hql. by rewrite !lookup_insert_ne.
  - intros q Hq. destruct (decide (q = PKey "length")) as [->|Hql].
    + rewrite lookup_insert_eq. destruct (array_length_inv _ _ Hn) as [-> _]. split; eauto.
    + by rewrite !lookup_insert_ne.
Qed.

Lemma remove_data o k :
  k <> "length" -> remove o (PKey k) = Ok (mk_obj (kind o) (delete (PKey k) (fields o))).
Proof. intros Hk. unfold remove. by rewrite bool_decide_eq_false_2 by congruence. Qed.

Lemma obj_at_put c o w : obj_at (put_obj c o w) c = o.
Proof. unfold obj_at. simpl. by rewrite lookup_insert_eq. Qed.

Lemma write_field_data c k v w :
  data_key k ->
  exists o', write_field c (PKey k) v w = (Ok tt, put_obj c o' w)
             /\ written k v (obj_at w c) o'.
Proof.
  intros Hdk. destruct (assign_data (obj_at w c) k v Hdk) as (o' & Ha & Hw).
  exists o'. split; [|done]. by rewrite write_field_eq, Ha.
Qed.

Lemma has_property_written k v o o' q :
  written k v o o' -> q <> PKey k -> has_property o' q = has_property o q.
Proof.
  intros (Hk & _ & _ & Hiff) Hq. unfold has_property. rewrite Hk. f_equal.
  apply bool_decide_ext, Hiff, Hq.
Qed.

Lemma createProxy_ok ps l w reg :
  w_proxies w = Some reg ->
  createProxy ps l w = (Ok (VProxy (fresh (dom (w_states w)))), snd (createProxy ps l w)).
Proof. intros Hreg. unfold createProxy. simpl. by rewrite Hreg. Qed.

Lemma createProxy_obj_at ps l w c : obj_at (snd (createProxy ps l w)) c = obj_at w c.
Proof. unfold obj_at. by rewrite createProxy_heap. Qed.

(** Reading, on a modified state, a key at which the copy holds [v]: the read
    returns [v], or a new draft of [v] when [v] is a container that the base
    holds at this key too. *)
Lemma get_reads_copy w s st c k v reg :
  w_states w !! s = Some st -> modified st = true -> copy st = Some c ->
  fields (obj_at w c) !! PKey k = Some v -> (forall kd, v <> VBuiltin (BProto kd)) ->
  w_proxies w = Some reg ->
  exists r w2, get s (PKey k) w = (Ok r, w2)
    /\ (r = v \/ exists l d, v = VObj l /\ r = VProxy d
                  /\ w_states w2 !! d = Some (createState (Some s) l)).
Proof.
  intros Hs Hm Hc Hv Hnp Hreg. unfold get. rewrite decide_False by done.
  unfold bind at 1, read_state at 1. rewrite Hs, Hm.
  unfold bind at 1, copy_of at 1, bind at 1, read_state at 1. rewrite Hs, Hc.
  unfold ret at 1. unfold bind at 1, read_field at 1, gets.
  rewrite (get_property_own _ _ _ Hv).
  unfold bind at 1, read_field at 1, gets. unfold bind at 1.
  destruct v as [| | | | | |l| | |[kd|kd nm]];
    try (eexists _, _; split; [reflexivity|by left]); [|by destruct (Hnp kd)].
  destruct (strict_eq (VObj l) (get_property (obj_at w (base st)) (PKey k))
            && isProxyable w (VObj l)).
  - unfold bind at 1. rewrite (createProxy_ok _ _ _ _ Hreg).
    unfold bind at 1.
    rewrite (write_field_entry c (PKey k) (VObj l)); [|by rewrite createProxy_obj_at|done].
    eexists _, _. split; [reflexivity|]. right. exists l, (fresh (dom (w_states w))).
    repeat split. simpl. rewrite createProxy_states. apply lookup_insert_eq.
  - eexists _, _. split; [reflexivity|by left].
Qed.

Lemma is_true_eq a b : is_ a b = true -> a = b.
Proof. unfold is_. apply bool_decide_eq_true_1. Qed.

(** Every entry of the cache of a state is a draft of the container that the
    base holds at that key. *)
Definition cache_ok (w : world) (st : state) : Prop :=
  forall k x, proxies st !! k = Some x ->
    exists l d dst, fields (obj_at w (base st)) !! k = Some (VObj l) /\ x = VProxy d
                    /\ w_states w !! d = Some dst /\ base dst = l.

(** X5.  A read after a write sees the write.  During a call, in a store
    whose parent pointers lead to states, on a state with a sound cache (and
    a copy if it is modified), for a data key (no member of the prototypes,
    not [length]) and a value that is not a prototype object: [set] of [v]
    at the key succeeds, and [get] of the key then returns [v] -- or, when
    [v] is the very container the base holds at this key, a draft of [v]. *)
Theorem X5_read_your_write (w : world) (s : sid) (st : state) (k : string) (v : value)
    (reg : list sid) :
  data_key k -> (forall kd, v <> VBuiltin (BProto kd)) ->
  tree_ok w -> w_states w !! s = Some st ->
  (modified st = true -> is_Some (copy st)) ->
  cache_ok w st -> w_proxies w = Some reg ->
  exists w1 r w2,
    set s (PKey k) v w = (Ok true, w1)
    /\ get s (PKey k) w1 = (Ok r, w2)
    /\ (r = v \/ exists l d dst, v = VObj l /\ r = VProxy d
                   /\ w_states w2 !! d = Some dst /\ base dst = l).
Proof.
  intros Hdk Hnp Hok Hs Hcopy Hcache Hreg.
  pose proof (data_key_proto k Hdk) as Hproto.
  assert (Hland : forall w1 st1 c, w_states w1 !! s = Some st1 -> modified st1 = true ->
            copy st1 = Some c -> w_proxies w1 = Some reg ->
            exists w1' r w2,
              (c0 <- copy_of s ;; write_field c0 (PKey k) v ;;; ret true) w1 = (Ok true, w1')
              /\ get s (PKey k) w1' = (Ok r, w2)
              /\ (r = v \/ exists l d dst, v = VObj l /\ r = VProxy d
                             /\ w_states w2 !! d = Some dst /\ base dst = l)).
  { intros w1 st1 c Hs1 Hm1 Hc1 Hreg1.
    destruct (write_field_data c k v w1 Hdk) as (o' & Hw & _ & Hk & _).
    destruct (get_reads_copy (put_obj c o' w1) s st1 c k v reg)
      as (r & w2 & Hget & Hr); try done.
    { by rewrite obj_at_put. }
    exists (put_obj c o' w1), r, w2. split; [|split; [done|]].
    - unfold bind at 1, copy_of at 1, bind at 1, read_state at 1. rewrite Hs1, Hc1.
      unfold ret at 1. unfold bind. by rewrite Hw.
    - destruct Hr as [->|(l & d & -> & -> & Hd)]; [by left|].
      right. exists l, d, (createState (Some s) l). by repeat split. }
  unfold set. unfold bind at 1, read_state at 1. rewrite Hs.
  destruct (modified st) eqn:Hm.
  - destruct (Hcopy eq_refl) as [c Hc]. by apply (Hland w st c).
  - unfold bind at 1, in_field at 1, gets. unfold bind at 1, read_field at 1, gets.
    rewrite has_property_not_inherited, get_property_not_inherited by apply Hdk.
    destruct ((bool_decide (is_Some (fields (obj_at w (base st)) !! PKey k))
               && is_ (default VUndefined (fields (obj_at w (base st)) !! PKey k)) v)
              || (has (proxies st) (PKey k)
                  && strict_eq (default VUndefined (proxies st !! PKey k)) v)) eqn:Hnoop.
    + (* the write is a no-op: the read goes through the cache or the base *)
      exists w. unfold ret at 1.
      destruct (proxies st !! PKey k) as [x|] eqn:Hx.
      * exists x, w. split; [done|]. split.
        { unfold get. rewrite decide_False by done.
          unfold bind at 1, read_state at 1. by rewrite Hs, Hm, (has_Some _ _ _ Hx), Hx. }
        rewrite (has_Some _ _ _ Hx) in Hnoop. simpl in Hnoop.
        apply orb_prop in Hnoop as [Hbase|Hsame].
        -- apply andb_prop in Hbase as [_ Hbase]. apply is_true_eq in Hbase.
           destruct (Hcache _ _ Hx) as (l & d & dst & Hl & -> & Hd & Hb).
           rewrite Hl in Hbase. simpl in Hbase. subst v.
           right. exists l, d, dst. by repeat split.
        -- left. by apply strict_eq_true in Hsame.
      * rewrite (has_None _ _ Hx) in Hnoop. simpl in Hnoop. rewrite orb_false_r in Hnoop.
        apply andb_prop in Hnoop as [_ Hbase]. apply is_true_eq in Hbase.
        unfold get. rewrite decide_False by done.
        unfold bind at 1, read_state at 1. rewrite Hs, Hm, (has_None _ _ Hx).
        unfold bind at 1, read_field at 1, gets.
        rewrite get_property_not_inherited by apply Hdk. rewrite Hbase.
        unfold bind at 1.
        destruct v as [| | | | | |l| | |[kd|kd nm]];
          try (eexists _, _; split; [done|]; split; [reflexivity|by left]);
          [|by destruct (Hnp kd)].
        destruct (negb (isProxy (VObj l)) && isProxyable w (VObj l)).
        -- unfold bind at 1. rewrite (createProxy_ok _ _ _ _ Hreg).
           unfold cache_write. rewrite bool_decide_eq_false_2 by congruence.
           eexists _, _. split; [done|]. split; [reflexivity|]. right.
           exists l, (fresh (dom (w_states w))), (createState (Some s) l).
           repeat split. simpl. rewrite lookup_alter_ne, createProxy_states, lookup_insert_eq;
             [done|].
           intros Heq. rewrite Heq in Hs. by rewrite fresh_sid_fresh in Hs.
        -- eexists _, _. split; [done|]. split; [reflexivity|by left].
    + (* the write escalates *)
      destruct (markChanged_ready w s st Hok Hs)
        as (wm & st' & c & Hmark & Hs' & Hm' & Hc' & _ & _ & Hregm & _); [congruence|].
      destruct (Hland wm st' c Hs' Hm' Hc') as (w1' & r & w2 & Hset & Hget & Hr);
        [congruence|].
      exists w1', r, w2. split; [|by split].
      unfold bind at 1. by rewrite Hmark.
Qed.

Lemma ex_child_cache_ok :
  cache_ok ex_child_world
    (mk_state false false None 1%positive None {[PKey "a" := VProxy 2%positive]}).
Proof.
  intros k x Hk. simpl in Hk. apply lookup_singleton_Some in Hk as [<- <-].
  exists 2%positive, 2%positive, (createState (Some 1%positive) 2%positive).
  repeat split; reflexivity.
Qed.

Lemma X5_read_your_write_witness :
  exists w1 r w2,
    set 1%positive (PKey "c") (VNum 7) ex_child_world = (Ok true, w1)
    /\ get 1%positive (PKey "c") w1 = (Ok r, w2)
    /\ (r = VNum 7 \/ exists l d dst, VNum 7 = VObj l /\ r = VProxy d
                        /\ w_states w2 !! d = Some dst /\ base dst = l).
Proof.
  apply (X5_read_your_write ex_child_world 1%positive
           (mk_state false false None 1%positive None {[PKey "a" := VProxy 2%positive]})
           "c" (VNum 7) [1%positive; 2%positive]).
  - split; [reflexivity|discriminate].
  - discriminate.
  - exact ex_child_world_tree_ok.
  - reflexivity.
  - discriminate.
  - exact ex_child_cache_ok.
  - reflexivity.
Defined.

(** X6.  A delete is seen by what follows.  In a store whose parent pointers
    lead to states, on a state that has a copy if it is modified, for a data
    key (no member of the prototypes, not [length]): [deleteProperty]
    succeeds, the [has] trap then answers false for the key and [get] of the
    key returns undefined, without changing the store, whatever the base
    holds at that key. *)
Theorem X6_delete_then_absent (w : world) (s : sid) (st : state) (k : string) :
  data_key k ->
  tree_ok w -> w_states w !! s = Some st ->
  (modified st = true -> is_Some (copy st)) ->
  exists w1,
    deleteProperty s (PKey k) w = (Ok true, w1)
    /\ has_trap s (PKey k) w1 = (Ok false, w1)
    /\ get s (PKey k) w1 = (Ok VUndefined, w1).
Proof.
  intros Hdk Hok Hs Hcopy.
  destruct (markChanged_ready w s st Hok Hs Hcopy)
    as (wm & st' & c & Hmark & Hs' & Hm' & Hc' & _).
  pose (w1 := put_obj c (mk_obj (kind (obj_at wm c)) (delete (PKey k) (fields (obj_at wm c)))) wm).
  assert (Hdel : delete_field c (PKey k) wm = (Ok tt, w1)).
  { rewrite delete_field_eq, remove_data; [done|apply Hdk]. }
  assert (Hs1 : w_states w1 !! s = Some st') by done.
  assert (Hk : fields (obj_at w1 c) !! PKey k = None).
  { unfold w1. rewrite obj_at_put. simpl. apply lookup_delete_eq. }
  exists w1. split; [|split].
  - unfold deleteProperty. unfold bind at 1. rewrite Hmark.
    unfold bind at 1, copy_of at 1, bind at 1, read_state at 1. rewrite Hs', Hc'.
    unfold ret at 1. unfold bind. by rewrite Hdel.
  - rewrite (has_trap_eval s st' _ w1 Hs1), Hm', Hc'.
    rewrite has_property_not_inherited by apply Hdk. rewrite Hk.
    rewrite bool_decide_eq_false_2; [done|]. by intros [? ?].
  - unfold get. rewrite decide_False by done.
    unfold bind at 1, read_state at 1. rewrite Hs1, Hm'.
    unfold bind at 1, copy_of at 1, bind at 1, read_state at 1. rewrite Hs1, Hc'.
    unfold ret at 1. unfold bind at 1, read_field at 1, gets.
    rewrite get_property_not_inherited by apply Hdk. rewrite Hk. done.
Qed.

Lemma X6_delete_then_absent_witness :
  exists w1,
    deleteProperty 2%positive (PKey "b") ex_child_world = (Ok true, w1)
    /\ has_trap 2%positive (PKey "b") w1 = (Ok false, w1)
    /\ get 2%positive (PKey "b") w1 = (Ok VUndefined, w1).
Proof.
  apply (X6_delete_then_absent ex_child_world 2%positive
           (createState (Some 1%positive) 2%positive) "b").
  - split; [reflexivity|discriminate].
  - exact ex_child_world_tree_ok.
  - reflexivity.
  - discriminate.
Defined.

(** The three ways [set] goes at a data key, in a store whose parent pointers
    lead to states: a write into the copy the state has, a no-op, or an
    escalation followed by a write into the new copy. *)
Lemma set_outcome w s st k v :
  data_key k ->
  tree_ok w -> w_states w !! s = Some st ->
  (modified st = true -> is_Some (copy st)) ->
  (modified st = true
   /\ exists c o', copy st = Some c /\ set s (PKey k) v w = (Ok true, put_obj c o' w)
                   /\ written k v (obj_at w c) o')
  \/ (modified st = false /\ set s (PKey k) v w = (Ok true, w)
      /\ (fields (obj_at w (base st)) !! PKey k = Some v \/ proxies st !! PKey k = Some v))
  \/ (modified st = false
      /\ exists wm st' c o',
           set s (PKey k) v w = (Ok true, put_obj c o' wm)
           /\ markChanged s w = (Ok tt, wm)
           /\ w_states wm !! s = Some st' /\ modified st' = true /\ copy st' = Some c
           /\ w_heap w !! c = None
           /\ w_heap wm !! c = Some (shallow_copy_of w st)
           /\ written k v (shallow_copy_of w st) o').
Proof.
  intros Hdk Hok Hs Hcopy.
  destruct (markChanged_ready w s st Hok Hs Hcopy)
    as (wm & st' & c & Hmark & Hs' & Hm' & Hc' & _ & _ & _ & Hold & Hnew).
  assert (Hstore : forall w0 st0, w_states w0 !! s = Some st0 -> copy st0 = Some c ->
            exists o', (c0 <- copy_of s ;; write_field c0 (PKey k) v ;;; ret true) w0
                       = (Ok true, put_obj c o' w0)
                       /\ written k v (obj_at w0 c) o').
  { intros w0 st0 Hs0 Hc0. destruct (write_field_data c k v w0 Hdk) as (o' & Hw & Hwr).
    exists o'. split; [|done].
    unfold bind at 1, copy_of at 1, bind at 1, read_state at 1. rewrite Hs0, Hc0.
    unfold ret at 1. unfold bind. by rewrite Hw. }
  destruct (modified st) eqn:Hm.
  - left. split; [done|]. destruct (Hold eq_refl) as [-> ->].
    destruct (Hstore w st Hs Hc') as (o' & Hset & Hwr). exists c, o'. split; [done|].
    split; [|done]. unfold set. unfold bind at 1, read_state at 1. by rewrite Hs, Hm.
  - right.
    assert (Hset : set s (PKey k) v w =
      (if (bool_decide (is_Some (fields (obj_at w (base st)) !! PKey k))
           && is_ (default VUndefined (fields (obj_at w (base st)) !! PKey k)) v)
          || (has (proxies st) (PKey k)
              && strict_eq (default VUndefined (proxies st !! PKey k)) v)
       then ret true
       else markChanged s ;;; c <- copy_of s ;; write_field c (PKey k) v ;;; ret true) w).
    { unfold set. unfold bind at 1, read_state at 1. rewrite Hs, Hm.
      unfold bind at 1, in_field at 1, gets. unfold bind at 1, read_field at 1, gets.
      by rewrite has_property_not_inherited, get_property_not_inherited by apply Hdk. }
    rewrite Hset.
    destruct ((bool_decide (is_Some (fields (obj_at w (base st)) !! PKey k))
               && is_ (default VUndefined (fields (obj_at w (base st)) !! PKey k)) v)
              || (has (proxies st) (PKey k)
                  && strict_eq (default VUndefined (proxies st !! PKey k)) v)) eqn:Hnoop.
    + left. split; [done|]. split; [done|].
      apply orb_prop in Hnoop as [H|H]; apply andb_prop in H as [H1 H2].
      * left. apply bool_decide_eq_true_1 in H1 as [x Hx]. rewrite Hx in H2 |- *.
        simpl in H2. apply is_true_eq in H2. by subst.
      * right. apply bool_decide_eq_true_1 in H1 as [x Hx]. rewrite Hx in H2 |- *.
        simpl in H2. apply strict_eq_true in H2. by subst.
    + right. split; [done|].
      destruct (Hnew eq_refl) as [Hfresh Hobj].
      destruct (Hstore wm st' Hs' Hc') as (o' & Hst & Hwr).
      exists wm, st', c, o'. split; [|split; [done|]].
      * unfold bind at 1. by rewrite Hmark.
      * split; [done|]. split; [done|]. split; [done|]. split; [done|]. split; [done|].
        unfold obj_at in Hwr. by rewrite Hobj in Hwr.
Qed.

(** X7.  The first write to a state.  In a store whose parent pointers lead
    to states, on a state that is not modified, writing at a data key a value
    that is neither the one the base holds there nor the one cached there
    succeeds; the state and all its ancestors are then modified, and the copy
    of the state, at a new address, has the kind of the base, the value at
    the key, and at every other key the entry of the base overlaid with the
    cached drafts -- but for the [length] of an array, which the write may
    have moved. *)
Theorem X7_first_write_copy (w : world) (s : sid) (st : state) (k : string) (v : value) :
  data_key k ->
  tree_ok w -> w_states w !! s = Some st -> modified st = false ->
  fields (obj_at w (base st)) !! PKey k <> Some v -> proxies st !! PKey k <> Some v ->
  exists w1 st' c o',
    set s (PKey k) v w = (Ok true, w1)
    /\ w_states w1 !! s = Some st' /\ modified st' = true /\ copy st' = Some c
    /\ w_heap w !! c = None
    /\ w_heap w1 !! c = Some o'
    /\ kind o' = kind (obj_at w (base st))
    /\ fields o' !! PKey k = Some v
    /\ (forall q, q <> PKey k -> q <> PKey "length" ->
          fields o' !! q = (proxies st ∪ fields (obj_at w (base st))) !! q)
    /\ (forall a, a = s \/ ancestor w a s -> is_modified w1 a).
Proof.
  intros Hdk Hok Hs Hm Hbase Hcache.
  destruct (markChanged_closes s w Hok (mk_is_Some _ _ Hs)) as (_ & Hok' & Hmod).
  destruct (set_outcome w s st k v Hdk Hok Hs)
    as [(Hm1 & _)|[(_ & _ & [Hin|Hin])|(_ & wm & st' & c & o' & Hset & Hmark & Hs' & Hm' & Hc'
                                          & Hfresh & Hobj & Hk' & Hv' & Hrest & _)]];
    [congruence|congruence|done|done|].
  rewrite Hmark in Hok', Hmod. simpl in Hok', Hmod.
  exists (put_obj c o' wm), st', c, o'.
  split; [done|]. split; [done|]. split; [done|]. split; [done|]. split; [done|].
  split; [simpl; apply lookup_insert_eq|]. split; [done|]. split; [done|].
  split; [done|].
  intros a Ha. assert (is_modified wm a) as Hma; [|exact Hma].
    destruct Ha as [->|Hanc]; [done|].
    apply (tree_ok_upward_closed _ Hok' s a Hmod).
    eapply ancestor_grows; [|done].
    pose proof (escalates_evolves _ _ (markChanged_escalates s w)) as Hev.
    rewrite Hmark in Hev. by apply evolves_grows.
Qed.
Lemma X7_first_write_copy_witness :
  exists w1 st' c o',
    set 2%positive (PKey "b") (VNum 2) ex_child_world = (Ok true, w1)
    /\ w_states w1 !! 2%positive = Some st' /\ modified st' = true /\ copy st' = Some c
    /\ w_heap ex_child_world !! c = None
    /\ w_heap w1 !! c = Some o'
    /\ kind o' = kind (obj_at ex_child_world 2%positive)
    /\ fields o' !! PKey "b" = Some (VNum 2)
    /\ (forall q, q <> PKey "b" -> q <> PKey "length" ->
          fields o' !! q = (∅ ∪ fields (obj_at ex_child_world 2%positive)) !! q)
    /\ (forall a, a = 2%positive \/ ancestor ex_child_world a 2%positive -> is_modified w1 a).
Proof.
  apply (X7_first_write_copy ex_child_world 2%positive
           (createState (Some 1%positive) 2%positive) "b" (VNum 2)).
  - split; [reflexivity|discriminate].
  - exact ex_child_world_tree_ok.
  - reflexivity.
  - reflexivity.
  - vm_compute. discriminate.
  - discriminate.
Defined.

(** The keys of the cache of a state are keys of its base. *)
Definition cache_in_base (w : world) (st : state) : Prop :=
  forall k x, proxies st !! k = Some x -> is_Some (fields (obj_at w (base st)) !! k).

(** X8.  A write adds its key and touches no other.  In a store whose parent
    pointers lead to states, on a state whose cached keys are keys of its
    base (and that has a copy if it is modified), for a data key (no member
    of the prototypes, not [length]): after [set] at the key the [has] trap
    answers true for the key, and for every other key it answers what it
    answered before -- also when the write made the state switch from its
    base to a copy. *)
Theorem X8_write_keeps_other_keys (w : world) (s : sid) (st : state) (k : string)
    (v : value) :
  data_key k ->
  tree_ok w -> w_states w !! s = Some st ->
  (modified st = true -> is_Some (copy st)) ->
  cache_in_base w st ->
  fst (set s (PKey k) v w) = Ok true
  /\ fst (has_trap s (PKey k) (snd (set s (PKey k) v w))) = Ok true
  /\ (forall q, q <> PKey k ->
        fst (has_trap s q (snd (set s (PKey k) v w))) = fst (has_trap s q w)).
Proof.
  intros Hdk Hok Hs Hcopy Hcache.
  destruct (set_outcome w s st k v Hdk Hok Hs Hcopy)
    as [(Hm & c & o' & Hc & Hset & Hwr)
       |[(Hm & Hset & Hin)
        |(Hm & wm & st' & c & o' & Hset & _ & Hs' & Hm' & Hc' & _ & Hobj & Hwr)]];
    rewrite Hset; simpl fst; simpl snd; (split; [done|]).
  - assert (Hs1 : w_states (put_obj c o' w) !! s = Some st) by done.
    split.
    + rewrite (has_trap_eval s st _ _ Hs1), Hm, Hc, obj_at_put. simpl fst. f_equal.
      destruct Hwr as (_ & Hk & _). by apply (has_property_own _ _ v).
    + intros q Hq. rewrite (has_trap_eval s st _ _ Hs1), (has_trap_eval s st _ _ Hs), Hm, Hc.
      rewrite obj_at_put. simpl fst. f_equal. by eapply has_property_written.
  - split; [|done]. rewrite (has_trap_eval s st _ _ Hs), Hm. cbv beta iota. simpl fst.
    f_equal. destruct Hin as [Hin|Hin].
    + by apply (has_property_own _ _ v).
    + destruct (Hcache _ _ Hin) as [x Hx]. by apply (has_property_own _ _ x).
  - assert (Hs1 : w_states (put_obj c o' wm) !! s = Some st') by done.
    split.
    + rewrite (has_trap_eval s st' _ _ Hs1), Hm', Hc', obj_at_put. simpl fst. f_equal.
      destruct Hwr as (_ & Hk & _). by apply (has_property_own _ _ v).
    + intros q Hq.
      rewrite (has_trap_eval s st' _ _ Hs1), (has_trap_eval s st _ _ Hs), Hm, Hm', Hc'.
      rewrite obj_at_put. cbv beta iota. simpl fst. f_equal.
      rewrite (has_property_written _ _ _ _ _ Hwr Hq).
      unfold has_property, shallow_copy_of. simpl. f_equal.
      apply bool_decide_ext. rewrite lookup_union_is_Some. split; [|by right].
      intros [[x Hx]|Hb]; [by eapply Hcache|done].
Qed.

Lemma ex_child_cache_in_base :
  cache_in_base ex_child_world
    (mk_state false false None 1%positive None {[PKey "a" := VProxy 2%positive]}).
Proof.
  intros k x Hk. destruct (ex_child_cache_ok k x Hk) as (l & _ & _ & Hl & _). eauto.
Qed.

Lemma X8_write_keeps_other_keys_witness :
  fst (set 1%positive (PKey "x") (VNum 1) ex_child_world) = Ok true
  /\ fst (has_trap 1%positive (PKey "x") (snd (set 1%positive (PKey "x") (VNum 1) ex_child_world)))
     = Ok true
  /\ (forall q, q <> PKey "x" ->
        fst (has_trap 1%positive q (snd (set 1%positive (PKey "x") (VNum 1) ex_child_world)))
        = fst (has_trap 1%positive q ex_child_world)).
Proof.
  apply (X8_write_keeps_other_keys ex_child_world 1%positive
           (mk_state false false None 1%positive None {[PKey "a" := VProxy 2%positive]})).
  - split; [reflexivity|discriminate].
  - exact ex_child_world_tree_ok.
  - reflexivity.
  - discriminate.
  - exact ex_child_cache_in_base.
Defined.

(** X9.  On a modified state as well a child draft is made once.  During a
    call, on a modified state whose copy still holds at a key the plain
    container of the base: the first [get] of the key returns a new draft of
    the container and stores it in the copy; the second returns the same
    draft and changes nothing. *)
Theorem X9_modified_child_stable (w : world) (s : sid) (st : state) (c : loc) (k : string)
    (l : loc) (reg : list sid) :
  w_states w !! s = Some st -> modified st = true -> copy st = Some c ->
  fields (obj_at w c) !! PKey k = Some (VObj l) ->
  fields (obj_at w (base st)) !! PKey k = Some (VObj l) ->
  isProxyable w (VObj l) = true ->
  w_proxies w = Some reg ->
  exists d w1,
    get s (PKey k) w = (Ok (VProxy d), w1)
    /\ get s (PKey k) w1 = (Ok (VProxy d), w1)
    /\ w_states w !! d = None
    /\ w_states w1 !! d = Some (createState (Some s) l)
    /\ fields (obj_at w1 c) !! PKey k = Some (VProxy d).
Proof.
  intros Hs Hm Hc Hcopy Hbase Hpa Hreg.
  pose (d := fresh (dom (w_states w))).
  assert (Hd : w_states w !! d = None) by apply fresh_sid_fresh.
  assert (Hne : d ≠ s) by (intros ->; congruence).
  pose proof (createProxy_ok (Some s) l w reg Hreg) as Hcp.
  pose proof (createProxy_keeps (Some s) l w s st Hs) as HsW.
  pose proof (createProxy_states (Some s) l w) as HstW.
  assert (HcW : fields (obj_at (snd (createProxy (Some s) l w)) c) !! PKey k = Some (VObj l))
    by (by rewrite createProxy_obj_at).
  set (W := snd (createProxy (Some s) l w)) in *.
  fold d in Hcp, HstW.
  assert (Hwf : write_field c (PKey k) (VProxy d) W
                = (Ok tt, put_obj c (mk_obj (kind (obj_at W c))
                                       (<[PKey k := VProxy d]> (fields (obj_at W c)))) W))
    by (by apply (write_field_entry c (PKey k) (VObj l))).
  assert (Hget : get s (PKey k) w
                 = (Ok (VProxy d), snd (write_field c (PKey k) (VProxy d) W))).
  { unfold get. rewrite decide_False by done.
    unfold bind at 1, read_state at 1. rewrite Hs, Hm.
    unfold bind at 1, copy_of at 1, bind at 1, read_state at 1. rewrite Hs, Hc.
    unfold ret at 1. unfold bind at 1, read_field at 1, gets.
    rewrite (get_property_own _ _ _ Hcopy).
    unfold bind at 1, read_field at 1, gets. rewrite (get_property_own _ _ _ Hbase).
    unfold bind at 1. rewrite Hpa, strict_eq_refl by done.
    change (true && true) with true. cbv iota.
    unfold bind at 1. rewrite Hcp.
    unfold bind, ret. by rewrite Hwf. }
  set (w1 := snd (write_field c (PKey k) (VProxy d) W)) in *.
  assert (Hs1 : w_states w1 !! s = Some st).
  { unfold w1. by rewrite write_field_states. }
  assert (Hk1 : fields (obj_at w1 c) !! PKey k = Some (VProxy d)).
  { unfold w1. rewrite Hwf. simpl snd. rewrite obj_at_put. simpl. apply lookup_insert_eq. }
  exists d, w1. split; [done|]. split; [|split; [done|split; [|done]]].
  - unfold get. rewrite decide_False by done.
    unfold bind at 1, read_state at 1. rewrite Hs1, Hm.
    unfold bind at 1, copy_of at 1, bind at 1, read_state at 1. rewrite Hs1, Hc.
    unfold ret at 1. unfold bind at 1, read_field at 1, gets.
    rewrite (get_property_own _ _ _ Hk1). done.
  - unfold w1. rewrite write_field_states, HstW. apply lookup_insert_eq.
Qed.

(** The example store after a first write to the root draft: the root is
    modified and its copy still holds the containers of the base. *)
Definition ex_modified_world : world :=
  Eval vm_compute in snd (set 1%positive (PKey "x") (VNum 1) ex_root_world).

Lemma X9_modified_child_stable_witness :
  exists d w1,
    get 1%positive (PKey "a") ex_modified_world = (Ok (VProxy d), w1)
    /\ get 1%positive (PKey "a") w1 = (Ok (VProxy d), w1)
    /\ w_states ex_modified_world !! d = None
    /\ w_states w1 !! d = Some (createState (Some 1%positive) 2%positive)
    /\ fields (obj_at w1 4%positive) !! PKey "a" = Some (VProxy d).
Proof.
  apply (X9_modified_child_stable ex_modified_world 1%positive
           (mk_state true false None 1%positive (Some 4%positive) ∅)
           4%positive "a" 2%positive [1%positive]); reflexivity.
Defined.

(** ** More on [produceProxy]: the registry, error exits, nested calls *)

(** The registry lists, once each, the states made since the call began,
    which had [D0] as states. *)
Definition registry_ok (D0 : gset sid) (w : world) : Prop :=
  exists reg, w_proxies w = Some reg /\ NoDup reg
    /\ dom (w_states w) = D0 ∪ list_to_set reg
    /\ forall d, d ∈ reg -> d ∉ D0.

Lemma step_registry_ok esc D0 w w' : registry_ok D0 w -> step esc w w' -> registry_ok D0 w'.
Proof.
  intros (reg & Hreg & Hnd & Hdom & Hnew) Hstep.
  destruct Hstep as [s _|s st p l Hs Hl|s p d|s st c p v Hs Hc|s st c p Hs Hc].
  - pose proof (escalates_evolves _ _ (markChanged_escalates s w)) as Hev.
    exists reg. rewrite (ev_proxies _ _ Hev), (evolves_dom _ _ Hev). by repeat split.
  - assert (Hfresh : fresh (dom (w_states w)) ∉ dom (w_states w)) by apply is_fresh.
    assert (Hsub : forall x, x ∈ D0 \/ x ∈ reg -> x ∈ dom (w_states w)).
    { intros x Hx. rewrite Hdom. set_solver. }
    exists (reg ++ [fresh (dom (w_states w))])%list. split; [|split; [|split]].
    + by rewrite createProxy_proxies, Hreg.
    + apply NoDup_app. split; [done|]. split; [|apply NoDup_singleton].
      intros x Hx Hx'. apply list_elem_of_singleton in Hx'. subst x.
      by apply Hfresh, Hsub; right.
    + rewrite createProxy_states, dom_insert_L, Hdom, list_to_set_app_L. simpl.
      set_solver.
    + intros d Hd. apply elem_of_app in Hd as [Hd|Hd]; [by apply Hnew|].
      apply list_elem_of_singleton in Hd. subst d. intros Hin.
      by apply Hfresh, Hsub; left.
  - exists reg. simpl. rewrite dom_alter_L. by repeat split.
  - exists reg. by rewrite write_field_proxies, write_field_states.
  - exists reg. by rewrite delete_field_proxies, delete_field_states.
Qed.

Lemma steps_registry_ok esc D0 w w' : registry_ok D0 w -> steps esc w w' -> registry_ok D0 w'.
Proof. intros Hr Hs. induction Hs; [done|]. eauto using step_registry_ok. Qed.

Lemma entry_registry_ok b w : registry_ok (dom (w_states w)) (entry_world b w).
Proof.
  assert (Hfresh : root_of w ∉ dom (w_states w)) by (unfold root_of; apply is_fresh).
  exists [root_of w]. split; [apply entry_proxies|]. split; [apply NoDup_singleton|]. split.
  - rewrite entry_states, dom_insert_L. simpl. set_solver.
  - intros d Hd. by apply list_elem_of_singleton in Hd as ->.
Qed.

(** X12.  While a producer runs, whatever it does, the registry is not null
    and lists, once each, exactly the states made since the call began: the
    states of the store are those there were before the call and those of
    the registry, and no state of before is in the registry. *)
Theorem X12_registry_tracks_drafts (b : loc) (w : world) (p : prog) :
  registry_ok (dom (w_states w)) (snd (run p (entry_world b w))).
Proof. eapply steps_registry_ok; [apply entry_registry_ok|apply run_steps]. Qed.

(** No step revokes a proxy. *)
Lemma step_revokes_nothing esc w w' d :
  step esc w w' -> w_revoked w' !! d = Some true -> w_revoked w !! d = Some true.
Proof.
  intros Hstep.
  destruct Hstep as [s _|s st p l Hs Hl|s p x|s st c p v Hs Hc|s st c p Hs Hc]; try done.
  - by rewrite (ev_revoked _ _ (escalates_evolves _ _ (markChanged_escalates s w))).
  - rewrite createProxy_revoked. intros Hd.
    apply lookup_insert_Some in Hd as [[_ ?]|[_ Hd]]; done.
  - by rewrite write_field_revoked.
  - by rewrite delete_field_revoked.
Qed.

Lemma steps_revoke_nothing esc w w' d :
  steps esc w w' -> w_revoked w' !! d = Some true -> w_revoked w !! d = Some true.
Proof. induction 1; [done|]. eauto using step_revokes_nothing. Qed.

(** What X10 and X11 ask of the [finalize] they are given: it revokes
    nothing and restores nothing. *)
Definition keeps_handles (fin : value -> M value) : Prop :=
  forall v w, w_revoked (snd (fin v w)) = w_revoked w.

Lemma finalize_keeps_handles n : keeps_handles (finalize n).
Proof. intros v w. by destruct (finalize_same_drafts n w v w) as (_ & Hr & _). Qed.

Lemma settle_keeps_handles fin root v w :
  keeps_handles fin -> w_revoked (snd (settle fin root v w)) = w_revoked w.
Proof.
  intros Hfin. unfold settle.
  destruct (negb (strict_eq v VUndefined) && negb (strict_eq v root)); [|apply Hfin].
  unfold bind. pose proof (proxy_state_same root w) as Hps.
  destruct (proxy_state root w) as [[rs|e] w']; simpl in Hps; subst w'; [|done].
  destruct (modified rs); [done|apply Hfin].
Qed.

(** X10.  When [produceProxy] raises -- the producer threw, or it returned a
    value after modifying the draft, or the finalizer failed -- it has
    revoked nothing: a proxy that is revoked afterwards was revoked before
    the call, and the root draft of the call is live.  An error of the
    producer is raised as it is. *)
Theorem X10_error_exit_revokes_nothing (fin : value -> M value) (b : loc)
    (producer : value -> prog) (w : world) (e : exn) :
  keeps_handles fin ->
  fst (produceProxy fin b producer w) = Throw e ->
  (forall d, w_revoked (snd (produceProxy fin b producer w)) !! d = Some true ->
             w_revoked w !! d = Some true)
  /\ w_revoked (snd (produceProxy fin b producer w)) !! root_of w = Some false
  /\ (forall e', fst (run (producer (VProxy (root_of w))) (entry_world b w)) = Throw e' ->
                 e = e').
Proof.
  intros Hfin. rewrite produceProxy_eq.
  pose proof (run_steps (producer (VProxy (root_of w))) (entry_world b w)) as Hsteps.
  assert (Hentry : forall d, w_revoked (entry_world b w) !! d = Some true ->
                             w_revoked w !! d = Some true).
  { intros d. rewrite entry_revoked. intros Hd.
    apply lookup_insert_Some in Hd as [[_ ?]|[_ Hd]]; done. }
  assert (Hroot : forall w2, steps true (entry_world b w) w2 ->
                             w_revoked w2 !! root_of w = Some false).
  { intros w2 Hs2. rewrite (gr_revoked _ _ (steps_grows _ _ _ Hs2)).
    - rewrite entry_revoked. apply lookup_insert_eq.
    - rewrite entry_states, lookup_insert_eq. eauto. }
  destruct (run _ _) as [[v|e0] w2]; simpl in Hsteps.
  2:{ simpl. intros [= ->]. split; [|split].
      - intros d Hd. by apply Hentry, (steps_revoke_nothing _ _ _ _ Hsteps).
      - by apply Hroot.
      - by intros e' [= ->]. }
  pose proof (settle_keeps_handles fin (VProxy (root_of w)) v w2 Hfin) as H3.
  destruct (settle fin (VProxy (root_of w)) v w2) as [[r|e0] w3]; simpl in H3.
  - destruct (w_proxies w3); [done|]. simpl. intros _. rewrite H3. split; [|split].
    + intros d Hd. by apply Hentry, (steps_revoke_nothing _ _ _ _ Hsteps).
    + by apply Hroot.
    + done.
  - simpl. intros _. rewrite H3. split; [|split].
    + intros d Hd. by apply Hentry, (steps_revoke_nothing _ _ _ _ Hsteps).
    + by apply Hroot.
    + done.
Qed.

Lemma X10_error_exit_revokes_nothing_witness :
  w_revoked (snd (produceProxy (finalize 10) 1%positive ex_write_and_return ex_world))
    !! 1%positive = Some false.
Proof.
  destruct (X10_error_exit_revokes_nothing (finalize 10) 1%positive ex_write_and_return
              ex_world ReturnedAndModified (finalize_keeps_handles 10)) as (_ & H & _).
  - vm_compute. reflexivity.
  - exact H.
Defined.

Lemma revoke_all_other l : forall w d,
  d ∉ l -> w_revoked (revoke_all l w) !! d = w_revoked w !! d.
Proof.
  induction l as [|x l IH]; intros w d Hd; [done|].
  simpl. rewrite IH by (intros Hin; apply Hd; by apply list_elem_of_further).
  simpl. apply lookup_insert_ne. intros ->. apply Hd. apply list_elem_of_here.
Qed.

(** X11.  A call spares the drafts of the calls around it.  Whatever the
    producer does and however [produceProxy] exits, the proxy of every state
    that was there before the call is revoked afterwards exactly if it was
    before: the call revokes its own drafts only. *)
Theorem X11_call_spares_outer_drafts (fin : value -> M value) (b : loc)
    (producer : value -> prog) (w : world) (d : sid) :
  keeps_drafts fin -> keeps_handles fin ->
  is_Some (w_states w !! d) ->
  w_revoked (snd (produceProxy fin b producer w)) !! d = w_revoked w !! d.
Proof.
  intros Hfin Hrev Hd. rewrite produceProxy_eq.
  pose proof (run_steps (producer (VProxy (root_of w))) (entry_world b w)) as Hsteps.
  assert (Hne : root_of w ≠ d).
  { intros Heq. unfold root_of in Heq. rewrite <- Heq in Hd.
    rewrite fresh_sid_fresh in Hd. by destruct Hd. }
  assert (H2 : forall w2, steps true (entry_world b w) w2 ->
                          w_revoked w2 !! d = w_revoked w !! d).
  { intros w2 Hs2. rewrite (gr_revoked _ _ (steps_grows _ _ _ Hs2)).
    - rewrite entry_revoked. by apply lookup_insert_ne.
    - rewrite entry_states, lookup_insert_ne; done. }
  pose proof (steps_registry_ok _ _ _ _ (entry_registry_ok b w) Hsteps)
    as (reg & Hreg & _ & _ & Hnew).
  destruct (run _ _) as [[v|e0] w2]; simpl in *; [|by apply H2].
  pose proof (settle_keeps_handles fin (VProxy (root_of w)) v w2 Hrev) as H3.
  destruct (settle_keeps_drafts fin (VProxy (root_of w)) v w2 Hfin) as [Hp3 _].
  destruct (settle fin (VProxy (root_of w)) v w2) as [[r|e0] w3]; simpl in *.
  - rewrite Hp3, Hreg. simpl. rewrite revoke_all_other, H3; [by apply H2|].
    intros Hin. apply (Hnew d Hin). by apply elem_of_dom.
  - rewrite H3. by apply H2.
Qed.

(** An inner call made while the outer call of the example runs: the drafts
    of the outer call stay live. *)
Lemma X11_call_spares_outer_drafts_witness :
  w_revoked (snd (produceProxy (finalize 10) 3%positive (delete_producer "0") ex_child_world))
    !! 2%positive
  = w_revoked ex_child_world !! 2%positive.
Proof.
  apply (X11_call_spares_outer_drafts (finalize 10) 3%positive (delete_producer "0")
           ex_child_world 2%positive).
  - apply finalize_keeps_drafts.
  - apply finalize_keeps_handles.
  - vm_compute. eauto.
Defined.

Example ex_inner_call :
  fst (produceProxy (finalize 10) 3%positive (delete_producer "0") ex_child_world)
  = Ok (VObj 5%positive)
  /\ w_revoked (snd (produceProxy (finalize 10) 3%positive (delete_producer "0")
                       ex_child_world)) !! 3%positive = Some true
  /\ w_proxies (snd (produceProxy (finalize 10) 3%positive (delete_producer "0")
                       ex_child_world)) = Some [1%positive; 2%positive].
Proof. vm_compute. done. Qed.

(** ** The copy of a draft is made once *)

Lemma step_keeps_copy esc w w' s st :
  step esc w w' -> w_states w !! s = Some st -> modified st = true ->
  exists st', w_states w' !! s = Some st' /\ modified st' = true
              /\ copy st' = copy st /\ base st' = base st.
Proof.
  intros Hstep Hs Hm.
  destruct Hstep as [x _|x xst p l Hx Hl|x p d|x xst c p v Hx Hc|x xst c p Hx Hc].
  - destruct (ev_states _ _ (escalates_evolves _ _ (markChanged_escalates x w)) s st Hs)
      as (st' & Hs' & _ & _ & _ & _ & Heq).
    rewrite (Heq Hm) in Hs'. by exists st.
  - exists st. split; [by apply createProxy_keeps|done].
  - destruct (update_proxies_lookup x _ w s st Hs (cache_fields p d))
      as (st' & Hs' & Hb & _ & Hm' & Hc').
    exists st'. split; [done|]. split; [congruence|done].
  - exists st. by rewrite write_field_states.
  - exists st. by rewrite delete_field_states.
Qed.

Lemma steps_keep_copy esc w w' :
  steps esc w w' -> forall s st, w_states w !! s = Some st -> modified st = true ->
  exists st', w_states w' !! s = Some st' /\ modified st' = true
              /\ copy st' = copy st /\ base st' = base st.
Proof.
  induction 1 as [w|w w1 w2 Hstep _ IH]; intros s st Hs Hm; [by exists st|].
  destruct (step_keeps_copy _ _ _ _ _ Hstep Hs Hm) as (st1 & Hs1 & Hm1 & Hc1 & Hb1).
  destruct (IH _ _ Hs1 Hm1) as (st2 & Hs2 & Hm2 & Hc2 & Hb2).
  exists st2. split; [done|]. split; [done|]. split; congruence.
Qed.

(** X13.  The copy of a draft is made once.  Whatever a producer does from
    whatever store -- reads, writes and deletions on any drafts, failing or
    not --, a state that was modified stays modified and keeps the copy and
    the base it had: later writes go to the same copy, [markChanged] never
    copies a second time. *)
Theorem X13_copy_made_once (p : prog) (w : world) (s : sid) (st : state) :
  w_states w !! s = Some st -> modified st = true ->
  exists st', w_states (snd (run p w)) !! s = Some st' /\ modified st' = true
              /\ copy st' = copy st /\ base st' = base st.
Proof. intros Hs Hm. exact (steps_keep_copy true _ _ (run_steps p w) s st Hs Hm). Qed.

Lemma X13_copy_made_once_witness :
  exists st', w_states (snd (run (ex_producer (VProxy 1%positive)) ex_modified_world))
                !! 1%positive = Some st'
    /\ modified st' = true /\ copy st' = Some 4%positive /\ base st' = 1%positive.
Proof.
  apply (X13_copy_made_once (ex_producer (VProxy 1%positive)) ex_modified_world 1%positive
           (mk_state true false None 1%positive (Some 4%positive) ∅)); reflexivity.
Defined.

(** ** Writing the same value again *)

(** X14.  Writing twice is writing once.  In a store whose parent pointers
    lead to states, on a state that has a copy if it is modified, [set] of a
    value at a data key (no member of the prototypes, not [length])
    succeeds, and the same [set] again succeeds and leaves the store as the
    first left it: the second write escalates nothing and makes no copy. *)
Theorem X14_set_idempotent (w : world) (s : sid) (st : state) (k : string) (v : value) :
  data_key k ->
  tree_ok w -> w_states w !! s = Some st ->
  (modified st = true -> is_Some (copy st)) ->
  exists w1, set s (PKey k) v w = (Ok true, w1) /\ set s (PKey k) v w1 = (Ok true, w1).
Proof.
  intros Hdk Hok Hs Hcopy.
  assert (Hagain : forall w0 st0 c o',
            w_states w0 !! s = Some st0 -> modified st0 = true -> copy st0 = Some c ->
            fields o' !! PKey k = Some v ->
            set s (PKey k) v (put_obj c o' w0) = (Ok true, put_obj c o' w0)).
  { intros w0 st0 c o' Hs0 Hm0 Hc0 Hk.
    assert (Hs1 : w_states (put_obj c o' w0) !! s = Some st0) by done.
    unfold set. unfold bind at 1, read_state at 1. rewrite Hs1, Hm0.
    unfold bind at 1, copy_of at 1, bind at 1, read_state at 1. rewrite Hs1, Hc0.
    unfold ret at 1. unfold bind. rewrite write_field_eq, obj_at_put.
    rewrite (assign_present o' (PKey k) v v Hk) by (destruct Hdk; congruence).
    rewrite insert_id by done. unfold ret. f_equal.
    unfold put_obj, with_heap. simpl. rewrite insert_insert_eq. by destruct o'. }
  destruct (set_outcome w s st k v Hdk Hok Hs Hcopy)
    as [(Hm & c & o' & Hc & Hset & Hwr)
       |[(Hm & Hset & _)
        |(Hm & wm & st' & c & o' & Hset & _ & Hs' & Hm' & Hc' & _ & _ & Hwr)]].
  - rewrite Hset. eexists. split; [done|]. eapply Hagain; try done. apply Hwr.
  - rewrite Hset. by eexists.
  - rewrite Hset. eexists. split; [done|]. eapply Hagain; try done. apply Hwr.
Qed.

Lemma X14_set_idempotent_witness :
  exists w1, set 2%positive (PKey "b") (VNum 2) ex_child_world = (Ok true, w1)
             /\ set 2%positive (PKey "b") (VNum 2) w1 = (Ok true, w1).
Proof.
  apply (X14_set_idempotent ex_child_world 2%positive
           (createState (Some 1%positive) 2%positive)).
  - split; [reflexivity|discriminate].
  - apply ex_child_world_tree_ok.
  - reflexivity.
  - intros H. discriminate H.
Defined.

(** ** Arrays and inherited members, on the example *)

(** The draft of the array [[1, 2, 3]] (state 3 of the store with the two
    sibling drafts): its [length] is an entry, deleting it raises a
    TypeError once the draft and the root are marked, an invalid length
    raises a RangeError, a shorter length removes the indices above it, and
    writing the length it has is a no-op. *)
Example ex_array_draft :
  fst (has_trap 3%positive (PKey "length") ex_sibling_world) = Ok true
  /\ fst (get 3%positive (PKey "length") ex_sibling_world) = Ok (VNum 3)
  /\ fst (deleteProperty 3%positive (PKey "length") ex_sibling_world)
     = Throw (TypeError "Cannot delete property 'length'")
  /\ modified <$> (w_states (snd (deleteProperty 3%positive (PKey "length") ex_sibling_world))
                   !! 1%positive) = Some true
  /\ fst (set 3%positive (PKey "length") (VNum (-1)) ex_sibling_world) = Throw RangeError
  /\ fst (has_trap 3%positive (PKey "0")
            (snd (set 3%positive (PKey "length") (VNum 0) ex_sibling_world))) = Ok false
  /\ fst (get 3%positive (PKey "length")
            (snd (set 3%positive (PKey "length") (VStr "2") ex_sibling_world))) = Ok (VNum 2)
  /\ set 3%positive (PKey "length") (VNum 3) ex_sibling_world = (Ok true, ex_sibling_world).
Proof. vm_compute. done. Qed.

(** The members of the prototypes are seen through a draft, also after a
    delete of the name; reading [__proto__] would draft a prototype object,
    which is where the model ends. *)
Example ex_inherited_members :
  fst (get 1%positive (PKey "toString") ex_sibling_world)
  = Ok (VBuiltin (BMember ORecord "toString"))
  /\ fst (has_trap 1%positive (PKey "toString")
            (snd (deleteProperty 1%positive (PKey "toString") ex_sibling_world))) = Ok true
  /\ fst (get 3%positive (PKey "push") ex_sibling_world)
     = Ok (VBuiltin (BMember OArray "push"))
  /\ is_modelled (fst (get 1%positive (PKey "__proto__") ex_sibling_world)) = false.
Proof. vm_compute. done. Qed.

(** ** The [length] of an array draft: what raises *)

Lemma ex_sibling_world_tree_ok : tree_ok ex_sibling_world.
Proof.
  intros s st p Hs Hp. unfold ex_sibling_world in *. simpl in *.
  apply lookup_insert_Some in Hs as [[<- <-]|[_ Hs]]; [done|].
  apply lookup_insert_Some in Hs as [[<- <-]|[_ Hs]].
  - simpl in Hp. injection Hp as <-. eexists. split; [apply lookup_insert_eq|done].
  - apply lookup_singleton_Some in Hs as [<- <-]. simpl in Hp. injection Hp as <-.
    eexists. split; [apply lookup_insert_eq|done].
Qed.

(** X17.  The [length] of an array cannot be deleted through a draft, and
    the attempt is not free: on a state that is not modified and whose base
    (with the cached drafts) is an array, [deleteProperty] of [length] raises
    a TypeError, after the state and all its ancestors were marked as
    modified. *)
Theorem X17_delete_length_raises (w : world) (s : sid) (st : state) (n : Z) :
  tree_ok w -> w_states w !! s = Some st -> modified st = false ->
  array_length (shallow_copy_of w st) = Some n ->
  fst (deleteProperty s (PKey "length") w)
  = Throw (TypeError "Cannot delete property 'length'")
  /\ forall a, a = s \/ ancestor w a s ->
       is_modified (snd (deleteProperty s (PKey "length") w)) a.
Proof.
  intros Hok Hs Hm Hn. split.
  - destruct (markChanged_closes s w Hok (mk_is_Some _ _ Hs)) as (Hfst & _ & _).
    destruct (deleteProperty_unmodified w s st (PKey "length") Hs Hm Hfst) as [Hdel _].
    rewrite Hdel. unfold remove. rewrite Hn.
    rewrite bool_decide_eq_true_2 by done.
    by rewrite (bool_decide_eq_true_2 (is_Some (Some n))) by eauto.
  - apply deleteProperty_marks; [done|eauto].
Qed.

Lemma X17_delete_length_raises_witness :
  fst (deleteProperty 3%positive (PKey "length") ex_sibling_world)
  = Throw (TypeError "Cannot delete property 'length'")
  /\ forall a, a = 3%positive \/ ancestor ex_sibling_world a 3%positive ->
       is_modified (snd (deleteProperty 3%positive (PKey "length") ex_sibling_world)) a.
Proof.
  apply (X17_delete_length_raises ex_sibling_world 3%positive
           (createState (Some 1%positive) 3%positive) 3%Z).
  - exact ex_sibling_world_tree_ok.
  - reflexivity.
  - reflexivity.
  - vm_compute. reflexivity.
Defined.

(** X18.  A length that is no length.  On a state that is not modified,
    whose base (with the cached drafts) is an array and whose cache has
    nothing under [length]: [set] of [length] to a value that is not a whole
    number between 0 and 2^32 - 1 (a negative number, NaN, undefined, ...)
    raises a RangeError, after the state and all its ancestors were marked
    as modified; the copy made on the way still has the length and the
    entries of the base. *)
Theorem X18_invalid_length_raises (w : world) (s : sid) (st : state) (n : Z) (v : value) :
  tree_ok w -> w_states w !! s = Some st -> modified st = false ->
  array_length (shallow_copy_of w st) = Some n ->
  proxies st !! PKey "length" = None ->
  to_array_length v = LenInvalid ->
  fst (set s (PKey "length") v w) = Throw RangeError
  /\ (forall a, a = s \/ ancestor w a s -> is_modified (snd (set s (PKey "length") v w)) a)
  /\ exists st' c, w_states (snd (set s (PKey "length") v w)) !! s = Some st'
       /\ copy st' = Some c
       /\ w_heap (snd (set s (PKey "length") v w)) !! c = Some (shallow_copy_of w st).
Proof.
  intros Hok Hs Hm Hn Hcache Hv.
  destruct (array_length_inv _ _ Hn) as [Hlen _].
  assert (Hbase : fields (obj_at w (base st)) !! PKey "length" = Some (VNum n)).
  { unfold shallow_copy_of in Hlen. simpl in Hlen. by rewrite lookup_union_r in Hlen. }
  assert (Hne : VNum n <> v).
  { intros <-. rewrite (array_length_valid _ _ Hn) in Hv. discriminate Hv. }
  destruct (markChanged_ready w s st Hok Hs)
    as (wm & st' & c & Hmark & Hs' & Hm' & Hc' & _ & _ & _ & _ & Hnew); [congruence|].
  destruct (Hnew Hm) as [Hfresh Hcopy].
  destruct (markChanged_closes s w Hok (mk_is_Some _ _ Hs)) as (_ & Hok' & Hmod).
  rewrite Hmark in Hok', Hmod. simpl in Hok', Hmod.
  assert (Hset : set s (PKey "length") v w = (Throw RangeError, wm)).
  { unfold set. unfold bind at 1, read_state at 1. rewrite Hs, Hm.
    unfold bind at 1, in_field at 1, gets. unfold bind at 1, read_field at 1, gets.
    rewrite (has_property_own _ _ _ Hbase), (get_property_own _ _ _ Hbase).
    rewrite (has_None _ _ Hcache). unfold is_.
    rewrite (bool_decide_eq_false_2 (VNum n = v)) by done. simpl.
    unfold bind at 1. rewrite Hmark.
    unfold bind at 1, copy_of at 1, bind at 1, read_state at 1. rewrite Hs', Hc'.
    unfold ret at 1. unfold bind at 1. rewrite write_field_eq.
    unfold obj_at. rewrite Hcopy. simpl. unfold assign. rewrite Hn.
    rewrite bool_decide_eq_true_2 by done. by rewrite Hv. }
  rewrite Hset. simpl. split; [done|]. split; [|by exists st', c].
  intros a Ha. destruct Ha as [->|Hanc]; [done|].
  apply (tree_ok_upward_closed _ Hok' s a Hmod).
  eapply ancestor_grows; [|done].
  pose proof (escalates_evolves _ _ (markChanged_escalates s w)) as Hev.
  rewrite Hmark in Hev. by apply evolves_grows.
Qed.

Lemma X18_invalid_length_raises_witness :
  fst (set 3%positive (PKey "length") (VNum (-1)) ex_sibling_world) = Throw RangeError
  /\ (forall a, a = 3%positive \/ ancestor ex_sibling_world a 3%positive ->
        is_modified (snd (set 3%positive (PKey "length") (VNum (-1)) ex_sibling_world)) a)
  /\ exists st' c,
       w_states (snd (set 3%positive (PKey "length") (VNum (-1)) ex_sibling_world))
         !! 3%positive = Some st'
       /\ copy st' = Some c
       /\ w_heap (snd (set 3%positive (PKey "length") (VNum (-1)) ex_sibling_world)) !! c
          = Some (shallow_copy_of ex_sibling_world (createState (Some 1%positive) 3%positive)).
Proof.
  apply (X18_invalid_length_raises ex_sibling_world 3%positive
           (createState (Some 1%positive) 3%positive) 3%Z (VNum (-1))).
  - exact ex_sibling_world_tree_ok.
  - reflexivity.
  - reflexivity.
  - vm_compute. reflexivity.
  - reflexivity.
  - reflexivity.
Defined.
